(** * A shallow embedding of the chat server (server/server.js and its
      Mongoose models) and the properties of its event handlers.

    Conventions of the embedding.
    - A JavaScript string is a [string]; a character is a code unit in
      U+0000..U+00FF (the Latin-1 range), which is where [toLowerCase] and
      the regular-expression class [\s] are written out below.
    - A JavaScript number that the handlers compute with is an integer or
      NaN ([JNum]); rounding of integers beyond 2^53 is not modelled.  Where
      a client sends an offset or a limit it sends a number or a string
      ([Value]).
    - The payload of an inbound event has the fields its handler reads,
      with the types the schemas give them; a field that may be absent is
      an [option].  Socket ids contain no dot, so that [users.<id>] is a
      path of two segments.
    - The three Mongoose collections are lists of documents in insertion
      order; [Map]-typed schema fields are [gmap]s.
    - Every handler runs in a small state-and-exception monad over the
      [World]; [await] marks a call into the persistent store, the only
      places at which a handler can be interrupted by a rejection
      (connectivity, validation, a cast error: any reason).
    - Socket ids are not empty, so that the [senderId] a handler writes
      always passes the [required] check of the Message schema.
    - The log has two streams: the [console.error] lines of the [catch]
      blocks, each kept by its fixed prefix ([console]), and the
      [console.log] lines of the handlers, each kept by its template and
      its arguments ([stdout]). *)

From Stdlib Require Import ZArith Ascii String List Permutation Sorted Lia.
From stdpp Require Import base tactics option list sorting strings gmap.

Local Open Scope string_scope.
Local Open Scope list_scope.
Local Open Scope nat_scope.

(** ** JavaScript values and string primitives *)

Module Js.

(** Numbers as the handlers use them: an integer or NaN. *)
Inductive JNum : Type :=
| Int (z : Z)
| NaN.

Definition add (a b : JNum) : JNum :=
  match a, b with
  | Int x, Int y => Int (x + y)
  | _, _ => NaN
  end.

(** What arrives where a number is expected: a number or a string. *)
Inductive Value : Type :=
| Num (n : JNum)
| Str (s : string).

Definition of_nat (n : nat) : Value := Num (Int (Z.of_nat n)).

(** [a < b]; any comparison with NaN is false. *)
Definition lt (a b : JNum) : bool :=
  match a, b with
  | Int x, Int y => (x <? y)%Z
  | _, _ => false
  end.

Definition code (c : ascii) : N := N_of_ascii c.

(** White space of [\s] and of [parseInt]'s trimming, below U+0100:
    TAB, LF, VT, FF, CR, SPACE and NO-BREAK SPACE. *)
Definition is_space (c : ascii) : bool :=
  let n := code c in
  ((9 <=? n) && (n <=? 13) || (n =? 32) || (n =? 160))%N.

Definition is_upper (c : ascii) : bool :=
  let n := code c in
  ((65 <=? n) && (n <=? 90)
   || (192 <=? n) && (n <=? 222) && negb (n =? 215))%N.

Definition lower_char (c : ascii) : ascii :=
  if is_upper c then ascii_of_N (code c + 32) else c.

(** [String.prototype.toLowerCase]. *)
Fixpoint toLowerCase (s : string) : string :=
  match s with
  | EmptyString => EmptyString
  | String c r => String (lower_char c) (toLowerCase r)
  end.

(** [s.replace(/\s+/g, '-')]: a left-to-right scan in which every maximal
    run of white space produces one separator.  [in_run] records that the
    previous character belonged to the run being replaced. *)
Fixpoint replace_runs (in_run : bool) (s : string) : string :=
  match s with
  | EmptyString => EmptyString
  | String c r =>
      if is_space c
      then (if in_run then replace_runs true r
            else String "-" (replace_runs true r))
      else String c (replace_runs false r)
  end.

Definition replace_whitespace (s : string) : string := replace_runs false s.

(** Truthiness of an optional string: [undefined] and [''] are falsy. *)
Definition truthy (o : option string) : bool :=
  match o with
  | Some (String _ _) => true
  | _ => false
  end.

(** [o || d]. *)
Definition or_else (o : option string) (d : string) : string :=
  match o with
  | Some (String c r) => String c r
  | _ => d
  end.

(** *** [parseInt(string)] with no radix argument *)

Fixpoint trim_start (s : string) : string :=
  match s with
  | String c r => if is_space c then trim_start r else s
  | EmptyString => EmptyString
  end.

Definition digit_value (radix : N) (c : ascii) : option N :=
  let n := code c in
  let v :=
    if ((48 <=? n) && (n <=? 57))%N then Some (n - 48)%N
    else if ((97 <=? n) && (n <=? 122))%N then Some (n - 87)%N
    else if ((65 <=? n) && (n <=? 90))%N then Some (n - 55)%N
    else None in
  match v with
  | Some d => if (d <? radix)%N then Some d else None
  | None => None
  end.

(** Value of the longest prefix of digits; [None] when it is empty. *)
Fixpoint digits_prefix (radix : N) (acc : option N) (s : string) : option N :=
  match s with
  | EmptyString => acc
  | String c r =>
      match digit_value radix c with
      | Some d => digits_prefix radix (Some (default 0%N acc * radix + d)%N) r
      | None => acc
      end
  end.

Definition strip_sign (s : string) : bool * string :=
  match s with
  | String "-" r => (true, r)
  | String "+" r => (false, r)
  | _ => (false, s)
  end.

Definition strip_hex (s : string) : N * string :=
  match s with
  | String "0" (String "x" r) => (16%N, r)
  | String "0" (String "X" r) => (16%N, r)
  | _ => (10%N, s)
  end.

(** The digits after the sign: radix 16 after [0x], radix 10 otherwise. *)
Definition parse_magnitude (s : string) : option N :=
  let '(radix, s2) := strip_hex s in
  digits_prefix radix None s2.

Definition parseInt (s : string) : JNum :=
  let '(neg, s1) := strip_sign (trim_start s) in
  match parse_magnitude s1 with
  | None => NaN
  | Some n => Int (if neg then - Z.of_N n else Z.of_N n)
  end.

(** A JavaScript [Map]: its entries are not properties of the object, so
    [Object.keys] only sees what was assigned to it as a plain property. *)
Record JsMap (V : Type) : Type := mkJsMap {
  entries : list (string * V);
  own_props : list (string * V)
}.
Arguments mkJsMap {V} _ _.
Arguments entries {V} _.
Arguments own_props {V} _.

Definition Object_keys {V} (m : JsMap V) : list string :=
  map fst (own_props m).

(** A plain object used as a dictionary, in property insertion order. *)
Definition Dict := list (string * string).

Fixpoint dict_set (k v : string) (d : Dict) : Dict :=
  match d with
  | [] => [(k, v)]
  | (k', v') :: r =>
      if String.eqb k' k then (k', v) :: r else (k', v') :: dict_set k v r
  end.

Definition dict_delete (k : string) (d : Dict) : Dict :=
  filter (fun p => negb (String.eqb (fst p) k)) d.

Definition Object_values (d : Dict) : list string := map snd d.

End Js.

(** ** Documents of the three collections (models/User.js, models/Room.js,
       models/Message.js).  Dates are natural numbers.  The [updatedAt]
       stamp that Mongoose maintains on its own is left out. *)

Module User.
Record t : Type := mk {
  socketId : string;
  username : string;
  currentRoom : string;
  isOnline : bool;
  lastSeen : nat;
  unreadCount : nat;
  createdAt : nat
}.
End User.

Module Room.
Record t : Type := mk {
  roomId : string;
  name : string;
  description : string;
  users : gmap string (option string);
  messageCount : nat;
  isPrivate : bool;
  createdBy : string;
  createdAt : nat
}.

(** What [Room.create] receives; absent fields take the schema defaults. *)
Record draft : Type := mkDraft {
  d_roomId : string;
  d_name : string;
  d_createdBy : option string
}.

Definition of_draft (now : nat) (d : draft) : t :=
  {| roomId := d_roomId d;
     name := d_name d;
     description := "";
     users := ∅;
     messageCount := 0;
     isPrivate := false;
     createdBy := default "system" (d_createdBy d);
     createdAt := now |}.

Definition set_users (f : gmap string (option string) → gmap string (option string))
    (r : t) : t :=
  {| roomId := roomId r; name := name r; description := description r;
     users := f (users r); messageCount := messageCount r;
     isPrivate := isPrivate r; createdBy := createdBy r;
     createdAt := createdAt r |}.

Definition inc_messageCount (r : t) : t :=
  {| roomId := roomId r; name := name r; description := description r;
     users := users r; messageCount := messageCount r + 1;
     isPrivate := isPrivate r; createdBy := createdBy r;
     createdAt := createdAt r |}.
End Room.

Module Message.
Record t : Type := mk {
  _id : nat;
  sender : string;
  senderId : string;
  message : string;
  room : string;
  fileName : option string;
  fileUrl : option string;
  fileType : option string;
  isFile : bool;
  isPrivate : bool;
  recipient : option string;
  delivered : bool;
  read : bool;
  reactions : gmap string string;
  timestamp : nat
}.

(** What [Message.create] receives: the fields a handler writes into its
    payload object are [Some], the ones it leaves out are [None]. *)
Record draft : Type := mkDraft {
  d_sender : string;
  d_senderId : string;
  d_message : option string;
  d_room : option string;
  d_fileName : option string;
  d_fileUrl : option string;
  d_fileType : option string;
  d_isFile : option bool;
  d_isPrivate : option bool;
  d_recipient : option string;
  d_delivered : option bool;
  d_timestamp : option nat
}.

(** The schema defaults of models/Message.js. *)
Definition of_draft (id now : nat) (d : draft) : t :=
  {| _id := id;
     sender := d_sender d;
     senderId := d_senderId d;
     message := default "" (d_message d);
     room := default "general" (d_room d);
     fileName := d_fileName d;
     fileUrl := d_fileUrl d;
     fileType := d_fileType d;
     isFile := default false (d_isFile d);
     isPrivate := default false (d_isPrivate d);
     recipient := d_recipient d;
     delivered := default true (d_delivered d);
     read := false;
     reactions := ∅;
     timestamp := default now (d_timestamp d) |}.

(** [{ $set: { reactions.<k>: v } }]. *)
Definition set_reaction (k v : string) (m : t) : t :=
  {| _id := _id m; sender := sender m; senderId := senderId m;
     message := message m; room := room m; fileName := fileName m;
     fileUrl := fileUrl m; fileType := fileType m; isFile := isFile m;
     isPrivate := isPrivate m; recipient := recipient m;
     delivered := delivered m; read := read m;
     reactions := <[k := v]> (reactions m); timestamp := timestamp m |}.

(** [{ read: true }]. *)
Definition set_read (m : t) : t :=
  {| _id := _id m; sender := sender m; senderId := senderId m;
     message := message m; room := room m; fileName := fileName m;
     fileUrl := fileUrl m; fileType := fileType m; isFile := isFile m;
     isPrivate := isPrivate m; recipient := recipient m;
     delivered := delivered m; read := true;
     reactions := reactions m; timestamp := timestamp m |}.
End Message.

(** What a client sends as the identifier of a message: a value that
    casts to an [ObjectId], which a number stands for here, or a value
    that does not. *)
Inductive MessageId : Type :=
| ObjectId (n : nat)
| not_an_id (raw : string).

(** ** Outbound events *)

(** The payloads of the events the server emits. *)
Inductive Payload : Type :=
| user_list (onlineUsers : list User.t)
| user_joined (username id : string)
| room_list (rooms : list Room.t)
| receive_message (m : Message.t)
| new_message_notification (message sender : string)
    (roomId : option string) (isPrivate isFile : bool)
| message_delivered (messageId : nat)
| notification (type message : string) (roomId : option string)
| room_joined (roomId roomName : string)
| typing_users (names : list string)
| private_message_event (m : Message.t)
| reaction_added (messageId : MessageId) (reaction userId : string)
| message_read_receipt (messageId : MessageId) (userId : string)
| messages_loaded (messages : list Message.t) (hasMore : bool)
| search_results (messages : list Message.t) (query : string)
| user_left (username id : string)
| error (message : string).

(** How an event is addressed. *)
Inductive Target : Type :=
| SocketEmit (id : string)        (* socket.emit: the connection itself *)
| IoEmit                          (* io.emit: every connection *)
| IoTo (label : string)           (* io.to(label).emit: a room or a socket id *)
| BroadcastEmit (id : string).    (* socket.broadcast.emit: all but [id] *)

Record Emit : Type := mkEmit { target : Target; payload : Payload }.

Definition is_error (e : Emit) : bool :=
  match payload e with
  | error _ => true
  | _ => false
  end.

(** ** The state the handlers share *)

(** The [console.log] lines of the handlers and of [initializeRooms]. *)
Inductive LogLine : Type :=
| default_room_created (name : string)   (* Created default room: <name> *)
| joined_the_chat (username : string)    (* <username> joined the chat *)
| room_created (roomName : string)       (* Room created: <roomName> *)
| joined_room (id roomId : string)       (* User <id> joined room: <roomId> *)
| left_the_chat (username : string).     (* <username> left the chat *)

Record World : Type := mkWorld {
  db_users : list User.t;                  (* collection User *)
  db_rooms : list Room.t;                  (* collection Room *)
  db_messages : list Message.t;            (* collection Message *)
  next_id : nat;                           (* next [_id] the store hands out *)
  typingUsers : Js.Dict;                   (* const typingUsers = {} *)
  io_sockets : Js.JsMap unit;              (* io.sockets.sockets *)
  subscriptions : gset (string * string);  (* socket.join / socket.leave *)
  outbox : list Emit;                      (* events emitted, oldest first *)
  console : list string;                   (* console.error lines *)
  stdout : list LogLine                    (* console.log lines *)
}.

Definition with_users (f : list User.t → list User.t) (w : World) : World :=
  {| db_users := f (db_users w); db_rooms := db_rooms w;
     db_messages := db_messages w; next_id := next_id w;
     typingUsers := typingUsers w; io_sockets := io_sockets w;
     subscriptions := subscriptions w; outbox := outbox w;
     console := console w; stdout := stdout w |}.

Definition with_rooms (f : list Room.t → list Room.t) (w : World) : World :=
  {| db_users := db_users w; db_rooms := f (db_rooms w);
     db_messages := db_messages w; next_id := next_id w;
     typingUsers := typingUsers w; io_sockets := io_sockets w;
     subscriptions := subscriptions w; outbox := outbox w;
     console := console w; stdout := stdout w |}.

Definition with_messages (f : list Message.t → list Message.t) (w : World) : World :=
  {| db_users := db_users w; db_rooms := db_rooms w;
     db_messages := f (db_messages w); next_id := next_id w;
     typingUsers := typingUsers w; io_sockets := io_sockets w;
     subscriptions := subscriptions w; outbox := outbox w;
     console := console w; stdout := stdout w |}.

Definition with_next_id (n : nat) (w : World) : World :=
  {| db_users := db_users w; db_rooms := db_rooms w;
     db_messages := db_messages w; next_id := n;
     typingUsers := typingUsers w; io_sockets := io_sockets w;
     subscriptions := subscriptions w; outbox := outbox w;
     console := console w; stdout := stdout w |}.

Definition with_typing (f : Js.Dict → Js.Dict) (w : World) : World :=
  {| db_users := db_users w; db_rooms := db_rooms w;
     db_messages := db_messages w; next_id := next_id w;
     typingUsers := f (typingUsers w); io_sockets := io_sockets w;
     subscriptions := subscriptions w; outbox := outbox w;
     console := console w; stdout := stdout w |}.

Definition with_subscriptions
    (f : gset (string * string) → gset (string * string)) (w : World) : World :=
  {| db_users := db_users w; db_rooms := db_rooms w;
     db_messages := db_messages w; next_id := next_id w;
     typingUsers := typingUsers w; io_sockets := io_sockets w;
     subscriptions := f (subscriptions w); outbox := outbox w;
     console := console w; stdout := stdout w |}.

Definition with_outbox (f : list Emit → list Emit) (w : World) : World :=
  {| db_users := db_users w; db_rooms := db_rooms w;
     db_messages := db_messages w; next_id := next_id w;
     typingUsers := typingUsers w; io_sockets := io_sockets w;
     subscriptions := subscriptions w; outbox := f (outbox w);
     console := console w; stdout := stdout w |}.

Definition with_console (f : list string → list string) (w : World) : World :=
  {| db_users := db_users w; db_rooms := db_rooms w;
     db_messages := db_messages w; next_id := next_id w;
     typingUsers := typingUsers w; io_sockets := io_sockets w;
     subscriptions := subscriptions w; outbox := outbox w;
     console := f (console w); stdout := stdout w |}.

Definition with_stdout (f : list LogLine → list LogLine) (w : World) : World :=
  {| db_users := db_users w; db_rooms := db_rooms w;
     db_messages := db_messages w; next_id := next_id w;
     typingUsers := typingUsers w; io_sockets := io_sockets w;
     subscriptions := subscriptions w; outbox := outbox w;
     console := console w; stdout := f (stdout w) |}.

(** ** The handler monad

    A handler reads and writes the [World].  [pending] says which of the
    store calls still to come is rejected ([Some k]: the one after [k]
    successful calls; [None]: none).  A rejection is a JavaScript exception:
    it unwinds to the enclosing [try]/[catch] and leaves in place every
    write made before it. *)

Inductive outcome (A : Type) : Type :=
| Done (a : A)
| Thrown.
Arguments Done {A} _.
Arguments Thrown {A}.

Definition Handler (A : Type) : Type :=
  option nat → World → outcome A * option nat * World.

Definition ret {A} (a : A) : Handler A := λ p w, (Done a, p, w).

Definition bind {A B} (m : Handler A) (k : A → Handler B) : Handler B :=
  λ p w,
    match m p w with
    | (Done a, p', w') => k a p' w'
    | (Thrown, p', w') => (Thrown, p', w')
    end.

#[export] Instance Handler_ret : MRet Handler := @ret.
#[export] Instance Handler_bind : MBind Handler := λ A B k m, bind m k.

(** [try { body } catch (error) { handler }]. *)
Definition try_catch {A} (body : Handler A) (handler : Handler A) : Handler A :=
  λ p w,
    match body p w with
    | (Done a, p', w') => (Done a, p', w')
    | (Thrown, p', w') => handler p' w'
    end.

(** A step that touches only process-local state. *)
Definition local (f : World → World) : Handler unit := λ p w, (Done tt, p, f w).

(** [await <store call>]: the call either is the rejected one, and then it
    changes nothing, or it runs.  [op] returns [None] when the store rejects
    the call because of its arguments. *)
Definition await {A} (op : World → option (A * World)) : Handler A :=
  λ p w,
    match p with
    | Some 0 => (Thrown, None, w)
    | _ =>
        match op w with
        | Some (a, w') => (Done a, pred <$> p, w')
        | None => (Thrown, pred <$> p, w)
        end
    end.

(** A query: it reads the store and changes nothing. *)
Definition query {A} (q : World → A) : World → option (A * World) :=
  λ w, Some (q w, w).

(** A write whose result the handler does not use. *)
Definition update (f : World → World) : World → option (unit * World) :=
  λ w, Some (tt, f w).

Definition emit (t : Target) (p : Payload) : Handler unit :=
  local (with_outbox (λ o, o ++ [mkEmit t p])).

Definition console_error (line : string) : Handler unit :=
  local (with_console (λ c, c ++ [line])).

Definition console_log (line : LogLine) : Handler unit :=
  local (with_stdout (λ l, l ++ [line])).

(** [for (const x of l) { f x }] and [l.forEach(f)]. *)
Fixpoint for_each {A} (l : list A) (f : A → Handler unit) : Handler unit :=
  match l with
  | [] => ret tt
  | x :: r => bind (f x) (λ _, for_each r f)
  end.

(** ** Store operations *)

Fixpoint update_first {A} (P : A → bool) (f : A → A) (l : list A) : list A :=
  match l with
  | [] => []
  | x :: r => if P x then f x :: r else x :: update_first P f r
  end.

Definition update_many {A} (P : A → bool) (f : A → A) (l : list A) : list A :=
  map (λ x, if P x then f x else x) l.

Definition has_socketId (id : string) (u : User.t) : bool :=
  bool_decide (User.socketId u = id).

Definition has_roomId (id : string) (r : Room.t) : bool :=
  bool_decide (Room.roomId r = id).

Definition has_id (id : nat) (m : Message.t) : bool :=
  bool_decide (Message._id m = id).

(** [{ 'users.<id>': { $exists: true } }]. *)
Definition has_member (id : string) (r : Room.t) : bool :=
  bool_decide (is_Some (Room.users r !! id)).

Definition User_findOne (id : string) (w : World) : option User.t :=
  List.find (has_socketId id) (db_users w).

Definition Room_findOne (id : string) (w : World) : option Room.t :=
  List.find (has_roomId id) (db_rooms w).

(** [Message.create(payload)]: the store assigns the identifier.  The
    schema requires [sender] and [senderId]; in the payloads the handlers
    build the first is a user name or "Anonymous" and the second the
    socket id, neither of them empty, so that the check always passes. *)
Definition Message_create (now : nat) (d : Message.draft) (w : World)
    : option (Message.t * World) :=
  let m := Message.of_draft (next_id w) now d in
  Some (m, with_next_id (S (next_id w)) (with_messages (λ l, l ++ [m]) w)).

(** [Room.create(doc)]: the schema requires a non-empty [roomId] and a
    non-empty [name], and the unique index on [roomId] refuses a second
    room with an identifier that is taken. *)
Definition Room_create (now : nat) (d : Room.draft) (w : World)
    : option (Room.t * World) :=
  let r := Room.of_draft now d in
  if bool_decide (Room.d_roomId d = "" ∨ Room.d_name d = "") then None
  else
    match Room_findOne (Room.d_roomId d) w with
    | Some _ => None
    | None => Some (r, with_rooms (λ l, l ++ [r]) w)
    end.

(** [Message.findByIdAndUpdate(id, update)]: an identifier that does not
    cast to an [ObjectId] is rejected (a cast error); one that no message
    has changes nothing. *)
Definition Message_findByIdAndUpdate (id : MessageId) (f : Message.t → Message.t)
    : World → option (unit * World) :=
  match id with
  | ObjectId n => update (with_messages (update_first (has_id n) f))
  | not_an_id _ => λ _, None
  end.

(** Descending timestamps: [.sort({ timestamp: -1 })]. *)
Definition newer_first (a b : Message.t) : Prop :=
  (Message.timestamp b ≤ Message.timestamp a)%nat.

#[export] Instance newer_first_dec a b : Decision (newer_first a b).
Proof. unfold newer_first. apply _. Defined.

Definition sort_desc (l : list Message.t) : list Message.t :=
  merge_sort newer_first l.

(** ** The fragment of regular expressions written out here

    [{ $regex: q, $options: 'i' }] hands the query text to the store as a
    pattern.  A pattern made of ordinary characters and of [.] is
    interpreted below; any other metacharacter leaves the fragment and the
    pattern is interpreted by the [Engine]. *)

Module Regex.

Inductive atom : Type :=
| Lit (c : ascii)
| AnyChar.

Definition is_meta (c : ascii) : bool :=
  existsb (Ascii.eqb c) (list_ascii_of_string "\^$.[]|()?*+{}").

Fixpoint compile (q : string) : option (list atom) :=
  match q with
  | EmptyString => Some []
  | String c r =>
      if Ascii.eqb c "."
      then cons AnyChar <$> compile r
      else if is_meta c then None
      else cons (Lit c) <$> compile r
  end.

(** Option [i]: letters are compared after case folding; [.] matches any
    character but a line feed. *)
Definition atom_matches (a : atom) (c : ascii) : bool :=
  match a with
  | Lit x => Ascii.eqb (Js.lower_char x) (Js.lower_char c)
  | AnyChar => negb (Js.code c =? 10)%N
  end.

Fixpoint match_here (p : list atom) (s : string) : bool :=
  match p with
  | [] => true
  | a :: p' =>
      match s with
      | String c r => atom_matches a c && match_here p' r
      | EmptyString => false
      end
  end.

(** An unanchored pattern matches when it matches at some position. *)
Fixpoint search (p : list atom) (s : string) : bool :=
  match_here p s ||
  match s with
  | String _ r => search p r
  | EmptyString => false
  end.

End Regex.

(** ** What is left to the storage engine

    The handlers pass some arguments to the store unchecked.  What the
    store answers outside the cases written out in this file is a parameter
    of the development, and so is the one comparison that the handlers
    make on a string where they expect a number. *)

Record Engine : Type := mkEngine {
  (** [.skip(s).limit(n)] when [s] is negative, NaN or a string, or [n] is
      negative, NaN or a string; [None]: the query is rejected. *)
  page_outside : Js.Value → Js.Value → list Message.t → option (list Message.t);
  (** A pattern outside the fragment of [Regex]; [None]: the pattern is
      rejected. *)
  regex_outside : string → option (string → bool);
  (** Whether [$set] of an undefined value stores the key (with no value)
      or is dropped from the update. *)
  set_undefined_as_null : bool;
  (** [offset + limit < n] when [offset] or [limit] is a string: [+] then
      joins the two texts and [<] reads the result as a number. *)
  sum_lt_outside : Js.Value → Js.Value → nat → bool
}.

(** ** Inbound events and HTTP responses *)

Inductive Inbound : Type :=
| user_join (username : string)
| send_message (message : string) (room : option string)
| create_room (roomName : string)
| join_room (roomId : string)
| typing (isTyping : bool)
| private_message (to message : string)
| add_reaction (messageId : MessageId) (reaction : string)
| message_read (messageId : MessageId)
| share_file (name url type : string) (room : option string)
| load_messages (offset limit : option Js.Value) (roomId : option string)
| search_messages (query : string) (roomId : option string)
| disconnect.

Inductive Response : Type :=
| json_messages (messages : list Message.t) (hasMore : bool) (total : nat)
| json_search (messages : list Message.t) (query : string)
| json_error (status : nat) (error : string).

(** The room identifier [create_room] derives from a room name. *)
Definition roomIdOf (roomName : string) : string :=
  Js.replace_whitespace (Js.toLowerCase roomName).

(** The coercion of [GET /api/messages]: [parseInt] of the query
    parameter, the default when the parameter is absent. *)
Definition coerce_param (dflt : Z) (q : option string) : Js.JNum :=
  match q with
  | None => Js.Int dflt
  | Some s => Js.parseInt s
  end.

Definition page_args (offset limit : option string) : Js.JNum * Js.JNum :=
  (coerce_param 0 offset, coerce_param 50 limit).

Definition online (w : World) : list User.t :=
  List.filter User.isOnline (db_users w).

Definition in_room (roomId : string) (m : Message.t) : bool :=
  bool_decide (Message.room m = roomId).

(** [roomId ? { room: roomId } : {}]. *)
Definition room_query (roomId : string) (m : Message.t) : bool :=
  if Js.truthy (Some roomId) then in_room roomId m else true.

(** The filter of both search paths: the pattern on [message] or on
    [sender], and the room when one is given. *)
Definition search_filter (rx : string → bool) (room : option string)
    (m : Message.t) : bool :=
  (rx (Message.message m) || rx (Message.sender m))
  && (if Js.truthy room then in_room (default "" room) m else true).

Definition set_currentRoom (roomId : string) (u : User.t) : User.t :=
  {| User.socketId := User.socketId u; User.username := User.username u;
     User.currentRoom := roomId; User.isOnline := User.isOnline u;
     User.lastSeen := User.lastSeen u; User.unreadCount := User.unreadCount u;
     User.createdAt := User.createdAt u |}.

Definition set_offline (now : nat) (u : User.t) : User.t :=
  {| User.socketId := User.socketId u; User.username := User.username u;
     User.currentRoom := User.currentRoom u; User.isOnline := false;
     User.lastSeen := now; User.unreadCount := User.unreadCount u;
     User.createdAt := User.createdAt u |}.

(** [User.findOneAndUpdate({ socketId }, {...}, { upsert: true, new: true })]
    of [user_join].  An update runs no schema validation, so that any user
    name is accepted. *)
Definition User_upsert (id username : string) (now : nat) (w : World)
    : option (User.t * World) :=
  match User_findOne id w with
  | Some u =>
      let u' := User.mk id username "general" true now
                  (User.unreadCount u) (User.createdAt u) in
      Some (u', with_users (update_first (has_socketId id) (λ _, u')) w)
  | None =>
      let u' := User.mk id username "general" true now 0 now in
      Some (u', with_users (λ l, l ++ [u']) w)
  end.

(** [User.findOneAndUpdate({ socketId }, { isOnline: false, lastSeen })]:
    the document as it was before the update is returned. *)
Definition User_set_offline (id : string) (now : nat) (w : World)
    : option (option User.t * World) :=
  Some (User_findOne id w,
        with_users (update_first (has_socketId id) (set_offline now)) w).

Definition socket_join (id room : string) : Handler unit :=
  local (with_subscriptions (λ s, {[ (id, room) ]} ∪ s)).

Definition socket_leave (id room : string) : Handler unit :=
  local (with_subscriptions (λ s, s ∖ {[ (id, room) ]})).

Definition dquote : string := String (ascii_of_nat 34) EmptyString.

Definition gets {A} (f : World → A) : Handler A := λ p w, (Done (f w), p, w).

Section Server.

Context (engine : Engine).

Definition regex_i (q : string) : option (string → bool) :=
  match Regex.compile q with
  | Some p => Some (Regex.search p)
  | None => regex_outside engine q
  end.

(** [.skip(skip).limit(limit)] on a sorted result. *)
Definition page_window (skip limit : Js.Value) (l : list Message.t)
    : option (list Message.t) :=
  match skip, limit with
  | Js.Num (Js.Int s), Js.Num (Js.Int n) =>
      if ((0 <=? s) && (1 <=? n))%Z
      then Some (take (Z.to_nat n) (drop (Z.to_nat s) l))
      else if ((0 <=? s) && (n =? 0))%Z
      then Some (drop (Z.to_nat s) l)        (* [.limit(0)]: no limit *)
      else page_outside engine skip limit l
  | _, _ => page_outside engine skip limit l
  end.

(** [offset + limit < n], as [load_messages] computes [hasMore]. *)
Definition sum_lt (offset limit : Js.Value) (n : nat) : bool :=
  match offset, limit with
  | Js.Num a, Js.Num b => Js.lt (Js.add a b) (Js.Int (Z.of_nat n))
  | _, _ => sum_lt_outside engine offset limit n
  end.

(** [Message.find(query).sort({ timestamp: -1 }).skip(skip).limit(limit)]. *)
Definition Message_find_page (P : Message.t → bool) (skip limit : Js.Value)
    (w : World) : option (list Message.t * World) :=
  match page_window skip limit (sort_desc (List.filter P (db_messages w))) with
  | Some l => Some (l, w)
  | None => None
  end.

Definition Message_countDocuments (P : Message.t → bool) (w : World) : nat :=
  length (List.filter P (db_messages w)).

(** [Message.find(searchFilter).sort({ timestamp: -1 }).limit(50)]. *)
Definition Message_search (q : string) (room : option string) (w : World)
    : option (list Message.t * World) :=
  match regex_i q with
  | Some rx =>
      Some (take 50 (sort_desc (List.filter (search_filter rx room) (db_messages w))), w)
  | None => None
  end.

(** [{ $set: { users.<id>: username } }] on a room. *)
Definition set_member (id : string) (username : option string)
    (r : Room.t) : Room.t :=
  match username with
  | Some n => Room.set_users (<[id := Some n]>) r
  | None =>
      if set_undefined_as_null engine
      then Room.set_users (<[id := None]>) r
      else r
  end.

Variable sid : string.   (* socket.id of the connection the handler belongs to *)
Variable now : nat.      (* the clock, read by [new Date()] *)

Definition on_user_join (username : string) : Handler unit :=
  try_catch
    (user ← await (User_upsert sid username now);
     socket_join sid "general";;
     await (update (with_rooms
       (update_first (has_roomId "general") (set_member sid (Some username)))));;
     onlineUsers ← await (query online);
     rooms ← await (query db_rooms);
     emit IoEmit (user_list onlineUsers);;
     emit IoEmit (user_joined username sid);;
     emit (SocketEmit sid) (room_list rooms);;
     console_log (joined_the_chat username))
    (console_error "Error in user_join:";;
     emit (SocketEmit sid) (error "Failed to join chat")).

Definition sender_name (user : option User.t) : string :=
  Js.or_else (User.username <$> user) "Anonymous".

Definition on_send_message (message : string) (room : option string)
    : Handler unit :=
  try_catch
    (user ← await (query (User_findOne sid));
     let messagePayload :=
       Message.mkDraft (sender_name user) sid (Some message)
         (Some (Js.or_else room "general")) None None None None None None
         (Some true) (Some now) in
     savedMessage ← await (Message_create now messagePayload);
     await (update (with_rooms
       (update_first (has_roomId (Js.or_else room "general"))
          Room.inc_messageCount)));;
     (if Js.truthy room then
        let r := default "" room in
        emit (IoTo r) (receive_message savedMessage);;
        roomUsers ← await (query (λ w,
          List.filter (λ u, bool_decide (User.currentRoom u = r)
                            && negb (has_socketId sid u)) (db_users w)));
        for_each roomUsers (λ user,
          emit (IoTo (User.socketId user))
            (new_message_notification
               (Message.sender savedMessage +:+ ": " +:+ Message.message savedMessage)
               (Message.sender savedMessage) (Some r) false false))
      else emit IoEmit (receive_message savedMessage));;
     emit (SocketEmit sid) (message_delivered (Message._id savedMessage)))
    (console_error "Error sending message:";;
     emit (SocketEmit sid) (error "Failed to send message")).

Definition on_create_room (roomName : string) : Handler unit :=
  try_catch
    (let roomId := roomIdOf roomName in
     existingRoom ← await (query (Room_findOne roomId));
     match existingRoom with
     | None =>
         newRoom ← await (Room_create now (Room.mkDraft roomId roomName (Some sid)));
         allRooms ← await (query db_rooms);
         emit IoEmit (room_list allRooms);;
         emit IoEmit (notification "room_created"
                        ("New room created: " +:+ roomName) (Some roomId));;
         console_log (room_created roomName)
     | Some _ => mret tt
     end)
    (console_error "Error creating room:";;
     emit (SocketEmit sid) (error "Failed to create room")).

Definition on_join_room (roomId : string) : Handler unit :=
  try_catch
    (userRooms ← await (query (λ w, List.filter (has_member sid) (db_rooms w)));
     for_each userRooms (λ room,
       socket_leave sid (Room.roomId room);;
       await (update (with_rooms
         (update_first (has_roomId (Room.roomId room))
            (Room.set_users (delete sid))))));;
     await (update (with_users
       (update_first (has_socketId sid) (set_currentRoom roomId))));;
     socket_join sid roomId;;
     room ← await (query (Room_findOne roomId));
     match room with
     | Some room =>
         user ← await (query (User_findOne sid));
         await (update (with_rooms
           (update_first (has_roomId roomId)
              (set_member sid (User.username <$> user)))));;
         emit (SocketEmit sid) (room_joined roomId (Room.name room));;
         emit (IoTo roomId) (notification "user_joined_room"
                               "User joined the room" (Some roomId));;
         console_log (joined_room sid roomId)
     | None => mret tt
     end)
    (console_error "Error joining room:";;
     emit (SocketEmit sid) (error "Failed to join room")).

Definition on_typing (isTyping : bool) : Handler unit :=
  try_catch
    (user ← await (query (User_findOne sid));
     match user with
     | Some user =>
         (if isTyping
          then local (with_typing (Js.dict_set sid (User.username user)))
          else local (with_typing (Js.dict_delete sid)));;
         names ← gets (λ w, Js.Object_values (typingUsers w));
         emit IoEmit (typing_users names)
     | None => mret tt
     end)
    (console_error "Error in typing handler:").

Definition on_private_message (to message : string) : Handler unit :=
  try_catch
    (senderUser ← await (query (User_findOne sid));
     let messageData :=
       Message.mkDraft (sender_name senderUser) sid (Some message) None
         None None None None (Some true) (Some to) (Some true) (Some now) in
     savedMessage ← await (Message_create now messageData);
     emit (IoTo to) (private_message_event savedMessage);;
     emit (SocketEmit sid) (private_message_event savedMessage);;
     emit (IoTo to)
       (new_message_notification
          ("Private message from " +:+ sender_name senderUser +:+ ": " +:+ message)
          (sender_name senderUser) None true false);;
     emit (SocketEmit sid) (message_delivered (Message._id savedMessage)))
    (console_error "Error sending private message:";;
     emit (SocketEmit sid) (error "Failed to send private message")).

Definition on_add_reaction (messageId : MessageId) (reaction : string)
    : Handler unit :=
  try_catch
    (await (Message_findByIdAndUpdate messageId
              (Message.set_reaction sid reaction));;
     emit IoEmit (reaction_added messageId reaction sid))
    (console_error "Error adding reaction:").

Definition on_message_read (messageId : MessageId) : Handler unit :=
  try_catch
    (await (Message_findByIdAndUpdate messageId Message.set_read);;
     emit (BroadcastEmit sid) (message_read_receipt messageId sid))
    (console_error "Error marking message as read:").

Definition on_share_file (name url type : string) (room : option string)
    : Handler unit :=
  try_catch
    (user ← await (query (User_findOne sid));
     let messagePayload :=
       Message.mkDraft (sender_name user) sid None
         (Some (Js.or_else room "general")) (Some name) (Some url) (Some type)
         (Some true) None None (Some true) (Some now) in
     savedMessage ← await (Message_create now messagePayload);
     emit IoEmit (receive_message savedMessage);;
     userIds ← gets (λ w, Js.Object_keys (io_sockets w));
     for_each userIds (λ userId,
       if bool_decide (userId ≠ sid)
       then emit (IoTo userId)
              (new_message_notification
                 (sender_name user +:+ " shared a file: " +:+ name)
                 (sender_name user) None false true)
       else mret tt);;
     emit (SocketEmit sid) (message_delivered (Message._id savedMessage)))
    (console_error "Error sharing file:";;
     emit (SocketEmit sid) (error "Failed to share file")).

Definition on_load_messages (offset limit : option Js.Value)
    (roomId : option string) : Handler unit :=
  let offset := default (Js.of_nat 0) offset in
  let limit := default (Js.of_nat 50) limit in
  let roomId := default "general" roomId in
  try_catch
    (messages ← await (Message_find_page (room_query roomId) offset limit);
     totalCount ← await (query (Message_countDocuments (room_query roomId)));
     emit (SocketEmit sid)
       (messages_loaded (reverse messages) (sum_lt offset limit totalCount)))
    (console_error "Error loading messages:";;
     emit (SocketEmit sid) (error "Failed to load messages")).

Definition on_search_messages (query_text : string) (roomId : option string)
    : Handler unit :=
  try_catch
    (searchResults ← await (Message_search query_text roomId);
     emit (SocketEmit sid) (search_results searchResults query_text))
    (console_error "Error searching messages:";;
     emit (SocketEmit sid) (error "Failed to search messages")).

Definition on_disconnect : Handler unit :=
  try_catch
    (user ← await (User_set_offline sid now);
     match user with
     | Some user =>
         console_log (left_the_chat (User.username user));;
         await (update (with_rooms
           (update_many (has_member sid) (Room.set_users (delete sid)))));;
         emit IoEmit (user_left (User.username user) sid);;
         emit IoEmit (notification "user_left"
                        (User.username user +:+ " left the chat") None)
     | None => mret tt
     end;;
     local (with_typing (Js.dict_delete sid));;
     onlineUsers ← await (query online);
     emit IoEmit (user_list onlineUsers);;
     names ← gets (λ w, Js.Object_values (typingUsers w));
     emit IoEmit (typing_users names))
    (console_error "Error in disconnect handler:").

(** [GET /api/messages]. *)
Definition api_messages (offset limit room : option string) : Handler Response :=
  try_catch
    (let '(skip, take_) := page_args offset limit in
     let room := default "general" room in
     messages ← await (Message_find_page (in_room room)
                         (Js.Num skip) (Js.Num take_));
     totalCount ← await (query (Message_countDocuments (in_room room)));
     mret (json_messages (reverse messages)
             (Js.lt (Js.add skip take_) (Js.Int (Z.of_nat totalCount)))
             totalCount))
    (console_error "Error fetching messages:";;
     mret (json_error 500 "Failed to fetch messages")).

(** [GET /api/search]. *)
Definition api_search (q room : option string) : Handler Response :=
  try_catch
    (if negb (Js.truthy q)
     then mret (json_error 400
                  ("Query parameter " +:+ dquote +:+ "q" +:+ dquote +:+ " is required"))
     else
       searchResults ← await (Message_search (default "" q) room);
       mret (json_search searchResults (default "" q)))
    (console_error "Error searching messages:";;
     mret (json_error 500 "Failed to search messages")).

(** The handler registered for each inbound event. *)
Definition handler (e : Inbound) : Handler unit :=
  match e with
  | user_join username => on_user_join username
  | send_message message room => on_send_message message room
  | create_room roomName => on_create_room roomName
  | join_room roomId => on_join_room roomId
  | typing isTyping => on_typing isTyping
  | private_message to message => on_private_message to message
  | add_reaction messageId reaction => on_add_reaction messageId reaction
  | message_read messageId => on_message_read messageId
  | share_file name url type room => on_share_file name url type room
  | load_messages offset limit roomId => on_load_messages offset limit roomId
  | search_messages q roomId => on_search_messages q roomId
  | disconnect => on_disconnect
  end.

(** One event handled to completion: [fault] names the store call that is
    rejected, if any. *)
Definition handle (e : Inbound) (fault : option nat) (w : World) : World :=
  (handler e fault w).2.

(** [initializeRooms], run once at start-up. *)
Definition initializeRooms : Handler unit :=
  try_catch
    (for_each [Room.mkDraft "general" "General" None;
               Room.mkDraft "random" "Random" None]
       (λ roomData,
          existingRoom ← await (query (Room_findOne (Room.d_roomId roomData)));
          match existingRoom with
          | None =>
              await (Room_create now roomData);;
              console_log (default_room_created (Room.d_name roomData))
          | Some _ => mret tt
          end))
    (console_error "Error initializing rooms:").

End Server.

(** ** Definitions used to state the properties *)

(** The unique index on [roomId] (models/Room.js). *)
Definition unique_roomIds (w : World) : Prop :=
  NoDup (map Room.roomId (db_rooms w)).

(** The rooms after the connection left each room of [left], one
    [findOneAndUpdate] per room as in the loop of [join_room]. *)
Definition leave_rooms (sid : string) (left : list Room.t) (rs : list Room.t)
    : list Room.t :=
  fold_left
    (λ acc room,
       update_first (has_roomId (Room.roomId room))
         (Room.set_users (delete sid)) acc)
    left rs.

Definition leave_subscriptions (sid : string) (left : list Room.t)
    (s : gset (string * string)) : gset (string * string) :=
  fold_left (λ acc room, acc ∖ {[ (sid, Room.roomId room) ]}) left s.

(** [respects R m]: whatever store call is rejected, [m] takes a world to
    one related to it by [R], whether it returns or throws. *)
Definition respects {A} (R : relation World) (m : Handler A) : Prop :=
  ∀ p w, R w (m p w).2.

(** A store operation leaves what the process wrote (events, log) alone. *)
Definition same_io (w w' : World) : Prop :=
  console w' = console w ∧ outbox w' = outbox w.

Definition same_console (w w' : World) : Prop := console w' = console w.

(** The relations the steps of a handler are shown to respect: preorders
    that hold across anything that leaves events and log alone. *)
Class Frame (R : relation World) : Prop := {
  frame_preorder :: PreOrder R;
  frame_io : ∀ w w', same_io w w' → R w w'
}.

(** Events were added, none of them an [error] event. *)
Definition no_error_emitted (w w' : World) : Prop :=
  ∃ evs, outbox w' = outbox w ++ evs ∧ Forall (λ e, is_error e = false) evs.

(** The message of the [error] event in the [catch] block of each handler;
    [None] for a handler whose [catch] block only logs. *)
Definition failure_message (e : Inbound) : option string :=
  match e with
  | user_join _ => Some "Failed to join chat"
  | send_message _ _ => Some "Failed to send message"
  | create_room _ => Some "Failed to create room"
  | join_room _ => Some "Failed to join room"
  | private_message _ _ => Some "Failed to send private message"
  | share_file _ _ _ _ => Some "Failed to share file"
  | load_messages _ _ _ => Some "Failed to load messages"
  | search_messages _ _ => Some "Failed to search messages"
  | typing _ | add_reaction _ _ | message_read _ | disconnect => None
  end.

(** The line each handler writes with [console.error] in its [catch]
    block. *)
Definition failure_line (e : Inbound) : string :=
  match e with
  | user_join _ => "Error in user_join:"
  | send_message _ _ => "Error sending message:"
  | create_room _ => "Error creating room:"
  | join_room _ => "Error joining room:"
  | typing _ => "Error in typing handler:"
  | private_message _ _ => "Error sending private message:"
  | add_reaction _ _ => "Error adding reaction:"
  | message_read _ => "Error marking message as read:"
  | share_file _ _ _ _ => "Error sharing file:"
  | load_messages _ _ _ => "Error loading messages:"
  | search_messages _ _ => "Error searching messages:"
  | disconnect => "Error in disconnect handler:"
  end.

(** A [catch] block: it logs, and reports when there is a message. *)
Definition rescue (sid line : string) (msg : option string) : Handler unit :=
  match msg with
  | Some m => console_error line;; emit (SocketEmit sid) (error m)
  | None => console_error line
  end.

(** A rejection that is still to come when [m] returns has not been used
    up: [pending] is [None] after a run that started with [Some k] only if
    the store call that [k] names was reached, and rejected. *)
Definition fault_kept {A} (m : Handler A) : Prop :=
  ∀ k w a p' w', m (Some k) w = (Done a, p', w') → is_Some p'.

(** [messageCount] agrees with the stored messages of each room. *)
Definition count_consistent (w : World) : Prop :=
  ∀ r, r ∈ db_rooms w →
    Room.messageCount r
    = length (List.filter (in_room (Room.roomId r)) (db_messages w)).

(** The document [send_message] stores. *)
Definition sent_message (sid : string) (now : nat) (w : World)
    (message : string) (room : option string) : Message.t :=
  Message.of_draft (next_id w) now
    (Message.mkDraft (sender_name (User_findOne sid w)) sid (Some message)
       (Some (Js.or_else room "general")) None None None None None None
       (Some true) (Some now)).

(** The document [share_file] stores. *)
Definition shared_file (sid : string) (now : nat) (w : World)
    (name url type : string) (room : option string) : Message.t :=
  Message.of_draft (next_id w) now
    (Message.mkDraft (sender_name (User_findOne sid w)) sid None
       (Some (Js.or_else room "general")) (Some name) (Some url) (Some type)
       (Some true) None None (Some true) (Some now)).

(** The file-share notices sent when the loop of [share_file] runs over
    [ids]. *)
Definition file_notices (sid sender name : string) (ids : list string)
    : list Emit :=
  flat_map
    (λ userId,
       if bool_decide (userId ≠ sid)
       then [mkEmit (IoTo userId)
               (new_message_notification (sender +:+ " shared a file: " +:+ name)
                  sender None false true)]
       else [])
    ids.

Definition is_notification (e : Emit) : bool :=
  match payload e with
  | new_message_notification _ _ _ _ _ => true
  | _ => false
  end.

(** The messages of a room, and the page of them that the specification
    describes: newest first, [offset] skipped, at most [limit] kept, then
    put back in chronological order. *)
Definition room_messages (roomId : string) (w : World) : list Message.t :=
  List.filter (in_room roomId) (db_messages w).

Definition page (roomId : string) (offset limit : nat) (w : World)
    : list Message.t :=
  reverse (take limit (drop offset (sort_desc (room_messages roomId w)))).

Definition hasMore (roomId : string) (offset limit : nat) (w : World) : bool :=
  bool_decide (offset + limit < length (room_messages roomId w)).

Definition chronological (a b : Message.t) : Prop :=
  (Message.timestamp a ≤ Message.timestamp b)%nat.

(** The derived room identifier in the words of the specification: the
    name lower-cased, each maximal run of white space replaced by one
    separator. *)
Fixpoint all_space (s : string) : bool :=
  match s with
  | EmptyString => true
  | String c r => Js.is_space c && all_space r
  end.

Definition starts_with_space (s : string) : bool :=
  match s with
  | String c _ => Js.is_space c
  | EmptyString => false
  end.

Fixpoint leading_space (s : string) : string :=
  match s with
  | String c r => if Js.is_space c then String c (leading_space r) else EmptyString
  | EmptyString => EmptyString
  end.

Inductive slug_of : string → string → Prop :=
| slug_end : slug_of "" ""
| slug_char c s t :
    Js.is_space c = false →
    slug_of s t →
    slug_of (String c s) (String (Js.lower_char c) t)
| slug_run run s t :
    run ≠ "" →
    all_space run = true →
    starts_with_space s = false →
    slug_of s t →
    slug_of (run +:+ s) (String "-" t).

(** Search, in the words of the specification: [q] occurs in [s] as a
    substring once both are lower-cased. *)
Definition contains_ci (q s : string) : Prop :=
  ∃ pre post, Js.toLowerCase s = pre +:+ Js.toLowerCase q +:+ post.

(** A query text in which no character is a metacharacter of patterns. *)
Fixpoint literal (q : string) : bool :=
  match q with
  | EmptyString => true
  | String c r => negb (Regex.is_meta c) && literal r
  end.

Fixpoint literals (q : string) : list Regex.atom :=
  match q with
  | EmptyString => []
  | String c r => Regex.Lit c :: literals r
  end.

(** What the specification lets a search for [q] return from a message. *)
Definition wanted (q : string) (roomId : option string) (m : Message.t) : Prop :=
  (contains_ci q (Message.message m) ∨ contains_ci q (Message.sender m))
  ∧ (Js.truthy roomId = true → Message.room m = default "" roomId).





(** The document [private_message] stores. *)
Definition private_note (sid : string) (now : nat) (w : World)
    (to message : string) : Message.t :=
  Message.of_draft (next_id w) now
    (Message.mkDraft (sender_name (User_findOne sid w)) sid (Some message) None
       None None None None (Some true) (Some to) (Some true) (Some now)).

(** A search that is not restricted to a room other than "general". *)
Definition reaches_general (roomId : option string) : Prop :=
  Js.truthy roomId = false ∨ roomId = Some "general".

(** Worlds on which the statements are evaluated. *)
Module Sample.

Definition engine : Engine :=
  mkEngine (λ _ _ _, None) (λ _, None) true (λ _ _ _, false).

Definition empty : World :=
  mkWorld [] [] [] 0 []
    (Js.mkJsMap [("s1", tt); ("s2", tt)] []) ∅ [] [] [].

(** After start-up. *)
Definition started : World := (initializeRooms 0 None empty).2.

(** [s1] and [s2] have joined as alice and bob. *)
Definition joined : World :=
  handle engine "s2" 2 (user_join "bob") None
    (handle engine "s1" 1 (user_join "alice") None started).

(** A hundred and twenty messages in "general", one per tick. *)
Definition busy : World :=
  with_next_id 120
    (with_messages
       (λ _, map (λ i, Message.mk i "alice" "s1" "hi" "general" None None None
                         false false None true false ∅ i) (seq 0 120))
       joined).

(** Three messages, the last one in another room. *)
Definition chatty : World :=
  with_next_id 3
    (with_messages
       (λ _, [Message.mk 0 "alice" "s1" "Hello there" "general" None None None
                false false None true false ∅ 1;
              Message.mk 1 "Hello123" "s3" "good morning" "general" None None None
                false false None true false ∅ 2;
              Message.mk 2 "bob" "s2" "ok" "random" None None None
                false false None true false ∅ 3])
       joined).

End Sample.

(** ** The listing routes *)

Inductive Listing : Type :=
| json_users (users : list User.t)
| json_rooms (rooms : list Room.t)
| json_listing_error (status : nat) (error : string).

(** [GET /api/users]. *)
Definition api_users : Handler Listing :=
  try_catch
    (users ← await (query online);
     mret (json_users users))
    (console_error "Error fetching users:";;
     mret (json_listing_error 500 "Failed to fetch users")).

(** [GET /api/rooms]. *)
Definition api_rooms : Handler Listing :=
  try_catch
    (rooms ← await (query db_rooms);
     mret (json_rooms rooms))
    (console_error "Error fetching rooms:";;
     mret (json_listing_error 500 "Failed to fetch rooms")).

(** ** Definitions used to state the further properties *)

(** [grows E l l']: every element of [l] is still there, in place, changed
    at most as [E] allows; new elements come after them. *)
Definition grows {A} (E : relation A) (l l' : list A) : Prop :=
  ∃ kept extra, l' = kept ++ extra ∧ Forall2 E l kept.

(** What a stored message keeps for ever: everything but [reactions], and
    [read] once it is set. *)
Definition same_core (m m' : Message.t) : Prop :=
  Message._id m' = Message._id m
  ∧ Message.sender m' = Message.sender m
  ∧ Message.senderId m' = Message.senderId m
  ∧ Message.message m' = Message.message m
  ∧ Message.room m' = Message.room m
  ∧ Message.fileName m' = Message.fileName m
  ∧ Message.fileUrl m' = Message.fileUrl m
  ∧ Message.fileType m' = Message.fileType m
  ∧ Message.isFile m' = Message.isFile m
  ∧ Message.isPrivate m' = Message.isPrivate m
  ∧ Message.recipient m' = Message.recipient m
  ∧ Message.delivered m' = Message.delivered m
  ∧ Message.timestamp m' = Message.timestamp m
  ∧ (Message.read m = true → Message.read m' = true).

(** What a room keeps: everything but its members, and a counter that does
    not go down. *)
Definition room_evolves (r r' : Room.t) : Prop :=
  Room.roomId r' = Room.roomId r
  ∧ Room.name r' = Room.name r
  ∧ Room.description r' = Room.description r
  ∧ Room.isPrivate r' = Room.isPrivate r
  ∧ Room.createdBy r' = Room.createdBy r
  ∧ Room.createdAt r' = Room.createdAt r
  ∧ Room.messageCount r ≤ Room.messageCount r'.

Definition user_evolves (u u' : User.t) : Prop :=
  User.socketId u' = User.socketId u.

Definition same_db (w w' : World) : Prop :=
  db_users w' = db_users w
  ∧ db_rooms w' = db_rooms w
  ∧ db_messages w' = db_messages w.

(** Nothing stored is ever deleted or rewritten beyond the above. *)
Definition history_kept (w w' : World) : Prop :=
  grows user_evolves (db_users w) (db_users w')
  ∧ grows room_evolves (db_rooms w) (db_rooms w')
  ∧ grows same_core (db_messages w) (db_messages w').

(** The unique index on [socketId] (models/User.js). *)
Definition unique_socketIds (w : World) : Prop :=
  NoDup (map User.socketId (db_users w)).

Definition unique_users_kept (w w' : World) : Prop :=
  unique_socketIds w → unique_socketIds w'.

Definition unique_rooms_kept (w w' : World) : Prop :=
  unique_roomIds w → unique_roomIds w'.

(** The steps a handler is made of.  Each call into the store is one
    step, atomic in the store: the upsert of a user by [socketId], the
    insert of a room that the store accepts, an update of users or of
    rooms that leaves their keys alone; every other step, in the store or
    on the state of the process, leaves users and rooms as they are.
    Handlers that overlap at their [await]s interleave such steps. *)
Inductive atomic_step : World → World → Prop :=
| step_user_upsert id username now w u w' :
    User_upsert id username now w = Some (u, w') → atomic_step w w'
| step_user_update id f w :
    (∀ u, User.socketId (f u) = User.socketId u) →
    atomic_step w (with_users (update_first (has_socketId id) f) w)
| step_room_create now d w r w' :
    Room_create now d w = Some (r, w') → atomic_step w w'
| step_room_update P f w :
    (∀ r, Room.roomId (f r) = Room.roomId r) →
    atomic_step w (with_rooms (update_first P f) w)
| step_room_update_many P f w :
    (∀ r, Room.roomId (f r) = Room.roomId r) →
    atomic_step w (with_rooms (update_many P f) w)
| step_elsewhere w w' :
    db_users w' = db_users w → db_rooms w' = db_rooms w → atomic_step w w'.

(** One event as the server receives it: the connection, the clock, the
    event, and the store call that is rejected while it is handled. *)
Definition Invocation : Type := string * nat * Inbound * option nat.

(** A sequence of events handled one after the other, each to completion.
    What is shown of [run] below is shown step by step: of every store
    call and every local step of a handler, from any state. *)
Definition run (engine : Engine) (trace : list Invocation) (w : World) : World :=
  fold_left (λ w '(sid, now, e, p), handle engine sid now e p w) trace w.

(** Events were added, each of them satisfying [P]. *)
Definition emits_only (P : Emit → Prop) (w w' : World) : Prop :=
  ∃ evs, outbox w' = outbox w ++ evs ∧ Forall P evs.

(** An [error] event is addressed to the connection [sid] itself. *)
Definition error_to_self (sid : string) (e : Emit) : Prop :=
  is_error e = true → target e = SocketEmit sid.

(** An event addressed to the label [to] or to the connection [sid]. *)
Definition to_pair (sid to : string) (e : Emit) : Prop :=
  target e = IoTo to ∨ target e = SocketEmit sid.

(** Who receives an event.  Every connection is in the room named by its
    own id from the start; [socket.join] puts it into further rooms. *)
Definition receives (w : World) (c : string) (e : Emit) : Prop :=
  match target e with
  | SocketEmit id => c = id
  | IoEmit => True
  | IoTo label => c = label ∨ (c, label) ∈ subscriptions w
  | BroadcastEmit id => c ≠ id
  end.

Definition same_subscriptions (w w' : World) : Prop :=
  subscriptions w' = subscriptions w.

Definition subscription_kept (c label : string) (w w' : World) : Prop :=
  (c, label) ∈ subscriptions w → (c, label) ∈ subscriptions w'.

(** Nothing but events and log differs. *)
Definition store_untouched (w w' : World) : Prop :=
  db_users w' = db_users w
  ∧ db_rooms w' = db_rooms w
  ∧ db_messages w' = db_messages w
  ∧ next_id w' = next_id w
  ∧ typingUsers w' = typingUsers w
  ∧ io_sockets w' = io_sockets w
  ∧ subscriptions w' = subscriptions w.

(** The user record [user_join] writes. *)
Definition bound_user (sid username : string) (now : nat) (w : World) : User.t :=
  match User_findOne sid w with
  | Some u => User.mk sid username "general" true now
                (User.unreadCount u) (User.createdAt u)
  | None => User.mk sid username "general" true now 0 now
  end.

(** The notices [send_message] sends for a message to the room [r]: one to
    every user record whose [currentRoom] is [r], the sender's excepted. *)
Definition room_notices (sid : string) (m : Message.t) (r : string)
    (us : list User.t) : list Emit :=
  map (λ u, mkEmit (IoTo (User.socketId u))
              (new_message_notification
                 (Message.sender m +:+ ": " +:+ Message.message m)
                 (Message.sender m) (Some r) false false))
    (List.filter (λ u, bool_decide (User.currentRoom u = r)
                       && negb (has_socketId sid u)) us).

(** The identifiers of the stored messages are distinct and below the
    next identifier that the store hands out. *)
Definition ids_fresh (w : World) : Prop :=
  NoDup (map Message._id (db_messages w))
  ∧ Forall (λ i, i < next_id w) (map Message._id (db_messages w)).

Definition ids_kept (w w' : World) : Prop := ids_fresh w → ids_fresh w'.

(** The world after [initializeRooms] has looked at one default room: the
    room is created, and the creation logged, when it was not there. *)
Definition ensured (now : nat) (d : Room.draft) (w : World) : World :=
  match Room_findOne (Room.d_roomId d) w with
  | Some _ => w
  | None =>
      with_stdout (λ l, l ++ [default_room_created (Room.d_name d)])
        (with_rooms (λ l, l ++ [Room.of_draft now d]) w)
  end.

(** A room as start-up creates it. *)
Definition is_default_room (r : Room.t) : Prop :=
  Room.users r = ∅ ∧ Room.messageCount r = 0 ∧ Room.createdBy r = "system"
  ∧ (Room.roomId r = "general" ∨ Room.roomId r = "random").

(** A string that [roomIdOf] leaves as it is: no white space, no
    upper-case letter. *)
Fixpoint is_slug (s : string) : bool :=
  match s with
  | EmptyString => true
  | String c r => negb (Js.is_space c) && negb (Js.is_upper c) && is_slug r
  end.

(** The body of the 400 response of [GET /api/search]. *)
Definition query_required : Response :=
  json_error 400
    ("Query parameter " +:+ dquote +:+ "q" +:+ dquote +:+ " is required").

(** A session on which the further properties are evaluated: reactions,
    a message, a read receipt, a change of room, a room creation that the
    store rejects, and a disconnection. *)
Module Scenario.

Definition session : list Invocation :=
  [("s1", 5, add_reaction (ObjectId 0) "+1", None);
   ("s2", 6, send_message "hi" (Some "general"), None);
   ("s2", 7, message_read (ObjectId 0), None);
   ("s1", 8, join_room "random", None);
   ("s3", 9, create_room "Study Group", Some 0);
   ("s1", 10, disconnect, None)].

End Scenario.

(** * Properties *)

(** ** Stepping through a handler *)

Lemma bind_done {A B} (m : Handler A) (k : A → Handler B) p w a p' w' :
  m p w = (Done a, p', w') → (m ≫= k) p w = k a p' w'.
Proof. intros H. unfold mbind, Handler_bind, bind. by rewrite H. Qed.

Lemma bind_thrown {A B} (m : Handler A) (k : A → Handler B) p w p' w' :
  m p w = (Thrown, p', w') → (m ≫= k) p w = (Thrown, p', w').
Proof. intros H. unfold mbind, Handler_bind, bind. by rewrite H. Qed.

Lemma try_catch_done {A} (body h : Handler A) p w a p' w' :
  body p w = (Done a, p', w') → try_catch body h p w = (Done a, p', w').
Proof. intros H. unfold try_catch. by rewrite H. Qed.

Lemma try_catch_thrown {A} (body h : Handler A) p w p' w' :
  body p w = (Thrown, p', w') → try_catch body h p w = h p' w'.
Proof. intros H. unfold try_catch. by rewrite H. Qed.

Lemma await_no_fault {A} (op : World → option (A * World)) w a w' :
  op w = Some (a, w') → await op None w = (Done a, None, w').
Proof. intros H. unfold await. by rewrite H. Qed.

Lemma await_first_fault {A} (op : World → option (A * World)) w :
  await op (Some 0) w = (Thrown, None, w).
Proof. reflexivity. Qed.

(** Unfolds the monad down to [match]es on the store. *)
Ltac run_handler :=
  unfold try_catch, mbind, Handler_bind, bind, mret, Handler_ret, ret,
    await, query, update, emit, console_error, console_log, socket_join,
    socket_leave, local, gets; simpl.

(** ** Lists of documents *)

Lemma update_first_none {A} (P : A → bool) (f : A → A) (l : list A) :
  (∀ x, x ∈ l → P x = false) → update_first P f l = l.
Proof.
  induction l as [|x l IH]; intros H; [done|]. simpl.
  rewrite (H x) by apply list_elem_of_here.
  f_equal. apply IH. intros y Hy. apply H. by apply list_elem_of_further.
Qed.

Lemma update_first_length {A} (P : A → bool) (f : A → A) (l : list A) :
  length (update_first P f l) = length l.
Proof. induction l as [|x l IH]; simpl; [done|]. destruct (P x); simpl; congruence. Qed.

Lemma find_none {A} (P : A → bool) (l : list A) :
  List.find P l = None ↔ ∀ x, x ∈ l → P x = false.
Proof.
  induction l as [|x l IH]; simpl.
  - split; [intros _ y Hy; by apply elem_of_nil in Hy | done].
  - destruct (P x) eqn:E.
    + split; [done|]. intros H. specialize (H x (list_elem_of_here _ _)). congruence.
    + rewrite IH. split.
      * intros H y [->|Hy]%elem_of_cons; auto.
      * intros H y Hy. apply H. by apply list_elem_of_further.
Qed.

(** What an accepted [Room.create] tells: the draft passed the schema, the
    identifier was free, and the room was appended. *)
Lemma Room_create_Some now d w r w' :
  Room_create now d w = Some (r, w') →
  Room.d_roomId d ≠ "" ∧ Room.d_name d ≠ ""
  ∧ Room_findOne (Room.d_roomId d) w = None
  ∧ r = Room.of_draft now d
  ∧ w' = with_rooms (λ l, l ++ [Room.of_draft now d]) w.
Proof.
  unfold Room_create. case_bool_decide as Hreq; [done|].
  destruct (Room_findOne _ w) eqn:E; [done|]. intros [= <- <-].
  split_and!; try done; intros H; apply Hreq; auto.
Qed.

Lemma Room_create_accepts now d w :
  Room.d_roomId d ≠ "" → Room.d_name d ≠ "" →
  Room_findOne (Room.d_roomId d) w = None →
  Room_create now d w
  = Some (Room.of_draft now d, with_rooms (λ l, l ++ [Room.of_draft now d]) w).
Proof.
  intros H1 H2 H3. unfold Room_create.
  rewrite bool_decide_eq_false_2 by (intros [?|?]; done). by rewrite H3.
Qed.

Lemma Message_findByIdAndUpdate_Some id f w a w' :
  Message_findByIdAndUpdate id f w = Some (a, w') →
  ∃ n, id = ObjectId n ∧ w' = with_messages (update_first (has_id n) f) w.
Proof.
  destruct id as [n|raw]; [|done]. unfold Message_findByIdAndUpdate, update.
  intros [= _ <-]. by exists n.
Qed.

Lemma world_eta (w : World) :
  w = mkWorld (db_users w) (db_rooms w) (db_messages w) (next_id w)
        (typingUsers w) (io_sockets w) (subscriptions w) (outbox w) (console w)
        (stdout w).
Proof. by destruct w. Qed.

Section Reactions_and_membership.

Context (engine : Engine).

(** C7, as the handler behaves.  Reacting to an identifier that casts to
    an [ObjectId] and that no stored message has: the handler raises
    nothing (no console line, no event other than the broadcast), every
    stored message is as before, and the [reaction_added] broadcast with
    the message id, the reaction and the reacting connection's id goes to
    all connections.  Reacting to an identifier that does not cast: the
    store rejects the call, whichever call was to be rejected anyway; the
    handler logs the failure, broadcasts nothing, sends no [error] event,
    and every stored message is as before. *)
Theorem add_reaction_unknown_id (sid : string) (now : nat) (w : World)
    (n : nat) (raw reaction : string) (p : option nat) :
  (∀ m, m ∈ db_messages w → Message._id m ≠ n) →
  (handler engine sid now (add_reaction (ObjectId n) reaction) None w
   = (Done tt, None,
      with_outbox
        (λ o, o ++ [mkEmit IoEmit (reaction_added (ObjectId n) reaction sid)]) w)
   ∧ db_messages (handle engine sid now (add_reaction (ObjectId n) reaction) None w)
     = db_messages w
   ∧ console (handle engine sid now (add_reaction (ObjectId n) reaction) None w)
     = console w
   ∧ outbox (handle engine sid now (add_reaction (ObjectId n) reaction) None w)
     = outbox w ++ [mkEmit IoEmit (reaction_added (ObjectId n) reaction sid)])
  ∧ (handler engine sid now (add_reaction (not_an_id raw) reaction) p w).1.1 = Done tt
  ∧ handle engine sid now (add_reaction (not_an_id raw) reaction) p w
    = with_console (λ c, c ++ ["Error adding reaction:"]) w.
Proof.
  intros Hfresh.
  assert (Hid : update_first (has_id n) (Message.set_reaction sid reaction)
                  (db_messages w) = db_messages w).
  { apply update_first_none. intros m Hm. unfold has_id.
    apply bool_decide_eq_false_2. by apply Hfresh. }
  split_and!.
  - unfold handle. simpl. unfold on_add_reaction, Message_findByIdAndUpdate.
    run_handler. unfold with_messages. rewrite Hid. by destruct w.
  - unfold handle. simpl. unfold on_add_reaction, Message_findByIdAndUpdate.
    run_handler. by rewrite Hid.
  - unfold handle. simpl. unfold on_add_reaction, Message_findByIdAndUpdate.
    run_handler. done.
  - unfold handle. simpl. unfold on_add_reaction, Message_findByIdAndUpdate.
    run_handler. done.
  - cbn [handler]. unfold on_add_reaction, Message_findByIdAndUpdate.
    by destruct p as [[|k]|].
  - unfold handle. cbn [handler]. unfold on_add_reaction, Message_findByIdAndUpdate.
    by destruct p as [[|k]|].
Qed.

Lemma set_users_delete_absent sid (r : Room.t) :
  Room.users r !! sid = None → Room.set_users (delete sid) r = r.
Proof.
  intros H. destruct r as [i n d u c p b a]. unfold Room.set_users. simpl in *.
  f_equal. by apply delete_id.
Qed.

Lemma set_users_delete_twice sid (r : Room.t) :
  Room.set_users (delete sid) (Room.set_users (delete sid) r)
  = Room.set_users (delete sid) r.
Proof.
  apply set_users_delete_absent. simpl. apply lookup_delete_eq.
Qed.

Lemma update_first_unique id (f : Room.t → Room.t) (rs : list Room.t) :
  NoDup (map Room.roomId rs) →
  update_first (has_roomId id) f rs = update_many (has_roomId id) f rs.
Proof.
  induction rs as [|r rs IH]; intros Hnd; [done|].
  simpl in Hnd. apply NoDup_cons in Hnd as [Hr Hnd]. simpl.
  destruct (has_roomId id r) eqn:E.
  - f_equal. unfold update_many.
    rewrite <- (map_id rs) at 1. apply map_ext_in. intros x Hx.
    destruct (has_roomId id x) eqn:Ex; [|done].
    unfold has_roomId in *. apply bool_decide_eq_true_1 in E, Ex.
    exfalso. apply Hr. rewrite E, <- Ex. apply list_elem_of_fmap_2.
    by apply list_elem_of_In.
  - f_equal. by apply IH.
Qed.

Lemma update_many_roomIds P (f : Room.t → Room.t) (rs : list Room.t) :
  (∀ r, Room.roomId (f r) = Room.roomId r) →
  map Room.roomId (update_many P f rs) = map Room.roomId rs.
Proof.
  intros Hf. unfold update_many. rewrite map_map. apply map_ext.
  intros r. by destruct (P r).
Qed.

Lemma leave_rooms_spec sid (left rs : list Room.t) :
  NoDup (map Room.roomId rs) →
  leave_rooms sid left rs
  = map (λ r, if bool_decide (Room.roomId r ∈ map Room.roomId left)
              then Room.set_users (delete sid) r else r) rs.
Proof.
  revert rs. induction left as [|room left IH]; intros rs Hnd.
  - unfold leave_rooms. cbn [fold_left]. rewrite <- (map_id rs) at 1.
    apply map_ext. intros r. cbv beta.
    rewrite bool_decide_eq_false_2; [done|]. apply not_elem_of_nil.
  - change (leave_rooms sid (room :: left) rs)
      with (leave_rooms sid left
              (update_first (has_roomId (Room.roomId room))
                 (Room.set_users (delete sid)) rs)).
    rewrite update_first_unique by done.
    rewrite IH by (by rewrite update_many_roomIds).
    unfold update_many. rewrite map_map. apply map_ext. intros r. cbv beta.
    unfold has_roomId.
    destruct (decide (Room.roomId r = Room.roomId room)) as [E|E].
    + rewrite (bool_decide_eq_true_2 _ E). simpl.
      rewrite (bool_decide_eq_true_2 (Room.roomId r ∈ _ :: _))
        by (rewrite E; apply list_elem_of_here).
      case_bool_decide; [apply set_users_delete_twice | done].
    + rewrite (bool_decide_eq_false_2 _ E).
      rewrite (bool_decide_ext (Room.roomId r ∈ map Room.roomId (room :: left))
                 (Room.roomId r ∈ map Room.roomId left)); [done|].
      cbn [map]. rewrite elem_of_cons. split; [intros [?|?]; done | by right].
Qed.

Lemma leave_member_rooms sid (rs : list Room.t) :
  NoDup (map Room.roomId rs) →
  leave_rooms sid (List.filter (has_member sid) rs) rs
  = map (Room.set_users (delete sid)) rs.
Proof.
  intros Hnd. rewrite leave_rooms_spec by done.
  apply map_ext_in. intros r Hr. cbv beta. case_bool_decide as Hin; [done|].
  symmetry. apply set_users_delete_absent.
  destruct (Room.users r !! sid) eqn:E; [|done].
  exfalso. apply Hin. apply list_elem_of_fmap_2. apply list_elem_of_In.
  apply filter_In. split; [done|].
  unfold has_member. apply bool_decide_eq_true_2. by rewrite E.
Qed.

(** The loop of [join_room] that leaves the current rooms, when no store
    call is rejected. *)
Lemma leave_loop sid (left : list Room.t) (w : World) :
  for_each left
    (λ room,
       socket_leave sid (Room.roomId room);;
       await (update (with_rooms
         (update_first (has_roomId (Room.roomId room))
            (Room.set_users (delete sid)))))) None w
  = (Done tt, None,
     with_subscriptions (leave_subscriptions sid left)
       (with_rooms (leave_rooms sid left) w)).
Proof.
  revert w. induction left as [|room left IH]; intros w.
  - by destruct w.
  - cbn [for_each]. unfold bind at 1. run_handler. rewrite IH. by destruct w.
Qed.

Lemma findOne_after_leaving sid id (rs : list Room.t) :
  List.find (has_roomId id) (map (Room.set_users (delete sid)) rs)
  = Room.set_users (delete sid) <$> List.find (has_roomId id) rs.
Proof.
  induction rs as [|r rs IH]; [done|]. simpl.
  change (has_roomId id (Room.set_users (delete sid) r)) with (has_roomId id r).
  by destruct (has_roomId id r).
Qed.


End Reactions_and_membership.

(** ** Relations that every step of a handler respects *)

#[export] Instance same_io_preorder : PreOrder same_io.
Proof.
  split.
  - by intros w.
  - intros w1 w2 w3 [H1 H2] [H3 H4]. split; congruence.
Qed.

#[export] Instance same_io_frame : Frame same_io.
Proof. by split; [apply _|]. Qed.

#[export] Instance same_console_frame : Frame same_console.
Proof.
  split; [split|].
  - by intros w.
  - unfold same_console. intros w1 w2 w3 H1 H2. congruence.
  - by intros w w' [H _].
Qed.

#[export] Instance no_error_emitted_frame : Frame no_error_emitted.
Proof.
  split; [split|].
  - intros w. exists []. by rewrite app_nil_r.
  - intros w1 w2 w3 (e1 & H1 & F1) (e2 & H2 & F2). exists (e1 ++ e2).
    split; [by rewrite H2, H1, app_assoc | by apply Forall_app].
  - intros w w' [_ H]. exists []. by rewrite app_nil_r.
Qed.

Section Respects.

Context (R : relation World) `{!Frame R}.

Lemma respects_ret {A} (a : A) : respects R (mret a).
Proof. intros p w. simpl. reflexivity. Qed.

Lemma respects_bind {A B} (m : Handler A) (k : A → Handler B) :
  respects R m → (∀ a, respects R (k a)) → respects R (m ≫= k).
Proof.
  intros Hm Hk p w. unfold mbind, Handler_bind, bind.
  specialize (Hm p w). destruct (m p w) as [[[a|] p'] w']; simpl in *.
  - by etrans; [|apply Hk].
  - done.
Qed.

Lemma respects_try_catch {A} (body h : Handler A) :
  respects R body → respects R h → respects R (try_catch body h).
Proof.
  intros Hb Hh p w. unfold try_catch.
  specialize (Hb p w). destruct (body p w) as [[[a|] p'] w']; simpl in *.
  - done.
  - by etrans; [|apply Hh].
Qed.

Lemma respects_await {A} (op : World → option (A * World)) :
  (∀ w a w', op w = Some (a, w') → same_io w w') → respects R (await op).
Proof.
  intros Hop p w. unfold await.
  destruct p as [[|k]|]; simpl; [reflexivity| |];
    (destruct (op w) as [[a w']|] eqn:E; simpl;
     [apply frame_io; by eapply Hop | reflexivity]).
Qed.

Lemma respects_local (f : World → World) :
  (∀ w, same_io w (f w)) → respects R (local f).
Proof. intros Hf p w. simpl. by apply frame_io. Qed.

Lemma respects_gets {A} (f : World → A) : respects R (gets f).
Proof. intros p w. simpl. reflexivity. Qed.

Lemma respects_for_each {A} (l : list A) (f : A → Handler unit) :
  (∀ x, respects R (f x)) → respects R (for_each l f).
Proof.
  intros Hf. induction l as [|x l IH]; simpl.
  - apply respects_ret.
  - by apply (respects_bind (f x) (λ _, for_each l f)).
Qed.

End Respects.

Lemma emit_same_console t pl : respects same_console (emit t pl).
Proof. by intros p [] . Qed.

Lemma emit_no_error t pl :
  is_error (mkEmit t pl) = false → respects no_error_emitted (emit t pl).
Proof.
  intros H p w. exists [mkEmit t pl]. split; [by destruct w|].
  by apply Forall_singleton.
Qed.

Lemma console_error_no_error line : respects no_error_emitted (console_error line).
Proof. intros p w. exists []. split; [by destruct w; simpl; rewrite app_nil_r | done]. Qed.

(** Store operations do not touch events or log. *)
Lemma query_same_io {A} (q : World → A) w a w' :
  query q w = Some (a, w') → same_io w w'.
Proof. unfold query. by intros [= _ <-]. Qed.

Lemma update_same_io (f : World → World) w a w' :
  (∀ w, same_io w (f w)) → update f w = Some (a, w') → same_io w w'.
Proof. unfold update. intros Hf [= _ <-]. apply Hf. Qed.

Lemma with_users_same_io f w : same_io w (with_users f w).
Proof. by destruct w. Qed.
Lemma with_rooms_same_io f w : same_io w (with_rooms f w).
Proof. by destruct w. Qed.
Lemma with_messages_same_io f w : same_io w (with_messages f w).
Proof. by destruct w. Qed.
Lemma with_typing_same_io f w : same_io w (with_typing f w).
Proof. by destruct w. Qed.
Lemma with_subscriptions_same_io f w : same_io w (with_subscriptions f w).
Proof. by destruct w. Qed.
Lemma with_stdout_same_io f w : same_io w (with_stdout f w).
Proof. by destruct w. Qed.

Lemma User_upsert_same_io id u now w a w' :
  User_upsert id u now w = Some (a, w') → same_io w w'.
Proof.
  unfold User_upsert. destruct (User_findOne id w); intros [= _ <-];
    apply with_users_same_io.
Qed.

Lemma User_set_offline_same_io id now w a w' :
  User_set_offline id now w = Some (a, w') → same_io w w'.
Proof. unfold User_set_offline. intros [= _ <-]. apply with_users_same_io. Qed.

Lemma Message_create_same_io now d w a w' :
  Message_create now d w = Some (a, w') → same_io w w'.
Proof. unfold Message_create. intros [= _ <-]. by destruct w. Qed.

Lemma Room_create_same_io now d w a w' :
  Room_create now d w = Some (a, w') → same_io w w'.
Proof. intros (_ & _ & _ & _ & ->)%Room_create_Some. by destruct w. Qed.

Lemma Message_findByIdAndUpdate_same_io id f w a w' :
  Message_findByIdAndUpdate id f w = Some (a, w') → same_io w w'.
Proof. intros (n & _ & ->)%Message_findByIdAndUpdate_Some. by destruct w. Qed.

Lemma Message_find_page_same_io engine P s n w a w' :
  Message_find_page engine P s n w = Some (a, w') → same_io w w'.
Proof.
  unfold Message_find_page. destruct (page_window _ _ _ _); [|done].
  by intros [= _ <-].
Qed.

Lemma Message_search_same_io engine q room w a w' :
  Message_search engine q room w = Some (a, w') → same_io w w'.
Proof.
  unfold Message_search. destruct (regex_i _ _); [|done]. by intros [= _ <-].
Qed.

Create HintDb store_ops.
#[export] Hint Resolve query_same_io with_users_same_io with_rooms_same_io
  with_messages_same_io with_typing_same_io with_subscriptions_same_io
  with_stdout_same_io
  User_upsert_same_io User_set_offline_same_io Message_create_same_io
  Room_create_same_io Message_find_page_same_io Message_search_same_io
  Message_findByIdAndUpdate_same_io
  : store_ops.

(** Decomposes a handler body into its steps. *)
Ltac frame_apply lem := apply lem; try (solve [apply _]).

Ltac respects_step :=
  first
    [ frame_apply @respects_bind; [|intros ?]
    | frame_apply @respects_ret
    | frame_apply @respects_gets
    | frame_apply @respects_for_each; intros ?
    | frame_apply @respects_await; intros ? ? ? ?;
        first [ solve [eauto with store_ops]
              | eapply update_same_io; [|eassumption]; intros ?;
                solve [eauto with store_ops] ]
    | frame_apply @respects_local; intros ?; solve [eauto with store_ops]
    | apply emit_same_console
    | apply emit_no_error; reflexivity
    | apply console_error_no_error
    | match goal with
      | |- respects _ (match ?x with _ => _ end) => destruct x
      end ].

Ltac respects_auto :=
  unfold socket_join, socket_leave, console_log; cbv zeta; repeat respects_step.

Lemma snoc_neq {A} (l : list A) (x : A) : l ++ [x] ≠ l.
Proof.
  intros H. apply (f_equal length) in H. rewrite length_app in H. simpl in H. lia.
Qed.

(** *** A pending rejection is not lost *)

Lemma fault_kept_ret {A} (a : A) : fault_kept (mret a).
Proof. intros k w a' p' w' [= _ <- _]. by eexists. Qed.

Lemma fault_kept_gets {A} (f : World → A) : fault_kept (gets f).
Proof. intros k w a' p' w' [= _ <- _]. by eexists. Qed.

Lemma fault_kept_local (f : World → World) : fault_kept (local f).
Proof. intros k w a' p' w' [= _ <- _]. by eexists. Qed.

Lemma fault_kept_await {A} (op : World → option (A * World)) : fault_kept (await op).
Proof.
  intros k w a p' w'. unfold await. destruct k as [|k]; [done|].
  destruct (op w) as [[a0 w0]|]; [|done]. intros [= _ <- _]. by eexists.
Qed.

Lemma fault_kept_bind {A B} (m : Handler A) (k : A → Handler B) :
  fault_kept m → (∀ a, fault_kept (k a)) → fault_kept (m ≫= k).
Proof.
  intros Hm Hk n w b p' w'. unfold mbind, Handler_bind, bind.
  destruct (m (Some n) w) as [[[a|] p1] w1] eqn:E; [|done].
  destruct (Hm _ _ _ _ _ E) as [n1 ->]. apply Hk.
Qed.

Lemma fault_kept_for_each {A} (l : list A) (f : A → Handler unit) :
  (∀ x, fault_kept (f x)) → fault_kept (for_each l f).
Proof.
  intros Hf. induction l as [|x l IH]; simpl.
  - apply fault_kept_ret.
  - by apply (fault_kept_bind (f x) (λ _, for_each l f)).
Qed.

Ltac fault_kept_auto :=
  unfold emit, console_log, socket_join, socket_leave; cbv zeta;
  repeat first
    [ apply @fault_kept_bind; [|intros ?]
    | apply @fault_kept_ret
    | apply @fault_kept_gets
    | apply @fault_kept_for_each; intros ?
    | apply @fault_kept_await
    | apply @fault_kept_local
    | match goal with
      | |- fault_kept (match ?x with _ => _ end) => destruct x
      end ].

(** What a [try]/[catch] whose [catch] block logs, and reports when it has
    a message, does with a rejection. *)
Lemma try_catch_policy (body : Handler unit) sid line msg p w :
  respects same_console body →
  respects no_error_emitted body →
  fault_kept body →
  (match (body p w).1.1 with
   | Thrown =>
       console (try_catch body (rescue sid line msg) p w).2 = console w ++ [line]
       ∧ ∀ m, msg = Some m →
           last (outbox (try_catch body (rescue sid line msg) p w).2)
           = Some (mkEmit (SocketEmit sid) (error m))
   | Done _ =>
       console (try_catch body (rescue sid line msg) p w).2 = console w
       ∧ no_error_emitted w (try_catch body (rescue sid line msg) p w).2
   end)
  ∧ (∀ k, p = Some k →
       (try_catch body (rescue sid line msg) p w).1.2 = None →
       console (try_catch body (rescue sid line msg) p w).2 = console w ++ [line]
       ∧ ∀ m, msg = Some m →
           last (outbox (try_catch body (rescue sid line msg) p w).2)
           = Some (mkEmit (SocketEmit sid) (error m)))
  ∧ (console (try_catch body (rescue sid line msg) p w).2 ≠ console w →
     console (try_catch body (rescue sid line msg) p w).2 = console w ++ [line]
     ∧ ∀ m, msg = Some m →
         last (outbox (try_catch body (rescue sid line msg) p w).2)
         = Some (mkEmit (SocketEmit sid) (error m)))
  ∧ (console (try_catch body (rescue sid line msg) p w).2 = console w →
     no_error_emitted w (try_catch body (rescue sid line msg) p w).2)
  ∧ (msg = None →
     no_error_emitted w (try_catch body (rescue sid line msg) p w).2).
Proof.
  intros Hc He Hk. unfold try_catch.
  specialize (Hc p w). specialize (He p w).
  destruct (body p w) as [[[[]|] p1] w1] eqn:E; cbn [fst snd] in *.
  - split; [done|]. split_and!.
    + intros k -> ->. by destruct (Hk _ _ _ _ _ E).
    + intros H. by destruct H.
    + done.
    + done.
  - assert (Hcaught :
      console (rescue sid line msg p1 w1).2 = console w ++ [line]
      ∧ ∀ m, msg = Some m →
          last (outbox (rescue sid line msg p1 w1).2)
          = Some (mkEmit (SocketEmit sid) (error m))).
    { unfold same_console in Hc. destruct msg as [m0|]; destruct w1; simpl in *.
      - split; [by rewrite Hc|]. intros m [= <-]. apply last_snoc.
      - split; [by rewrite Hc | done]. }
    split; [exact Hcaught|]. split_and!.
    + intros _ _ _. exact Hcaught.
    + intros _. exact Hcaught.
    + intros H. exfalso. apply (snoc_neq (console w) line).
      by rewrite <- (proj1 Hcaught).
    + intros ->. destruct He as (evs & He & Hf). exists evs.
      split; [|done]. by destruct w1.
Qed.

Section Failure_policy.

Context (engine : Engine).

(** C3, as the handlers behave.  Every handler is one [try] block with a
    [catch] block that logs the handler's own line and, for [user_join],
    [send_message], [create_room], [join_room], [private_message],
    [share_file], [load_messages] and [search_messages], then sends an
    [error] event to the originating connection.  So when a store call
    inside a handler is rejected, whichever call it is, the handler logs
    the failure, and these eight handlers send the [error] event as their
    last event, while [typing], [add_reaction], [message_read] and
    [disconnect] only log: they never emit an [error] event.  When nothing
    is rejected nothing is logged and no [error] event is emitted.  The
    rejection of the first store call is always reached. *)
Theorem store_failure_policy (sid : string) (now : nat) (e : Inbound)
    (p : option nat) (w : World) :
  let r := handler engine sid now e p w in
  let w' := handle engine sid now e p w in
  let caught p0 w0 :=
    console (handle engine sid now e p0 w0) = console w0 ++ [failure_line e]
    ∧ ∀ msg, failure_message e = Some msg →
        last (outbox (handle engine sid now e p0 w0))
        = Some (mkEmit (SocketEmit sid) (error msg)) in
  (∃ body,
     handler engine sid now e
     = try_catch body (rescue sid (failure_line e) (failure_message e))
     ∧ ∀ p0 w0,
         match (body p0 w0).1.1 with
         | Thrown => caught p0 w0
         | Done _ =>
             console (handle engine sid now e p0 w0) = console w0
             ∧ no_error_emitted w0 (handle engine sid now e p0 w0)
         end)
  ∧ (∀ k, p = Some k → r.1.2 = None → caught p w)
  ∧ (console w' ≠ console w → caught p w)
  ∧ (console w' = console w → no_error_emitted w w')
  ∧ (failure_message e = None → no_error_emitted w w')
  ∧ (handler engine sid now e (Some 0) w).1.2 = None.
Proof.
  cbv zeta. unfold handle.
  assert (H :
    ∃ body, handler engine sid now e
            = try_catch body (rescue sid (failure_line e) (failure_message e))
            ∧ respects same_console body
            ∧ respects no_error_emitted body
            ∧ fault_kept body).
  { destruct e; cbn [handler];
      unfold on_user_join, on_send_message, on_create_room, on_join_room,
        on_typing, on_private_message, on_add_reaction, on_message_read,
        on_share_file, on_load_messages, on_search_messages, on_disconnect;
      cbv zeta;
      (eexists; split; [reflexivity|]);
      (split_and!; [respects_auto | respects_auto | fault_kept_auto]). }
  assert (H0 : (handler engine sid now e (Some 0) w).1.2 = None)
    by (destruct e; reflexivity).
  destruct H as (body & Hbody & Hc & He & Hk). rewrite Hbody in *.
  destruct (try_catch_policy body sid (failure_line e) (failure_message e) p w
              Hc He Hk) as (_ & H1 & H2 & H3 & H4).
  split_and!; try done.
  exists body. split; [reflexivity|]. intros p0 w0.
  apply (try_catch_policy body sid (failure_line e) (failure_message e) p0 w0
           Hc He Hk).
Qed.

End Failure_policy.

(** ** Loops that only emit *)

Lemma for_each_emits {A} (l : list A) (f : A → Handler unit) (g : A → list Emit) :
  (∀ x p w, f x p w = (Done tt, p, with_outbox (λ o, o ++ g x) w)) →
  ∀ p w, for_each l f p w = (Done tt, p, with_outbox (λ o, o ++ flat_map g l) w).
Proof.
  intros Hf. induction l as [|x l IH]; intros p w; simpl.
  - destruct w. unfold ret, with_outbox. simpl. by rewrite app_nil_r.
  - unfold bind. rewrite Hf, IH. destruct w. unfold with_outbox. simpl.
    by rewrite <- app_assoc.
Qed.

Section Share_file.

Context (engine : Engine).

(** [share_file] when no store call is rejected. *)
Lemma share_file_run sid now w name url type room :
  let m := shared_file sid now w name url type room in
  handler engine sid now (share_file name url type room) None w
  = (Done tt, None,
     with_outbox
       (λ o, o ++ [mkEmit IoEmit (receive_message m)]
               ++ file_notices sid (sender_name (User_findOne sid w)) name
                    (Js.Object_keys (io_sockets w))
               ++ [mkEmit (SocketEmit sid) (message_delivered (Message._id m))])
       (with_next_id (S (next_id w)) (with_messages (λ l, l ++ [m]) w))).
Proof.
  cbv zeta. cbn [handler]. unfold on_share_file.
  apply try_catch_done.
  erewrite bind_done by (by apply await_no_fault).
  erewrite bind_done by (by apply await_no_fault).
  erewrite bind_done by reflexivity.
  erewrite bind_done by reflexivity.
  erewrite bind_done.
  2:{ apply (for_each_emits _ _
        (λ userId,
           if bool_decide (userId ≠ sid)
           then [mkEmit (IoTo userId)
                   (new_message_notification
                      (sender_name (User_findOne sid w) +:+ " shared a file: " +:+ name)
                      (sender_name (User_findOne sid w)) None false true)]
           else [])).
      intros x p w0. case_bool_decide; [reflexivity|].
      destruct w0. unfold mret, Handler_ret, ret, with_outbox. simpl.
      by rewrite app_nil_r. }
  destruct w. unfold file_notices, shared_file, emit, local, with_outbox,
    with_next_id, with_messages. simpl.
  by rewrite <- !app_assoc.
Qed.

(** [send_message] when no store call is rejected: one message more, and
    the counter of its room incremented. *)
Lemma send_message_run sid now w message room :
  ∃ evs,
    handler engine sid now (send_message message room) None w
    = (Done tt, None,
       with_outbox (λ o, o ++ evs)
         (with_rooms
            (update_first (has_roomId (Js.or_else room "general"))
               Room.inc_messageCount)
            (with_next_id (S (next_id w))
               (with_messages (λ l, l ++ [sent_message sid now w message room]) w)))).
Proof.
  cbn [handler]. unfold on_send_message.
  destruct w as [us rs ms n ty so su ob co lg].
  set (m := sent_message sid now (mkWorld us rs ms n ty so su ob co lg) message room).
  destruct (Js.truthy room) eqn:Ht.
  - eexists. apply try_catch_done.
    erewrite bind_done by (by apply await_no_fault).
    erewrite bind_done by (by apply await_no_fault).
    erewrite bind_done by (by apply await_no_fault).
    erewrite bind_done.
    2:{ cbv iota. erewrite bind_done by reflexivity.
        erewrite bind_done by (by apply await_no_fault).
        apply (for_each_emits _ _
          (λ user, [mkEmit (IoTo (User.socketId user))
                      (new_message_notification
                         (Message.sender m +:+ ": " +:+ Message.message m)
                         (Message.sender m) (Some (default "" room)) false false)])).
        reflexivity. }
    unfold emit, local, with_outbox, with_rooms, with_next_id, with_messages,
      sent_message. simpl. rewrite <- !app_assoc. reflexivity.
  - eexists. apply try_catch_done.
    erewrite bind_done by (by apply await_no_fault).
    erewrite bind_done by (by apply await_no_fault).
    erewrite bind_done by (by apply await_no_fault).
    erewrite bind_done by reflexivity.
    unfold emit, local, with_outbox, with_rooms, with_next_id, with_messages,
      sent_message. simpl. rewrite <- !app_assoc. reflexivity.
Qed.

(** The sibling path: [send_message] keeps the counters in step with the
    stored messages. *)
Lemma send_message_keeps_count sid now w message room :
  unique_roomIds w →
  count_consistent w →
  count_consistent (handle engine sid now (send_message message room) None w).
Proof.
  intros Hnd Hc. unfold handle.
  destruct (send_message_run sid now w message room) as [evs ->]. cbn [snd].
  destruct w as [us rs ms n ty so su ob co lg].
  unfold count_consistent, unique_roomIds in *. simpl in *.
  rewrite update_first_unique by done.
  intros r' Hr'. apply list_elem_of_fmap_1 in Hr' as (r & -> & Hr).
  rewrite List.filter_app, length_app. unfold has_roomId, in_room. simpl.
  destruct (decide (Room.roomId r = Js.or_else room "general")) as [E|E].
  - rewrite (bool_decide_eq_true_2 _ E). simpl.
    rewrite bool_decide_eq_true_2 by done. simpl.
    specialize (Hc r Hr). unfold in_room in Hc. lia.
  - rewrite (bool_decide_eq_false_2 _ E).
    rewrite bool_decide_eq_false_2 by (intros E'; by apply E).
    simpl. specialize (Hc r Hr). unfold in_room in Hc. lia.
Qed.

(** C2, on [share_file].  Handling [share_file] stores a message whose
    [room] is the target room and leaves every room document, hence every
    [messageCount], as it was: a world in which the counters agree with
    the stored messages is taken to one in which the target room's counter
    is one short. *)
Theorem share_file_breaks_messageCount (sid : string) (now : nat) (w : World)
    (name url type : string) (room : option string) (r : Room.t) :
  r ∈ db_rooms w →
  Room.roomId r = Js.or_else room "general" →
  count_consistent w →
  let w' := handle engine sid now (share_file name url type room) None w in
  db_rooms w' = db_rooms w
  ∧ length (List.filter (in_room (Room.roomId r)) (db_messages w'))
    = S (Room.messageCount r)
  ∧ ¬ count_consistent w'.
Proof.
  intros Hr Hid Hc. cbv zeta. unfold handle. rewrite share_file_run.
  cbn [snd]. destruct w as [us rs ms n ty so su ob co lg]; simpl in *.
  assert (Hlen : length (List.filter (in_room (Room.roomId r))
                   (ms ++ [shared_file sid now
                             (mkWorld us rs ms n ty so su ob co lg) name url type room]))
                 = S (Room.messageCount r)).
  { rewrite List.filter_app, length_app. rewrite (Hc r Hr). simpl.
    unfold in_room at 2. simpl. rewrite bool_decide_eq_true_2 by done.
    simpl. lia. }
  split; [done|]. split; [done|].
  intros Hc'. specialize (Hc' r Hr). simpl in Hc'. rewrite Hlen in Hc'. lia.
Qed.

(** C9, on the notification loop.  [io.sockets.sockets] is a [Map], and a
    [Map] that is only filled through its own methods has no properties
    for [Object.keys] to list: whoever is connected, [share_file] emits the
    broadcast and the delivery receipt and no notification at all. *)
Theorem share_file_notifies_nobody (sid : string) (now : nat) (w : World)
    (name url type : string) (room : option string) :
  Js.own_props (io_sockets w) = [] →
  let w' := handle engine sid now (share_file name url type room) None w in
  let m := shared_file sid now w name url type room in
  outbox w' = outbox w ++ [mkEmit IoEmit (receive_message m);
                           mkEmit (SocketEmit sid) (message_delivered (Message._id m))]
  ∧ ∀ e, e ∈ outbox w' → e ∈ outbox w ∨ is_notification e = false.
Proof.
  intros Hmap. cbv zeta. unfold handle. rewrite share_file_run. cbn [snd].
  unfold Js.Object_keys. rewrite Hmap. simpl.
  destruct w; simpl. split; [done|].
  intros e [He|He]%elem_of_app; [by left|right].
  apply elem_of_cons in He as [->|He]; [done|].
  apply list_elem_of_singleton in He as ->. done.
Qed.

End Share_file.

(** ** Pages *)

#[export] Instance newer_first_total : Total newer_first.
Proof. intros a b. unfold newer_first. lia. Qed.

#[export] Instance newer_first_trans : Transitive newer_first.
Proof. intros a b c. unfold newer_first. lia. Qed.

Lemma sort_desc_sorted l : StronglySorted newer_first (sort_desc l).
Proof. apply StronglySorted_merge_sort; apply _. Qed.

Lemma sort_desc_perm l : sort_desc l ≡ₚ l.
Proof. apply merge_sort_Permutation. Qed.

Lemma sort_desc_length l : length (sort_desc l) = length l.
Proof. by rewrite sort_desc_perm. Qed.

Lemma window_sorted (o l : nat) (s : list Message.t) :
  StronglySorted newer_first s →
  StronglySorted newer_first (take l (drop o s)).
Proof.
  intros Hs. rewrite <- (take_drop o s) in Hs.
  apply StronglySorted_app_1_r in Hs.
  rewrite <- (take_drop l (drop o s)) in Hs.
  by apply StronglySorted_app_1_l in Hs.
Qed.

Lemma hasMore_compute (o l n : nat) :
  Js.lt (Js.add (Js.Int (Z.of_nat o)) (Js.Int (Z.of_nat l))) (Js.Int (Z.of_nat n))
  = bool_decide (o + l < n).
Proof.
  simpl. destruct (bool_decide_reflect (o + l < n)) as [H|H].
  - apply Z.ltb_lt. lia.
  - apply Z.ltb_ge. lia.
Qed.

Section Pages.

Context (engine : Engine).

Lemma page_window_inside (o l : nat) (s : list Message.t) :
  1 ≤ l →
  page_window engine (Js.of_nat o) (Js.of_nat l) s = Some (take l (drop o s)).
Proof.
  intros Hl. unfold page_window, Js.of_nat.
  replace ((0 <=? Z.of_nat o)%Z && (1 <=? Z.of_nat l)%Z) with true.
  - by rewrite !Nat2Z.id.
  - symmetry. apply andb_true_intro. split; apply Z.leb_le; lia.
Qed.

(** [.limit(0)] sets no limit. *)
Lemma page_window_unlimited (o : nat) (s : list Message.t) :
  page_window engine (Js.of_nat o) (Js.of_nat 0) s = Some (drop o s).
Proof.
  unfold page_window, Js.of_nat. change (Z.of_nat 0) with 0%Z.
  replace (0 <=? Z.of_nat o)%Z with true by (symmetry; apply Z.leb_le; lia).
  simpl. by rewrite Nat2Z.id.
Qed.

Lemma sum_lt_compute (o l n : nat) :
  sum_lt engine (Js.of_nat o) (Js.of_nat l) n = bool_decide (o + l < n).
Proof. apply hasMore_compute. Qed.

Lemma room_query_in_room roomId : roomId ≠ "" → room_query roomId = in_room roomId.
Proof. intros H. unfold room_query. simpl. destruct roomId; [done|reflexivity]. Qed.

Lemma load_messages_run sid now w roomId (o l : nat) :
  roomId ≠ "" → 1 ≤ l →
  handler engine sid now
    (load_messages (Some (Js.of_nat o)) (Some (Js.of_nat l)) (Some roomId)) None w
  = (Done tt, None,
     with_outbox
       (λ out, out ++ [mkEmit (SocketEmit sid)
                         (messages_loaded (page roomId o l w) (hasMore roomId o l w))])
       w).
Proof.
  intros Hroom Hl. cbn [handler]. unfold on_load_messages. cbv zeta.
  change (default (Js.of_nat 0) (Some (Js.of_nat o))) with (Js.of_nat o).
  change (default (Js.of_nat 50) (Some (Js.of_nat l))) with (Js.of_nat l).
  change (default "general" (Some roomId)) with roomId.
  rewrite (room_query_in_room _ Hroom). apply try_catch_done.
  erewrite bind_done.
  2:{ apply await_no_fault. unfold Message_find_page.
      by rewrite page_window_inside. }
  erewrite bind_done by (by apply await_no_fault).
  rewrite sum_lt_compute. reflexivity.
Qed.

(** [load_messages] with a limit of 0. *)
Lemma load_messages_unlimited sid now w roomId (o : nat) :
  roomId ≠ "" →
  handler engine sid now
    (load_messages (Some (Js.of_nat o)) (Some (Js.of_nat 0)) (Some roomId)) None w
  = (Done tt, None,
     with_outbox
       (λ out, out ++ [mkEmit (SocketEmit sid)
                         (messages_loaded
                            (reverse (drop o (sort_desc (room_messages roomId w))))
                            (hasMore roomId o 0 w))])
       w).
Proof.
  intros Hroom. cbn [handler]. unfold on_load_messages. cbv zeta.
  change (default (Js.of_nat 0) (Some (Js.of_nat o))) with (Js.of_nat o).
  change (default (Js.of_nat 50) (Some (Js.of_nat 0))) with (Js.of_nat 0).
  change (default "general" (Some roomId)) with roomId.
  rewrite (room_query_in_room _ Hroom). apply try_catch_done.
  erewrite bind_done.
  2:{ apply await_no_fault. unfold Message_find_page.
      by rewrite page_window_unlimited. }
  erewrite bind_done by (by apply await_no_fault).
  rewrite sum_lt_compute. reflexivity.
Qed.

Lemma api_messages_run w room (o l : nat) so sl :
  Js.parseInt so = Js.Int (Z.of_nat o) →
  Js.parseInt sl = Js.Int (Z.of_nat l) →
  1 ≤ l →
  api_messages engine (Some so) (Some sl) (Some room) None w
  = (Done (json_messages (page room o l w) (hasMore room o l w)
             (length (room_messages room w))), None, w).
Proof.
  intros Ho Hl Hpos. unfold api_messages, page_args, coerce_param.
  rewrite Ho, Hl. change (default "general" (Some room)) with room.
  apply try_catch_done.
  erewrite bind_done.
  2:{ apply await_no_fault. unfold Message_find_page.
      by rewrite (page_window_inside o l). }
  erewrite bind_done by (by apply await_no_fault).
  rewrite hasMore_compute. reflexivity.
Qed.

(** [GET /api/messages] with a limit of 0. *)
Lemma api_messages_unlimited w room (o : nat) so sl :
  Js.parseInt so = Js.Int (Z.of_nat o) →
  Js.parseInt sl = Js.Int 0 →
  api_messages engine (Some so) (Some sl) (Some room) None w
  = (Done (json_messages (reverse (drop o (sort_desc (room_messages room w))))
             (hasMore room o 0 w) (length (room_messages room w))), None, w).
Proof.
  intros Ho Hl. unfold api_messages, page_args, coerce_param.
  rewrite Ho, Hl. change (default "general" (Some room)) with room.
  apply try_catch_done.
  erewrite bind_done.
  2:{ apply await_no_fault. unfold Message_find_page.
      by rewrite (page_window_unlimited o). }
  erewrite bind_done by (by apply await_no_fault).
  change (Js.Int 0) with (Js.Int (Z.of_nat 0)).
  rewrite hasMore_compute. reflexivity.
Qed.

End Pages.

#[export] Instance chronological_trans : Transitive chronological.
Proof. intros a b c. unfold chronological. lia. Qed.

Lemma page_length roomId o l w :
  length (page roomId o l w) = min l (length (room_messages roomId w) - o).
Proof.
  unfold page. by rewrite length_reverse, length_take, length_drop, sort_desc_length.
Qed.

Lemma page_chronological roomId o l w :
  StronglySorted chronological (page roomId o l w).
Proof.
  apply Sorted_StronglySorted; [apply _|].
  unfold page. apply (Sorted_reverse newer_first).
  apply StronglySorted_Sorted, window_sorted, sort_desc_sorted.
Qed.

Lemma page_position roomId o l w :
  ∃ skipped rest,
    sort_desc (room_messages roomId w) = skipped ++ reverse (page roomId o l w) ++ rest
    ∧ length skipped = min o (length (room_messages roomId w)).
Proof.
  exists (take o (sort_desc (room_messages roomId w))),
         (drop l (drop o (sort_desc (room_messages roomId w)))).
  unfold page. rewrite reverse_involutive, take_drop, take_drop.
  by rewrite length_take, sort_desc_length.
Qed.

Section Page_contract.

Context (engine : Engine).

(** C4, as the code behaves.  For a room with [n] messages, an offset and
    a limit of at least one: both read paths answer with the page of the
    specification (newest first, [offset] skipped, at most [limit] kept,
    then reversed into chronological order) and with [hasMore] true
    exactly when [offset + limit < n]; with [n = 120], offset 100 and limit
    50 give the remaining 20 and [hasMore = false], offset 0 and limit 50
    give 50 and [hasMore = true].  A limit of 0 is no limit: both paths
    answer with all the [n - offset] messages after the offset, and with
    [hasMore] true exactly when [offset < n]. *)
Theorem page_contract (sid : string) (now : nat) (w : World) (roomId : string)
    (offset limit : nat) (offset_text limit_text zero_text : string) :
  roomId ≠ "" →
  1 ≤ limit →
  Js.parseInt offset_text = Js.Int (Z.of_nat offset) →
  Js.parseInt limit_text = Js.Int (Z.of_nat limit) →
  Js.parseInt zero_text = Js.Int 0 →
  let n := length (room_messages roomId w) in
  let pg := page roomId offset limit w in
  let more := hasMore roomId offset limit w in
  let all := reverse (drop offset (sort_desc (room_messages roomId w))) in
  handler engine sid now
    (load_messages (Some (Js.of_nat offset)) (Some (Js.of_nat limit)) (Some roomId))
    None w
  = (Done tt, None,
     with_outbox (λ out, out ++ [mkEmit (SocketEmit sid) (messages_loaded pg more)]) w)
  ∧ api_messages engine (Some offset_text) (Some limit_text) (Some roomId) None w
    = (Done (json_messages pg more n), None, w)
  ∧ length pg = min limit (n - offset)
  ∧ length pg ≤ limit
  ∧ StronglySorted chronological pg
  ∧ StronglySorted newer_first (sort_desc (room_messages roomId w))
  ∧ sort_desc (room_messages roomId w) ≡ₚ room_messages roomId w
  ∧ (∃ skipped rest,
       sort_desc (room_messages roomId w) = skipped ++ reverse pg ++ rest
       ∧ length skipped = min offset n)
  ∧ (more = true ↔ offset + limit < n)
  ∧ (n = 120 → offset = 100 → limit = 50 → length pg = 20 ∧ more = false)
  ∧ (n = 120 → offset = 0 → limit = 50 → length pg = 50 ∧ more = true)
  ∧ handler engine sid now
      (load_messages (Some (Js.of_nat offset)) (Some (Js.of_nat 0)) (Some roomId))
      None w
    = (Done tt, None,
       with_outbox
         (λ out, out ++ [mkEmit (SocketEmit sid)
                           (messages_loaded all (bool_decide (offset < n)))]) w)
  ∧ api_messages engine (Some offset_text) (Some zero_text) (Some roomId) None w
    = (Done (json_messages all (bool_decide (offset < n)) n), None, w)
  ∧ length all = n - offset.
Proof.
  intros Hroom Hlimit Ho Hl Hz. cbv zeta.
  pose proof (page_length roomId offset limit w) as Hlen.
  assert (Hmore : hasMore roomId offset limit w = true
                  ↔ offset + limit < length (room_messages roomId w)).
  { unfold hasMore. by rewrite bool_decide_eq_true. }
  assert (Hzero : hasMore roomId offset 0 w
                  = bool_decide (offset < length (room_messages roomId w))).
  { unfold hasMore. by rewrite Nat.add_0_r. }
  split_and!.
  - by apply load_messages_run.
  - by apply api_messages_run.
  - done.
  - lia.
  - apply page_chronological.
  - apply sort_desc_sorted.
  - apply sort_desc_perm.
  - apply page_position.
  - done.
  - intros ? ? ?. split; [lia|]. apply not_true_is_false. rewrite Hmore. lia.
  - intros ? ? ?. split; [lia|]. apply Hmore. lia.
  - rewrite <- Hzero. by apply load_messages_unlimited.
  - rewrite <- Hzero. by apply api_messages_unlimited.
  - by rewrite length_reverse, length_drop, sort_desc_length.
Qed.

End Page_contract.

(** ** Room identifiers *)

Lemma lower_char_space c : Js.is_space (Js.lower_char c) = Js.is_space c.
Proof. by destruct c as [[] [] [] [] [] [] [] []]. Qed.

Lemma replace_runs_in_run s :
  Js.replace_runs true s = Js.replace_runs false (Js.trim_start s).
Proof.
  induction s as [|c r IH]; [done|]. simpl.
  destruct (Js.is_space c) eqn:E; [done|]. simpl. by rewrite E.
Qed.

Lemma toLowerCase_trim_start s :
  Js.toLowerCase (Js.trim_start s) = Js.trim_start (Js.toLowerCase s).
Proof.
  induction s as [|c r IH]; [done|]. simpl. rewrite lower_char_space.
  by destruct (Js.is_space c).
Qed.

Lemma append_cons c a b : String c a +:+ b = String c (a +:+ b).
Proof. reflexivity. Qed.

Lemma leading_space_split s : leading_space s +:+ Js.trim_start s = s.
Proof.
  induction s as [|c r IH]; [done|]. simpl.
  destruct (Js.is_space c); [by rewrite append_cons, IH | done].
Qed.

Lemma leading_space_all_space s : all_space (leading_space s) = true.
Proof.
  induction s as [|c r IH]; [done|]. simpl.
  destruct (Js.is_space c) eqn:E; simpl; [by rewrite E | done].
Qed.

Lemma trim_start_no_space s : starts_with_space (Js.trim_start s) = false.
Proof.
  induction s as [|c r IH]; [done|]. simpl.
  destruct (Js.is_space c) eqn:E; simpl; [done | by rewrite E].
Qed.

Lemma trim_start_length s : String.length (Js.trim_start s) ≤ String.length s.
Proof.
  induction s as [|c r IH]; [done|]. simpl.
  destruct (Js.is_space c); simpl; lia.
Qed.

Lemma roomIdOf_slug name : slug_of name (roomIdOf name).
Proof.
  remember (String.length name) as n eqn:Hn.
  assert (Hle : String.length name ≤ n) by lia. clear Hn.
  revert name Hle. induction n as [|n IH]; intros name Hle.
  - destruct name; [constructor | simpl in Hle; lia].
  - destruct name as [|c r]; [constructor|]. simpl in Hle.
    unfold roomIdOf, Js.replace_whitespace. simpl.
    rewrite lower_char_space. destruct (Js.is_space c) eqn:E.
    + rewrite replace_runs_in_run, <- toLowerCase_trim_start.
      replace (String c r) with (String c (leading_space r) +:+ Js.trim_start r)
        by (by rewrite append_cons, leading_space_split).
      apply slug_run.
      * done.
      * simpl. by rewrite E, leading_space_all_space.
      * apply trim_start_no_space.
      * apply IH. pose proof (trim_start_length r). lia.
    + apply slug_char; [done|]. apply IH. lia.
Qed.

Lemma find_app_last {A} (P : A → bool) (l : list A) (x : A) :
  List.find P l = None → P x = true → List.find P (l ++ [x]) = Some x.
Proof.
  intros Hl Hx. induction l as [|y l IH]; simpl in *.
  - by rewrite Hx.
  - destruct (P y); [done|]. by apply IH.
Qed.

Lemma filter_unique_roomId id (rs : list Room.t) r :
  NoDup (map Room.roomId rs) →
  List.find (has_roomId id) rs = Some r →
  length (List.filter (has_roomId id) rs) = 1.
Proof.
  induction rs as [|x rs IH]; intros Hnd Hf; [done|].
  simpl in Hnd. apply NoDup_cons in Hnd as [Hx Hnd]. simpl in *.
  destruct (has_roomId id x) eqn:E.
  - simpl. f_equal. apply length_zero_iff_nil.
    destruct (List.filter (has_roomId id) rs) as [|y ys] eqn:Ef; [done|].
    exfalso. assert (Hy : In y (List.filter (has_roomId id) rs))
      by (rewrite Ef; by left).
    apply filter_In in Hy as [Hy1 Hy2]. unfold has_roomId in *.
    apply bool_decide_eq_true_1 in E, Hy2. apply Hx. rewrite E, <- Hy2.
    apply list_elem_of_fmap_2. by apply list_elem_of_In.
  - by apply IH.
Qed.

Lemma filter_none {A} (P : A → bool) (l : list A) :
  List.find P l = None → List.filter P l = [].
Proof.
  induction l as [|x l IH]; [done|]. simpl.
  destruct (P x); [done|]. apply IH.
Qed.

Lemma roomIdOf_empty name : roomIdOf name = "" ↔ name = "".
Proof.
  split; [|by intros ->]. destruct name as [|c r]; [done|].
  unfold roomIdOf, Js.replace_whitespace. simpl.
  by destruct (Js.is_space (Js.lower_char c)).
Qed.

Section Create_room.

Context (engine : Engine).

Lemma create_room_existing sid now w roomName r :
  Room_findOne (roomIdOf roomName) w = Some r →
  handler engine sid now (create_room roomName) None w = (Done tt, None, w).
Proof.
  intros H. cbn [handler]. unfold on_create_room. cbv zeta.
  apply try_catch_done.
  erewrite bind_done by (by apply await_no_fault). by rewrite H.
Qed.

Lemma create_room_new sid now w roomName :
  roomName ≠ "" →
  Room_findOne (roomIdOf roomName) w = None →
  let r := Room.of_draft now (Room.mkDraft (roomIdOf roomName) roomName (Some sid)) in
  handler engine sid now (create_room roomName) None w
  = (Done tt, None,
     with_stdout (λ l, l ++ [room_created roomName])
       (with_outbox
          (λ o, o ++ [mkEmit IoEmit (room_list (db_rooms w ++ [r]));
                      mkEmit IoEmit (notification "room_created"
                                       ("New room created: " +:+ roomName)
                                       (Some (roomIdOf roomName)))])
          (with_rooms (λ l, l ++ [r]) w))).
Proof.
  intros Hname H. cbv zeta. cbn [handler]. unfold on_create_room. cbv zeta.
  apply try_catch_done.
  erewrite bind_done by (by apply await_no_fault). rewrite H.
  erewrite bind_done.
  2:{ apply await_no_fault. apply Room_create_accepts; simpl; [|done..].
      by rewrite roomIdOf_empty. }
  erewrite bind_done by (by apply await_no_fault).
  erewrite bind_done by reflexivity.
  erewrite bind_done by reflexivity.
  destruct w. unfold console_log, emit, local, with_outbox, with_rooms, with_stdout.
  simpl. by rewrite <- app_assoc.
Qed.

(** The schema refuses a room without a name: the failure is logged and
    reported, and nothing is stored. *)
Lemma create_room_empty sid now w :
  Room_findOne "" w = None →
  handler engine sid now (create_room "") None w
  = (Done tt, None,
     with_outbox (λ o, o ++ [mkEmit (SocketEmit sid) (error "Failed to create room")])
       (with_console (λ c, c ++ ["Error creating room:"]) w)).
Proof.
  intros H. cbn [handler]. unfold on_create_room. cbv zeta.
  change (roomIdOf "") with "".
  erewrite try_catch_thrown.
  2:{ erewrite bind_done by (by apply await_no_fault). rewrite H.
      apply bind_thrown. unfold await, Room_create. simpl. reflexivity. }
  by destruct w.
Qed.

(** C5, as the handler behaves.  For a name that is not empty,
    [create_room] is idempotent.  The derived identifier is the name
    lower-cased with every run of white space replaced by one separator;
    after a first [create_room name], a second one changes nothing at all:
    no room is added, nothing is emitted (no broadcast, no error), nothing
    is logged, and exactly one room has the derived identifier ("general"
    for the name "General").  No store call is rejected in either run.
    The empty name derives the empty identifier, which the schema refuses:
    [create_room] then stores nothing, logs the failure and sends the
    failure event, every time it is invoked. *)
Theorem create_room_idempotent (sid1 sid2 : string) (now1 now2 : nat)
    (w : World) (roomName : string) :
  unique_roomIds w →
  roomName ≠ "" →
  let w1 := handle engine sid1 now1 (create_room roomName) None w in
  let w2 := handle engine sid2 now2 (create_room roomName) None w1 in
  let refused sid w0 :=
    with_outbox (λ o, o ++ [mkEmit (SocketEmit sid) (error "Failed to create room")])
      (with_console (λ c, c ++ ["Error creating room:"]) w0) in
  w2 = w1
  ∧ db_rooms w2 = db_rooms w1
  ∧ outbox w2 = outbox w1
  ∧ console w2 = console w1
  ∧ length (List.filter (has_roomId (roomIdOf roomName)) (db_rooms w2)) = 1
  ∧ unique_roomIds w2
  ∧ slug_of roomName (roomIdOf roomName)
  ∧ roomIdOf "General" = "general"
  ∧ roomIdOf "" = ""
  ∧ (Room_findOne "" w = None →
     handle engine sid1 now1 (create_room "") None w = refused sid1 w
     ∧ handle engine sid2 now2 (create_room "") None (refused sid1 w)
       = refused sid2 (refused sid1 w)).
Proof.
  intros Hnd Hname. cbv zeta. unfold handle.
  set (r := Room.of_draft now1 (Room.mkDraft (roomIdOf roomName) roomName (Some sid1))).
  assert (H1 : ∃ w1 r1,
    (handler engine sid1 now1 (create_room roomName) None w).2 = w1
    ∧ Room_findOne (roomIdOf roomName) w1 = Some r1
    ∧ unique_roomIds w1
    ∧ length (List.filter (has_roomId (roomIdOf roomName)) (db_rooms w1)) = 1).
  { destruct (Room_findOne (roomIdOf roomName) w) as [r0|] eqn:E.
    - exists w, r0. rewrite (create_room_existing _ _ _ _ _ E).
      repeat split; try done. by eapply filter_unique_roomId.
    - eexists _, r.
      rewrite (create_room_new _ _ _ _ Hname E).
      assert (Hr : has_roomId (roomIdOf roomName) r = true)
        by (by apply bool_decide_eq_true_2).
      split; [reflexivity|].
      unfold Room_findOne, unique_roomIds in *. destruct w; simpl in *.
      repeat split.
      + by apply find_app_last.
      + rewrite map_app. simpl. apply NoDup_app. repeat split; [done| |].
        * intros x Hx Hx'. apply list_elem_of_singleton in Hx' as ->.
          apply list_elem_of_fmap_1 in Hx as (y & Hy & Hin).
          apply (proj1 (find_none _ _) E) in Hin.
          unfold has_roomId in Hin. apply bool_decide_eq_false_1 in Hin.
          by apply Hin.
        * apply NoDup_singleton.
      + rewrite List.filter_app, (filter_none _ _ E). simpl.
        unfold has_roomId. simpl. by rewrite bool_decide_eq_true_2. }
  destruct H1 as (w1 & r1 & -> & Hfind & Hnd1 & Hone).
  rewrite (create_room_existing _ _ _ _ _ Hfind). cbn [snd].
  split_and!; try done.
  - apply roomIdOf_slug.
  - intros Hnone. rewrite !create_room_empty; [done| |done]. by destruct w.
Qed.

End Create_room.

(** ** Search *)

Lemma compile_literal q : literal q = true → Regex.compile q = Some (literals q).
Proof.
  induction q as [|c r IH]; [done|]. simpl.
  intros [Hc Hr]%andb_prop. apply negb_true_iff in Hc.
  destruct (Ascii.eqb c ".") eqn:E.
  - apply Ascii.eqb_eq in E. subst c. discriminate Hc.
  - rewrite Hc, (IH Hr). done.
Qed.

Lemma match_here_literals q s :
  Regex.match_here (literals q) s = true
  ↔ ∃ post, Js.toLowerCase s = Js.toLowerCase q +:+ post.
Proof.
  revert s. induction q as [|x q IH]; intros s; simpl.
  - split; [by exists (Js.toLowerCase s) | done].
  - destruct s as [|c r]; simpl.
    + split; [done | by intros [post H]].
    + rewrite andb_true_iff, IH, Ascii.eqb_eq. split.
      * intros [Hx [post Hr]]. exists post. by rewrite append_cons, Hx, Hr.
      * intros [post H]. rewrite append_cons in H. injection H as Hc Hr.
        split; [done | by exists post].
Qed.

Lemma toLowerCase_empty q : Js.toLowerCase q = "" → q = "".
Proof. by destruct q. Qed.

Lemma search_literals q s :
  Regex.search (literals q) s = true ↔ contains_ci q s.
Proof.
  unfold contains_ci. induction s as [|c r IH]; simpl.
  - rewrite orb_false_r, match_here_literals. split.
    + intros [post H]. by exists "", post.
    + intros (pre & post & H). destruct pre; [by exists post|].
      rewrite append_cons in H. discriminate H.
  - rewrite orb_true_iff, match_here_literals, IH. simpl. split.
    + intros [[post H] | (pre & post & H)].
      * by exists "", post.
      * exists (String (Js.lower_char c) pre), post. by rewrite append_cons, H.
    + intros (pre & post & H). destruct pre as [|x pre].
      * left. by exists post.
      * right. rewrite append_cons in H. injection H as _ H. by exists pre, post.
Qed.

Lemma search_filter_wanted q roomId m :
  search_filter (Regex.search (literals q)) roomId m = true ↔ wanted q roomId m.
Proof.
  unfold search_filter, wanted.
  rewrite andb_true_iff, orb_true_iff, !search_literals.
  destruct (Js.truthy roomId); unfold in_room.
  - rewrite bool_decide_eq_true. split; intros [H1 H2]; split; auto.
  - split; intros [H1 H2]; split; auto. discriminate.
Qed.

Section Search.

Context (engine : Engine).

(** C6, as the code behaves.  For a query text without pattern
    metacharacters, both search paths return the messages whose text or
    sender name contains the query as a case-insensitive substring (in the
    given room when one is given), newest first, at most fifty of them. *)
Theorem search_contract (sid : string) (now : nat) (w : World) (q : string)
    (roomId : option string) :
  literal q = true →
  let found :=
    List.filter (search_filter (Regex.search (literals q)) roomId) (db_messages w) in
  let results := take 50 (sort_desc found) in
  handler engine sid now (search_messages q roomId) None w
  = (Done tt, None,
     with_outbox (λ o, o ++ [mkEmit (SocketEmit sid) (search_results results q)]) w)
  ∧ (q ≠ "" →
     api_search engine (Some q) roomId None w = (Done (json_search results q), None, w))
  ∧ (∀ m, m ∈ found ↔ m ∈ db_messages w ∧ wanted q roomId m)
  ∧ sort_desc found ≡ₚ found
  ∧ StronglySorted newer_first results
  ∧ length results ≤ 50
  ∧ (∀ m, m ∈ results → m ∈ db_messages w ∧ wanted q roomId m)
  ∧ (length found ≤ 50 →
     ∀ m, m ∈ db_messages w → wanted q roomId m → m ∈ results).
Proof.
  intros Hq. cbv zeta.
  assert (Hrx : regex_i engine q = Some (Regex.search (literals q))).
  { unfold regex_i. by rewrite compile_literal. }
  assert (Hfound : ∀ m,
    m ∈ List.filter (search_filter (Regex.search (literals q)) roomId) (db_messages w)
    ↔ m ∈ db_messages w ∧ wanted q roomId m).
  { intros m. rewrite list_elem_of_In, filter_In, <- list_elem_of_In.
    by rewrite search_filter_wanted. }
  split_and!.
  - cbn [handler]. unfold on_search_messages. apply try_catch_done.
    erewrite bind_done.
    2:{ apply await_no_fault. unfold Message_search. by rewrite Hrx. }
    reflexivity.
  - intros Hne. unfold api_search.
    assert (Ht : Js.truthy (Some q) = true) by (by destruct q).
    rewrite Ht. apply try_catch_done. change (negb true) with false. cbv iota.
    change (default "" (Some q)) with q.
    erewrite bind_done.
    2:{ apply await_no_fault. unfold Message_search. by rewrite Hrx. }
    reflexivity.
  - done.
  - apply sort_desc_perm.
  - rewrite <- (drop_0 (sort_desc _)). apply window_sorted, sort_desc_sorted.
  - rewrite length_take. lia.
  - intros m H. apply subseteq_take in H. rewrite sort_desc_perm in H.
    by apply Hfound in H.
  - intros Hlen m Hm Hw. rewrite take_ge by (by rewrite sort_desc_length).
    rewrite sort_desc_perm. by apply Hfound.
Qed.

End Search.

(** ** Coercion of the paging parameters *)




Lemma try_catch_returns {A} (body h : Handler A) :
  (∀ p w, ∃ a p' w', h p w = (Done a, p', w')) →
  ∀ p w, ∃ a p' w', try_catch body h p w = (Done a, p', w').
Proof.
  intros Hh p w. unfold try_catch.
  destruct (body p w) as [[[a|] p'] w']; [by exists a, p', w' | apply Hh].
Qed.

Section Paging_parameters.

Context (engine : Engine).


End Paging_parameters.


(** ** Private messages *)

Lemma page_covers roomId w m limit :
  m ∈ room_messages roomId w → 1 ≤ limit →
  ∃ offset, m ∈ page roomId offset limit w.
Proof.
  intros Hm Hl. rewrite <- (sort_desc_perm (room_messages roomId w)) in Hm.
  apply list_elem_of_lookup_1 in Hm as [i Hi]. exists i.
  unfold page. apply elem_of_reverse, elem_of_take. exists 0.
  split; [|lia]. by rewrite lookup_drop, Nat.add_0_r.
Qed.

Section Private_messages.

Context (engine : Engine).

Lemma search_messages_run sid now w q roomId :
  literal q = true →
  handler engine sid now (search_messages q roomId) None w
  = (Done tt, None,
     with_outbox
       (λ o, o ++ [mkEmit (SocketEmit sid)
                     (search_results
                        (take 50 (sort_desc
                           (List.filter
                              (search_filter (Regex.search (literals q)) roomId)
                              (db_messages w))))
                        q)])
       w).
Proof.
  intros Hq. cbn [handler]. unfold on_search_messages. apply try_catch_done.
  erewrite bind_done.
  2:{ apply await_no_fault. unfold Message_search, regex_i.
      by rewrite compile_literal. }
  reflexivity.
Qed.

Lemma private_message_run sid now w to message :
  let m := private_note sid now w to message in
  handler engine sid now (private_message to message) None w
  = (Done tt, None,
     with_outbox
       (λ o, o ++ [mkEmit (IoTo to) (private_message_event m);
                   mkEmit (SocketEmit sid) (private_message_event m);
                   mkEmit (IoTo to)
                     (new_message_notification
                        ("Private message from "
                         +:+ sender_name (User_findOne sid w) +:+ ": " +:+ message)
                        (sender_name (User_findOne sid w)) None true false);
                   mkEmit (SocketEmit sid) (message_delivered (Message._id m))])
       (with_next_id (S (next_id w)) (with_messages (λ l, l ++ [m]) w))).
Proof.
  cbv zeta. cbn [handler]. unfold on_private_message. apply try_catch_done.
  erewrite bind_done by (by apply await_no_fault).
  erewrite bind_done by (by apply await_no_fault).
  do 3 (erewrite bind_done by reflexivity).
  destruct w. unfold emit, local, with_outbox, with_next_id, with_messages,
    private_note. simpl. by rewrite <- !app_assoc.
Qed.

(** C10.  The message stored by [private_message] has [room = "general"]
    (the schema default: the handler gives no room) and is private.  It is
    therefore one of the messages of "general" that [load_messages] pages
    through: for every limit there is an offset at which the page sent to
    the requester contains it.  And a search that is not restricted to
    another room and whose text occurs in it or in its sender's name finds
    it; it is in the results sent unless fifty newer matches cut it off. *)
Theorem private_message_lands_in_general (sid : string) (now : nat)
    (w : World) (to message : string) :
  let w' := handle engine sid now (private_message to message) None w in
  let m := private_note sid now w to message in
  db_messages w' = db_messages w ++ [m]
  ∧ Message.room m = "general"
  ∧ Message.isPrivate m = true
  ∧ Message.recipient m = Some to
  ∧ Message.message m = message
  ∧ m ∈ room_messages "general" w'
  ∧ (∀ sid' now' limit, 1 ≤ limit →
       ∃ offset,
         handler engine sid' now'
           (load_messages (Some (Js.of_nat offset)) (Some (Js.of_nat limit))
              (Some "general")) None w'
         = (Done tt, None,
            with_outbox
              (λ o, o ++ [mkEmit (SocketEmit sid')
                            (messages_loaded (page "general" offset limit w')
                               (hasMore "general" offset limit w'))])
              w')
         ∧ m ∈ page "general" offset limit w')
  ∧ (∀ sid' now' q roomId,
       literal q = true →
       contains_ci q message ∨ contains_ci q (Message.sender m) →
       reaches_general roomId →
       let found :=
         List.filter (search_filter (Regex.search (literals q)) roomId)
           (db_messages w') in
       handler engine sid' now' (search_messages q roomId) None w'
       = (Done tt, None,
          with_outbox
            (λ o, o ++ [mkEmit (SocketEmit sid')
                          (search_results (take 50 (sort_desc found)) q)])
            w')
       ∧ m ∈ found
       ∧ (length found ≤ 50 → m ∈ take 50 (sort_desc found))).
Proof.
  cbv zeta. unfold handle. rewrite private_message_run. cbn [snd].
  set (m := private_note sid now w to message).
  set (w' := with_outbox _ _).
  assert (Hdb : db_messages w' = db_messages w ++ [m]) by (by destruct w).
  assert (Hin : m ∈ room_messages "general" w').
  { unfold room_messages. rewrite Hdb, List.filter_app. apply elem_of_app. right.
    simpl. apply list_elem_of_here. }
  split_and!; try done.
  - intros sid' now' limit Hl.
    destruct (page_covers "general" w' m limit Hin Hl) as [offset Ho].
    exists offset. split; [by apply load_messages_run | done].
  - intros sid' now' q roomId Hq Hc Hr. cbv zeta.
    assert (Hf : m ∈ List.filter (search_filter (Regex.search (literals q)) roomId)
                   (db_messages w')).
    { apply list_elem_of_In, filter_In. split.
      - apply list_elem_of_In. rewrite Hdb. apply elem_of_app. right.
        apply list_elem_of_here.
      - apply search_filter_wanted. split; [done|].
        intros Ht. destruct Hr as [Hr | ->]; [congruence | done]. }
    split_and!; [by apply search_messages_run | done |].
    intros Hlen. rewrite take_ge by (by rewrite sort_desc_length).
    by rewrite sort_desc_perm.
Qed.

End Private_messages.

(** ** Evaluations on the sample worlds *)

Lemma add_reaction_unknown_id_witness :
  outbox (handle Sample.engine "s1" 4 (add_reaction (ObjectId 7) "+1") None
            Sample.chatty)
  = outbox Sample.chatty ++ [mkEmit IoEmit (reaction_added (ObjectId 7) "+1" "s1")].
Proof.
  apply (add_reaction_unknown_id Sample.engine "s1" 4 Sample.chatty 7 "" "+1" None).
  intros m Hm Hid. apply list_elem_of_In in Hm. vm_compute in Hm.
  destruct Hm as [<-|[<-|[<-|[]]]]; vm_compute in Hid; discriminate Hid.
Defined.

(** C7, as stated, fails: an identifier that does not cast to an
    [ObjectId] identifies no stored message, and reacting with it
    broadcasts nothing: the store rejects the call and the handler only
    logs the failure. *)
Lemma add_reaction_malformed_id_only_logs :
  let w := Sample.chatty in
  let w' := handle Sample.engine "s1" 4 (add_reaction (not_an_id "abc") "+1") None w in
  outbox w' = outbox w
  ∧ console w' = console w ++ ["Error adding reaction:"]
  ∧ db_messages w' = db_messages w
  ∧ outbox w' ≠ outbox w ++ [mkEmit IoEmit (reaction_added (not_an_id "abc") "+1" "s1")].
Proof.
  cbv zeta. split_and!; [by vm_compute | by vm_compute | by vm_compute |].
  intros H. vm_compute in H. discriminate H.
Qed.



Lemma page_contract_witness :
  handler Sample.engine "s2" 200
    (load_messages (Some (Js.of_nat 100)) (Some (Js.of_nat 50)) (Some "general"))
    None Sample.busy
  = (Done tt, None,
     with_outbox
       (λ out, out ++ [mkEmit (SocketEmit "s2")
                         (messages_loaded (page "general" 100 50 Sample.busy)
                            (hasMore "general" 100 50 Sample.busy))])
       Sample.busy)
  ∧ length (page "general" 100 50 Sample.busy) = 20
  ∧ hasMore "general" 100 50 Sample.busy = false.
Proof.
  pose proof (page_contract Sample.engine "s2" 200 Sample.busy "general" 100 50
                "100" "50" "0") as H.
  cbv zeta in H.
  destruct H as (H1 & _ & _ & _ & _ & _ & _ & _ & _ & H2 & _).
  - discriminate.
  - lia.
  - reflexivity.
  - reflexivity.
  - reflexivity.
  - split; [exact H1|]. apply H2; [by vm_compute|reflexivity|reflexivity].
Defined.

(** C4, as stated, fails at a limit of 0: the store then applies no limit,
    and the page holds all the 120 messages of the room, not at most 0. *)
Lemma page_limit_zero_is_no_limit :
  let w' := handle Sample.engine "s2" 200
              (load_messages (Some (Js.of_nat 0)) (Some (Js.of_nat 0)) (Some "general"))
              None Sample.busy in
  length (room_messages "general" Sample.busy) = 120
  ∧ last (outbox w')
    = Some (mkEmit (SocketEmit "s2")
              (messages_loaded (page "general" 0 120 Sample.busy) true))
  ∧ length (page "general" 0 120 Sample.busy) = 120
  ∧ ¬ length (page "general" 0 120 Sample.busy) ≤ 0.
Proof.
  cbv zeta.
  assert (H : length (page "general" 0 120 Sample.busy) = 120) by (by vm_compute).
  split_and!; [by vm_compute | by vm_compute | done | lia].
Qed.

Lemma share_file_breaks_messageCount_witness :
  ¬ count_consistent
      (handle Sample.engine "s1" 3
         (share_file "a.png" "/files/a.png" "image/png" None) None Sample.started).
Proof.
  apply (share_file_breaks_messageCount Sample.engine "s1" 3 Sample.started
           "a.png" "/files/a.png" "image/png" None
           (Room.of_draft 0 (Room.mkDraft "general" "General" None))).
  - vm_compute. apply list_elem_of_here.
  - reflexivity.
  - intros r Hr. apply list_elem_of_In in Hr. vm_compute in Hr.
    destruct Hr as [<-|[<-|[]]]; reflexivity.
Defined.

Lemma share_file_notifies_nobody_witness :
  outbox (handle Sample.engine "s1" 3
            (share_file "a.png" "/files/a.png" "image/png" None) None Sample.joined)
  = outbox Sample.joined
    ++ [mkEmit IoEmit
          (receive_message
             (shared_file "s1" 3 Sample.joined "a.png" "/files/a.png" "image/png" None));
        mkEmit (SocketEmit "s1")
          (message_delivered
             (Message._id
                (shared_file "s1" 3 Sample.joined "a.png" "/files/a.png"
                   "image/png" None)))].
Proof.
  apply (share_file_notifies_nobody Sample.engine "s1" 3 Sample.joined
           "a.png" "/files/a.png" "image/png" None).
  reflexivity.
Defined.

(** The connections [s1] and [s2] are both in [io.sockets.sockets]; after
    [s1] shares a file the only events added are the broadcast and the
    receipt of [s1]. *)
Example share_file_connected_sockets :
  map fst (Js.entries (io_sockets Sample.joined)) = ["s1"; "s2"]
  ∧ Js.Object_keys (io_sockets Sample.joined) = []
  ∧ map target
      (drop (length (outbox Sample.joined))
         (outbox (handle Sample.engine "s1" 3
                    (share_file "a.png" "/files/a.png" "image/png" None) None
                    Sample.joined)))
    = [IoEmit; SocketEmit "s1"].
Proof. by vm_compute. Qed.

(** The third store call of [send_message], the increment of the room's
    counter, is the one rejected. *)
Lemma store_failure_policy_witness :
  let w' := handle Sample.engine "s1" 3 (send_message "hi" None) (Some 2)
              Sample.joined in
  console w' = console Sample.joined ++ ["Error sending message:"]
  ∧ last (outbox w')
    = Some (mkEmit (SocketEmit "s1") (error "Failed to send message")).
Proof.
  pose proof (store_failure_policy Sample.engine "s1" 3 (send_message "hi" None)
                (Some 2) Sample.joined) as H.
  cbv zeta in H. destruct H as (_ & H & _).
  assert (Hfired : (handler Sample.engine "s1" 3 (send_message "hi" None) (Some 2)
                      Sample.joined).1.2 = None) by (by vm_compute).
  destruct (H 2 eq_refl Hfired) as [H1 H2].
  split; [exact H1 | by apply H2].
Defined.

(** [send_message] to a room makes four store calls: the look-up of the
    sender, the insert of the message, the increment of the room's
    counter, the look-up of the users to notify.  Whichever of them is
    rejected, the failure is logged and the sender gets the failure event
    last. *)
Example send_message_fails_at_each_call :
  Forall
    (λ k,
       let w' := handle Sample.engine "s1" 3 (send_message "hi" (Some "general"))
                   (Some k) Sample.joined in
       console w' = console Sample.joined ++ ["Error sending message:"]
       ∧ last (outbox w')
         = Some (mkEmit (SocketEmit "s1") (error "Failed to send message")))
    [0; 1; 2; 3].
Proof.
  repeat (apply List.Forall_cons; [cbv zeta; split; by vm_compute|]).
  apply List.Forall_nil.
Qed.

(** C3, as stated, fails: the store call of [add_reaction], of
    [message_read] and of [typing] is rejected, the failure is logged, and
    the originating connection receives nothing. *)
Lemma silent_handlers_report_nothing :
  let w := Sample.joined in
  (console (handle Sample.engine "s1" 3 (add_reaction (ObjectId 7) "+1") (Some 0) w)
   = console w ++ ["Error adding reaction:"]
   ∧ outbox (handle Sample.engine "s1" 3 (add_reaction (ObjectId 7) "+1") (Some 0) w)
     = outbox w)
  ∧ (console (handle Sample.engine "s1" 3 (message_read (ObjectId 7)) (Some 0) w)
     = console w ++ ["Error marking message as read:"]
     ∧ outbox (handle Sample.engine "s1" 3 (message_read (ObjectId 7)) (Some 0) w)
       = outbox w)
  ∧ (console (handle Sample.engine "s1" 3 (typing true) (Some 0) w)
     = console w ++ ["Error in typing handler:"]
     ∧ outbox (handle Sample.engine "s1" 3 (typing true) (Some 0) w) = outbox w).
Proof. cbv zeta. split_and!; by vm_compute. Qed.

Lemma create_room_idempotent_witness :
  handle Sample.engine "s2" 4 (create_room "Dev  Team") None
    (handle Sample.engine "s1" 3 (create_room "Dev  Team") None Sample.joined)
  = handle Sample.engine "s1" 3 (create_room "Dev  Team") None Sample.joined.
Proof.
  apply (create_room_idempotent Sample.engine "s1" "s2" 3 4 Sample.joined "Dev  Team").
  - apply (bool_decide_unpack _). by vm_compute.
  - discriminate.
Defined.

(** C5, as stated, fails for the empty name: the schema refuses a room
    without identifier and name, so that after two invocations no room has
    the derived identifier, and each invocation logged the failure and
    sent the failure event. *)
Lemma create_room_empty_name_is_refused :
  let w := Sample.joined in
  let w1 := handle Sample.engine "s1" 3 (create_room "") None w in
  let w2 := handle Sample.engine "s2" 4 (create_room "") None w1 in
  roomIdOf "" = ""
  ∧ length (List.filter (has_roomId (roomIdOf "")) (db_rooms w2)) = 0
  ∧ db_rooms w2 = db_rooms w
  ∧ outbox w1
    = outbox w ++ [mkEmit (SocketEmit "s1") (error "Failed to create room")]
  ∧ outbox w2
    = outbox w1 ++ [mkEmit (SocketEmit "s2") (error "Failed to create room")]
  ∧ console w2
    = console w ++ ["Error creating room:"; "Error creating room:"]
  ∧ w2 ≠ w1.
Proof.
  cbv zeta. split_and!; by vm_compute.
Qed.

Example create_room_examples :
  roomIdOf "General" = "general"
  ∧ roomIdOf "Dev  Team" = "dev-team"
  ∧ map Room.roomId
      (db_rooms (handle Sample.engine "s2" 4 (create_room "General") None
                   (handle Sample.engine "s1" 3 (create_room "General") None
                      Sample.started)))
    = ["general"; "random"].
Proof. by vm_compute. Qed.

Lemma search_contract_witness :
  handler Sample.engine "s2" 9 (search_messages "hello" None) None Sample.chatty
  = (Done tt, None,
     with_outbox
       (λ o, o ++ [mkEmit (SocketEmit "s2")
                     (search_results
                        (take 50 (sort_desc
                           (List.filter
                              (search_filter (Regex.search (literals "hello")) None)
                              (db_messages Sample.chatty))))
                        "hello")])
       Sample.chatty).
Proof.
  pose proof (search_contract Sample.engine "s2" 9 Sample.chatty "hello" None
                eq_refl) as H.
  cbv zeta in H. destruct H as (H & _). exact H.
Defined.

(** Searching "hello" finds the message "Hello there" and the message sent
    by "Hello123", the newer one first. *)
Example search_hello :
  map (λ m, (Message.sender m, Message.message m))
    (take 50 (sort_desc
       (List.filter (search_filter (Regex.search (literals "hello")) None)
          (db_messages Sample.chatty))))
  = [("Hello123", "good morning"); ("alice", "Hello there")].
Proof. by vm_compute. Qed.

Lemma no_dot_in_ok : ¬ contains_ci "." "ok".
Proof.
  intros (pre & post & H). cbv in H.
  destruct pre as [|a [|b [|c pre]]]; cbv in H; discriminate H.
Qed.

Lemma no_dot_in_bob : ¬ contains_ci "." "bob".
Proof.
  intros (pre & post & H). cbv in H.
  destruct pre as [|a [|b [|c [|d pre]]]]; cbv in H; discriminate H.
Qed.

(** C6, as stated, fails: the query text is a pattern.  A search for "."
    returns bob's message "ok", although neither "ok" nor "bob" contains
    a dot. *)
Lemma search_pattern_is_not_substring :
  let w' := handle Sample.engine "s2" 9 (search_messages "." None) None Sample.chatty in
  ∃ m results,
    last (outbox w') = Some (mkEmit (SocketEmit "s2") (search_results results "."))
    ∧ m ∈ results
    ∧ Message.message m = "ok"
    ∧ Message.sender m = "bob"
    ∧ ¬ contains_ci "." (Message.message m)
    ∧ ¬ contains_ci "." (Message.sender m).
Proof.
  cbv zeta.
  exists (Message.mk 2 "bob" "s2" "ok" "random" None None None
            false false None true false ∅ 3),
         (reverse (db_messages Sample.chatty)).
  split_and!.
  - by vm_compute.
  - vm_compute. apply list_elem_of_here.
  - reflexivity.
  - reflexivity.
  - apply no_dot_in_ok.
  - apply no_dot_in_bob.
Qed.


Lemma private_message_lands_in_general_witness :
  private_note "s1" 3 Sample.joined "s2" "psst"
  ∈ room_messages "general"
      (handle Sample.engine "s1" 3 (private_message "s2" "psst") None Sample.joined).
Proof.
  apply (private_message_lands_in_general Sample.engine "s1" 3 Sample.joined "s2" "psst").
Defined.

(** * Further properties of the handlers *)

(** Reduces the record updates of a world, and nothing else. *)
Ltac world_simpl :=
  cbv [emit console_log local gets online with_outbox with_rooms with_users
       with_messages with_next_id with_typing with_subscriptions with_console
       with_stdout db_users db_rooms db_messages next_id typingUsers io_sockets
       subscriptions outbox console stdout].

(** ** No exception leaves a handler *)

Lemma logs_and_reports_returns line t pl p w :
  ∃ a p' w', (console_error line;; emit t pl) p w = (Done a, p', w').
Proof. by eexists _, _, _. Qed.

Lemma logs_returns line p w :
  ∃ a p' w', console_error line p w = (Done a, p', w').
Proof. by eexists _, _, _. Qed.

Lemma logs_and_answers_returns {A} line (r : A) p w :
  ∃ a p' w', (console_error line;; mret r) p w = (Done a, p', w').
Proof. by eexists _, _, _. Qed.

Section Never_throws.

Context (engine : Engine).

(** Whatever the event, the state and the store call that is rejected,
    the handler returns: every rejection is caught inside it.  The same
    holds for [initializeRooms] and for the four routes that read the
    store. *)
Theorem handlers_never_throw (sid : string) (now : nat) (e : Inbound)
    (p : option nat) (w : World) :
  (∃ p' w', handler engine sid now e p w = (Done tt, p', w'))
  ∧ (∃ p' w', initializeRooms now p w = (Done tt, p', w'))
  ∧ (∀ offset limit room,
       ∃ r p' w', api_messages engine offset limit room p w = (Done r, p', w'))
  ∧ (∀ q room, ∃ r p' w', api_search engine q room p w = (Done r, p', w'))
  ∧ (∃ r p' w', api_users p w = (Done r, p', w'))
  ∧ (∃ r p' w', api_rooms p w = (Done r, p', w')).
Proof.
  split_and!.
  - assert (H : ∃ a p' w', handler engine sid now e p w = (Done a, p', w')).
    { destruct e; cbn [handler];
        first [ apply try_catch_returns, logs_and_reports_returns
              | apply try_catch_returns, logs_returns ]. }
    destruct H as ([] & p' & w' & H). by exists p', w'.
  - assert (H : ∃ a p' w', initializeRooms now p w = (Done a, p', w'))
      by apply try_catch_returns, logs_returns.
    destruct H as ([] & p' & w' & H). by exists p', w'.
  - intros offset limit room. apply try_catch_returns, logs_and_answers_returns.
  - intros q room. apply try_catch_returns, logs_and_answers_returns.
  - apply try_catch_returns, logs_and_answers_returns.
  - apply try_catch_returns, logs_and_answers_returns.
Qed.

End Never_throws.

(** ** Relations on the database that every step respects *)

Section Keeps.

Context (R : relation World) `{!PreOrder R}.

Lemma keeps_ret {A} (a : A) : respects R (mret a).
Proof. intros p w. simpl. reflexivity. Qed.

Lemma keeps_gets {A} (f : World → A) : respects R (gets f).
Proof. intros p w. simpl. reflexivity. Qed.

Lemma keeps_bind {A B} (m : Handler A) (k : A → Handler B) :
  respects R m → (∀ a, respects R (k a)) → respects R (m ≫= k).
Proof.
  intros Hm Hk p w. unfold mbind, Handler_bind, bind.
  specialize (Hm p w). destruct (m p w) as [[[a|] p'] w']; simpl in *; [|done].
  etrans; [exact Hm | apply Hk].
Qed.

Lemma keeps_try_catch {A} (body h : Handler A) :
  respects R body → respects R h → respects R (try_catch body h).
Proof.
  intros Hb Hh p w. unfold try_catch.
  specialize (Hb p w). destruct (body p w) as [[[a|] p'] w']; simpl in *; [done|].
  etrans; [exact Hb | apply Hh].
Qed.

Lemma keeps_await {A} (op : World → option (A * World)) :
  (∀ w a w', op w = Some (a, w') → R w w') → respects R (await op).
Proof.
  intros Hop p w. unfold await.
  destruct p as [[|k]|]; simpl; [reflexivity| |];
    (destruct (op w) as [[a w']|] eqn:E; simpl; [by eapply Hop | reflexivity]).
Qed.

Lemma keeps_local (f : World → World) :
  (∀ w, R w (f w)) → respects R (local f).
Proof. intros Hf p w. simpl. apply Hf. Qed.

Lemma keeps_for_each {A} (l : list A) (f : A → Handler unit) :
  (∀ x, respects R (f x)) → respects R (for_each l f).
Proof.
  intros Hf. induction l as [|x l IH]; simpl.
  - apply keeps_ret.
  - by apply (keeps_bind (f x) (λ _, for_each l f)).
Qed.

Lemma query_keeps {A} (q : World → A) w a w' :
  query q w = Some (a, w') → R w w'.
Proof. unfold query. intros [= _ <-]. reflexivity. Qed.

Lemma update_keeps (f : World → World) w a w' :
  (∀ w, R w (f w)) → update f w = Some (a, w') → R w w'.
Proof. unfold update. intros Hf [= _ <-]. apply Hf. Qed.

End Keeps.

(** Decomposes a handler into its steps; [solver] settles what each store
    call and each local step does to the relation. *)
Ltac keeps_with solver :=
  unfold emit, console_error, console_log, socket_join, socket_leave; cbv zeta;
  repeat first
    [ frame_apply @keeps_try_catch
    | frame_apply @keeps_bind; [|intros ?]
    | frame_apply @keeps_ret
    | frame_apply @keeps_gets
    | frame_apply @keeps_for_each; intros ?
    | frame_apply @keeps_await; intros ? ? ? ?;
        first [ solve [eapply query_keeps; try eassumption; apply _]
              | eapply update_keeps; try eassumption; try (solve [apply _]);
                intros ?; solve [solver]
              | solve [solver] ]
    | frame_apply @keeps_local; intros ?; solve [solver]
    | match goal with
      | |- respects _ (match ?x with _ => _ end) => destruct x
      end ].

(** ** Collections that only grow *)

Section Grows.

Context {A : Type} (E : relation A) `{!PreOrder E}.

Lemma grows_refl (l : list A) : grows E l l.
Proof.
  exists l, []. split; [by rewrite app_nil_r|].
  induction l; constructor; [reflexivity | done].
Qed.

Lemma grows_trans (l1 l2 l3 : list A) :
  grows E l1 l2 → grows E l2 l3 → grows E l1 l3.
Proof.
  intros (k1 & x1 & -> & F1) (k2 & x2 & -> & F2).
  apply Forall2_app_inv_l in F2 as (k2a & k2b & Fa & Fb & ->).
  exists k2a, (k2b ++ x2). split; [by rewrite app_assoc|].
  clear Fb. revert k2a Fa. induction F1 as [|a b l k Hab F1 IH]; intros k2a Fa.
  - apply Forall2_nil_inv_l in Fa as ->. constructor.
  - apply Forall2_cons_inv_l in Fa as (c & k' & Hbc & Fa & ->).
    constructor; [by etrans | by apply IH].
Qed.

Lemma grows_snoc (l : list A) (x : A) : grows E l (l ++ [x]).
Proof.
  exists l, [x]. split; [done|].
  induction l; constructor; [reflexivity | done].
Qed.

Lemma grows_update_first (P : A → bool) (f : A → A) (l : list A) :
  (∀ x, P x = true → E x (f x)) → grows E l (update_first P f l).
Proof.
  intros Hf. exists (update_first P f l), []. split; [by rewrite app_nil_r|].
  induction l as [|x l IH]; simpl; [constructor|].
  destruct (P x) eqn:Hx.
  - constructor; [by apply Hf|]. induction l; constructor; [reflexivity | done].
  - constructor; [reflexivity | done].
Qed.

Lemma grows_update_many (P : A → bool) (f : A → A) (l : list A) :
  (∀ x, P x = true → E x (f x)) → grows E l (update_many P f l).
Proof.
  intros Hf. exists (update_many P f l), []. split; [by rewrite app_nil_r|].
  unfold update_many. induction l as [|x l IH]; simpl; constructor; [|done].
  destruct (P x) eqn:Hx; [by apply Hf | reflexivity].
Qed.

End Grows.

#[export] Instance grows_preorder {A} (E : relation A) `{!PreOrder E} :
  PreOrder (grows E).
Proof. split; [intros l; by apply grows_refl | intros l1 l2 l3; by apply grows_trans]. Qed.

#[export] Instance same_core_preorder : PreOrder same_core.
Proof.
  split.
  - intros m. unfold same_core. by split_and!.
  - intros a b c Hab Hbc. unfold same_core in *.
    destruct Hab as (?&?&?&?&?&?&?&?&?&?&?&?&?&?).
    destruct Hbc as (?&?&?&?&?&?&?&?&?&?&?&?&?&?).
    split_and!; try congruence. auto.
Qed.

#[export] Instance room_evolves_preorder : PreOrder room_evolves.
Proof.
  split.
  - intros r. unfold room_evolves. by split_and!.
  - intros a b c Hab Hbc. unfold room_evolves in *.
    destruct Hab as (?&?&?&?&?&?&?). destruct Hbc as (?&?&?&?&?&?&?).
    split_and!; try congruence. lia.
Qed.

#[export] Instance user_evolves_preorder : PreOrder user_evolves.
Proof.
  split; [by intros u | intros a b c]. unfold user_evolves. congruence.
Qed.

#[export] Instance history_kept_preorder : PreOrder history_kept.
Proof.
  split.
  - intros w. by split_and!.
  - intros w1 w2 w3 (U1 & R1 & M1) (U2 & R2 & M2).
    split_and!; by etrans.
Qed.

(** ** Nothing stored is deleted *)

Lemma history_same_db w w' : same_db w w' → history_kept w w'.
Proof.
  intros (H1 & H2 & H3). unfold history_kept. rewrite H1, H2, H3.
  by split_and!.
Qed.

Lemma history_with_outbox f w : history_kept w (with_outbox f w).
Proof. apply history_same_db. by destruct w. Qed.
Lemma history_with_console f w : history_kept w (with_console f w).
Proof. apply history_same_db. by destruct w. Qed.
Lemma history_with_typing f w : history_kept w (with_typing f w).
Proof. apply history_same_db. by destruct w. Qed.
Lemma history_with_subscriptions f w : history_kept w (with_subscriptions f w).
Proof. apply history_same_db. by destruct w. Qed.
Lemma history_with_stdout f w : history_kept w (with_stdout f w).
Proof. apply history_same_db. by destruct w. Qed.

Lemma history_update_users P f w :
  (∀ u, P u = true → user_evolves u (f u)) →
  history_kept w (with_users (update_first P f) w).
Proof.
  intros Hf. destruct w. split_and!; simpl; [|done..].
  by apply grows_update_first; [apply _|].
Qed.

Lemma history_update_rooms P f w :
  (∀ r, room_evolves r (f r)) →
  history_kept w (with_rooms (update_first P f) w).
Proof.
  intros Hf. destruct w. split_and!; simpl; [done| |done].
  apply grows_update_first; [apply _ | auto].
Qed.

Lemma history_update_many_rooms P f w :
  (∀ r, room_evolves r (f r)) →
  history_kept w (with_rooms (update_many P f) w).
Proof.
  intros Hf. destruct w. split_and!; simpl; [done| |done].
  apply grows_update_many; [apply _ | auto].
Qed.

Lemma history_update_messages P f w :
  (∀ m, same_core m (f m)) →
  history_kept w (with_messages (update_first P f) w).
Proof.
  intros Hf. destruct w. split_and!; simpl; [done..|].
  apply grows_update_first; [apply _ | auto].
Qed.

Lemma room_evolves_set_users g r : room_evolves r (Room.set_users g r).
Proof. unfold room_evolves. by split_and!. Qed.

Lemma room_evolves_inc r : room_evolves r (Room.inc_messageCount r).
Proof. unfold room_evolves. split_and!; try done. simpl. lia. Qed.

Lemma room_evolves_set_member engine id u r :
  room_evolves r (set_member engine id u r).
Proof.
  unfold set_member. destruct u; [apply room_evolves_set_users|].
  destruct (set_undefined_as_null engine); [apply room_evolves_set_users | done].
Qed.

Lemma same_core_set_reaction k v m : same_core m (Message.set_reaction k v m).
Proof. unfold same_core. by split_and!. Qed.

Lemma same_core_set_read m : same_core m (Message.set_read m).
Proof. unfold same_core. by split_and!. Qed.

Lemma user_evolves_set_currentRoom r u : user_evolves u (set_currentRoom r u).
Proof. done. Qed.

Lemma user_evolves_set_offline now u : user_evolves u (set_offline now u).
Proof. done. Qed.

Lemma history_User_upsert id name now w a w' :
  User_upsert id name now w = Some (a, w') → history_kept w w'.
Proof.
  unfold User_upsert. destruct (User_findOne id w); intros [= _ <-].
  - apply history_update_users. intros u Hu. unfold has_socketId in Hu.
    apply bool_decide_eq_true_1 in Hu. by unfold user_evolves.
  - destruct w. split_and!; simpl; [|done..]. by apply grows_snoc; apply _.
Qed.

Lemma history_User_set_offline id now w a w' :
  User_set_offline id now w = Some (a, w') → history_kept w w'.
Proof.
  unfold User_set_offline. intros [= _ <-]. by apply history_update_users.
Qed.

Lemma history_Message_create now d w a w' :
  Message_create now d w = Some (a, w') → history_kept w w'.
Proof.
  unfold Message_create. intros [= _ <-]. destruct w.
  split_and!; simpl; [done..|]. by apply grows_snoc; apply _.
Qed.

Lemma history_Room_create now d w a w' :
  Room_create now d w = Some (a, w') → history_kept w w'.
Proof.
  intros (_ & _ & _ & _ & ->)%Room_create_Some. destruct w.
  split_and!; simpl; [done| |done]. by apply grows_snoc; apply _.
Qed.

Lemma history_Message_findByIdAndUpdate id f w a w' :
  (∀ m, same_core m (f m)) →
  Message_findByIdAndUpdate id f w = Some (a, w') → history_kept w w'.
Proof.
  intros Hf (n & _ & ->)%Message_findByIdAndUpdate_Some.
  by apply history_update_messages.
Qed.

Lemma history_Message_find_page engine P s n w a w' :
  Message_find_page engine P s n w = Some (a, w') → history_kept w w'.
Proof.
  unfold Message_find_page. destruct (page_window _ _ _ _); [|done].
  by intros [= _ <-].
Qed.

Lemma history_Message_search engine q room w a w' :
  Message_search engine q room w = Some (a, w') → history_kept w w'.
Proof.
  unfold Message_search. destruct (regex_i _ _); [|done]. by intros [= _ <-].
Qed.

Create HintDb history.
#[export] Hint Resolve history_with_outbox history_with_console
  history_with_typing history_with_subscriptions history_with_stdout
  history_Message_findByIdAndUpdate history_update_users
  history_update_rooms history_update_many_rooms history_update_messages
  room_evolves_set_users room_evolves_inc room_evolves_set_member
  same_core_set_reaction same_core_set_read user_evolves_set_currentRoom
  user_evolves_set_offline history_User_upsert history_User_set_offline
  history_Message_create history_Room_create history_Message_find_page
  history_Message_search : history.

Section History.

Context (engine : Engine).

Lemma handler_keeps_history sid now e : respects history_kept (handler engine sid now e).
Proof.
  destruct e; cbn [handler];
    unfold on_user_join, on_send_message, on_create_room, on_join_room,
      on_typing, on_private_message, on_add_reaction, on_message_read,
      on_share_file, on_load_messages, on_search_messages, on_disconnect;
    keeps_with ltac:(eauto with history).
Qed.

End History.

Lemma grows_lookup {A} (E : relation A) (l l' : list A) i x :
  grows E l l' → l !! i = Some x → ∃ x', l' !! i = Some x' ∧ E x x'.
Proof.
  intros (kept & extra & -> & F) Hi.
  destruct (Forall2_lookup_l _ _ _ _ _ F Hi) as (x' & Hx' & HE).
  exists x'. split; [|done]. by apply lookup_app_l_Some.
Qed.

Lemma grows_length {A} (E : relation A) (l l' : list A) :
  grows E l l' → length l ≤ length l'.
Proof.
  intros (kept & extra & -> & F). rewrite length_app, (Forall2_length _ _ _ F). lia.
Qed.

Lemma run_respects engine (R : relation World) `{!PreOrder R} :
  (∀ sid now e, respects R (handler engine sid now e)) →
  ∀ trace w, R w (run engine trace w).
Proof.
  intros H trace. unfold run. induction trace as [|[[[sid now] e] p] trace IH];
    intros w; simpl; [reflexivity|].
  etrans; [|apply IH]. apply H.
Qed.

Section History_theorems.

Context (engine : Engine).

(** Messages are append-only.  After any sequence of events, with any
    store calls rejected, every message that was stored is still stored at
    the same position, with the same id, sender, text, room, file fields,
    flags, recipient and timestamp; only its reactions may differ, and its
    [read] flag may have gone from false to true. *)
Theorem messages_are_append_only (trace : list Invocation) (w : World)
    (i : nat) (m : Message.t) :
  db_messages w !! i = Some m →
  ∃ m', db_messages (run engine trace w) !! i = Some m' ∧ same_core m m'.
Proof.
  intros Hi.
  pose proof (run_respects engine history_kept (handler_keeps_history engine) trace w)
    as (_ & _ & H).
  by eapply grows_lookup.
Qed.

(** Rooms are never deleted or renamed, and [messageCount] never goes
    down: after any sequence of events, with any store calls rejected,
    every room is still at its position with the same [roomId], name,
    description, privacy flag and creator, and a counter at least as
    large. *)
Theorem rooms_are_kept (trace : list Invocation) (w : World)
    (i : nat) (r : Room.t) :
  db_rooms w !! i = Some r →
  ∃ r', db_rooms (run engine trace w) !! i = Some r'
        ∧ Room.roomId r' = Room.roomId r
        ∧ Room.name r' = Room.name r
        ∧ Room.messageCount r ≤ Room.messageCount r'
        ∧ room_evolves r r'.
Proof.
  intros Hi.
  pose proof (run_respects engine history_kept (handler_keeps_history engine) trace w)
    as (_ & H & _).
  destruct (grows_lookup _ _ _ _ _ H Hi) as (r' & Hr' & HE).
  exists r'. unfold room_evolves in HE. by split_and!; try apply HE.
Qed.

(** User records are never deleted: after any sequence of events every
    user record is still at its position, for the same connection. *)
Theorem users_are_kept (trace : list Invocation) (w : World)
    (i : nat) (u : User.t) :
  db_users w !! i = Some u →
  ∃ u', db_users (run engine trace w) !! i = Some u'
        ∧ User.socketId u' = User.socketId u.
Proof.
  intros Hi.
  pose proof (run_respects engine history_kept (handler_keeps_history engine) trace w)
    as (H & _ & _).
  destruct (grows_lookup _ _ _ _ _ H Hi) as (u' & Hu' & HE). by exists u'.
Qed.

End History_theorems.

(** ** The unique indexes *)

#[export] Instance unique_users_kept_preorder : PreOrder unique_users_kept.
Proof.
  split; [intros w H; exact H | intros a b c; unfold unique_users_kept; auto].
Qed.

#[export] Instance unique_rooms_kept_preorder : PreOrder unique_rooms_kept.
Proof.
  split; [intros w H; exact H | intros a b c; unfold unique_rooms_kept; auto].
Qed.

Lemma await_cases {A} (op : World → option (A * World)) p w o p' w' :
  await op p w = (o, p', w') →
  (o = Thrown ∧ w' = w) ∨ (∃ a, o = Done a ∧ op w = Some (a, w')).
Proof.
  unfold await. destruct p as [[|k]|].
  - intros [= <- _ <-]. by left.
  - destruct (op w) as [[a w1]|]; intros [= <- _ <-]; [right; by exists a | by left].
  - destruct (op w) as [[a w1]|]; intros [= <- _ <-]; [right; by exists a | by left].
Qed.

Lemma socketIds_update_first P f (l : list User.t) :
  (∀ u, P u = true → User.socketId (f u) = User.socketId u) →
  map User.socketId (update_first P f l) = map User.socketId l.
Proof.
  intros Hf. induction l as [|u l IH]; [done|]. simpl.
  destruct (P u) eqn:E; simpl; [by rewrite Hf | by rewrite IH].
Qed.

Lemma roomIds_update_first P f (l : list Room.t) :
  (∀ r, Room.roomId (f r) = Room.roomId r) →
  map Room.roomId (update_first P f l) = map Room.roomId l.
Proof.
  intros Hf. induction l as [|r l IH]; [done|]. simpl.
  destruct (P r); simpl; [by rewrite Hf | by rewrite IH].
Qed.

Lemma roomId_set_member engine id u r :
  Room.roomId (set_member engine id u r) = Room.roomId r.
Proof.
  unfold set_member. destruct u; [done|].
  by destruct (set_undefined_as_null engine).
Qed.

Lemma users_kept_same w w' :
  map User.socketId (db_users w') = map User.socketId (db_users w) →
  unique_users_kept w w'.
Proof. intros H. unfold unique_users_kept, unique_socketIds. by rewrite H. Qed.

Lemma rooms_kept_same w w' :
  map Room.roomId (db_rooms w') = map Room.roomId (db_rooms w) →
  unique_rooms_kept w w'.
Proof. intros H. unfold unique_rooms_kept, unique_roomIds. by rewrite H. Qed.

Lemma users_kept_update_users P f w :
  (∀ u, P u = true → User.socketId (f u) = User.socketId u) →
  unique_users_kept w (with_users (update_first P f) w).
Proof.
  intros Hf. apply users_kept_same. destruct w; simpl.
  by apply socketIds_update_first.
Qed.

Lemma users_kept_User_upsert id name now w a w' :
  User_upsert id name now w = Some (a, w') → unique_users_kept w w'.
Proof.
  unfold User_upsert. destruct (User_findOne id w) as [u|] eqn:E; intros [= _ <-].
  - apply users_kept_update_users. intros x Hx.
    unfold has_socketId in Hx. by apply bool_decide_eq_true_1 in Hx.
  - unfold unique_users_kept, unique_socketIds, User_findOne in *.
    destruct w; simpl in *. intros Hnd. rewrite map_app. simpl.
    apply NoDup_app. split_and!; [done| |apply NoDup_singleton].
    intros x Hx Hx'. apply list_elem_of_singleton in Hx' as ->.
    apply list_elem_of_fmap_1 in Hx as (y & Hy & Hin).
    apply (proj1 (find_none _ _) E) in Hin.
    unfold has_socketId in Hin. apply bool_decide_eq_false_1 in Hin. by apply Hin.
Qed.

Lemma users_kept_User_set_offline id now w a w' :
  User_set_offline id now w = Some (a, w') → unique_users_kept w w'.
Proof.
  unfold User_set_offline. intros [= _ <-]. by apply users_kept_update_users.
Qed.

(** Steps that do not touch the collection of users. *)
Lemma users_kept_elsewhere w w' : db_users w' = db_users w → unique_users_kept w w'.
Proof. intros H. apply users_kept_same. by rewrite H. Qed.

Lemma rooms_kept_elsewhere w w' : db_rooms w' = db_rooms w → unique_rooms_kept w w'.
Proof. intros H. apply rooms_kept_same. by rewrite H. Qed.

Lemma rooms_kept_update_rooms P f w :
  (∀ r, Room.roomId (f r) = Room.roomId r) →
  unique_rooms_kept w (with_rooms (update_first P f) w).
Proof.
  intros Hf. apply rooms_kept_same. destruct w; simpl.
  by apply roomIds_update_first.
Qed.

Lemma rooms_kept_update_many P f w :
  (∀ r, Room.roomId (f r) = Room.roomId r) →
  unique_rooms_kept w (with_rooms (update_many P f) w).
Proof.
  intros Hf. apply rooms_kept_same. destruct w; simpl.
  by apply update_many_roomIds.
Qed.

Lemma rooms_kept_new_room now d w :
  Room_findOne (Room.d_roomId d) w = None →
  unique_rooms_kept w (with_rooms (λ l, l ++ [Room.of_draft now d]) w).
Proof.
  intros E. unfold unique_rooms_kept, unique_roomIds, Room_findOne in *.
  destruct w; simpl in *. intros Hnd. rewrite map_app. simpl.
  apply NoDup_app. split_and!; [done| |apply NoDup_singleton].
  intros x Hx Hx'. apply list_elem_of_singleton in Hx' as ->.
  apply list_elem_of_fmap_1 in Hx as (y & Hy & Hin).
  apply (proj1 (find_none _ _) E) in Hin.
  unfold has_roomId in Hin. apply bool_decide_eq_false_1 in Hin. by apply Hin.
Qed.

Lemma atomic_step_unique w w' :
  atomic_step w w' →
  (unique_socketIds w → unique_socketIds w')
  ∧ (unique_roomIds w → unique_roomIds w').
Proof.
  intros [id username now w0 u w1 H | id f w0 Hf | now d w0 r w1 H
         | P f w0 Hf | P f w0 Hf | w0 w1 Hu Hr].
  - split; [by eapply users_kept_User_upsert|].
    apply rooms_kept_elsewhere. unfold User_upsert in H.
    destruct (User_findOne id w0); simplify_eq; by destruct w0.
  - split; [by apply users_kept_update_users|].
    apply rooms_kept_elsewhere. by destruct w0.
  - apply Room_create_Some in H as (_ & _ & Hfree & _ & ->).
    split; [apply users_kept_elsewhere; by destruct w0|].
    by apply rooms_kept_new_room.
  - split; [apply users_kept_elsewhere; by destruct w0|].
    by apply rooms_kept_update_rooms.
  - split; [apply users_kept_elsewhere; by destruct w0|].
    by apply rooms_kept_update_many.
  - split; [by apply users_kept_elsewhere | by apply rooms_kept_elsewhere].
Qed.

Lemma steps_unique w w' :
  rtc atomic_step w w' →
  (unique_socketIds w → unique_socketIds w')
  ∧ (unique_roomIds w → unique_roomIds w').
Proof.
  induction 1 as [|w1 w2 w3 H _ IH]; [done|].
  apply atomic_step_unique in H. split; intros Hw; apply IH; by apply H.
Qed.

(** Opens the store call in the context. *)
Ltac invert_store_op :=
  match goal with
  | H : User_set_offline _ _ _ = Some _ |- _ =>
      unfold User_set_offline in H; simplify_eq
  | H : Message_create _ _ _ = Some _ |- _ =>
      unfold Message_create in H; simplify_eq
  | H : Message_find_page _ _ _ _ _ = Some _ |- _ =>
      unfold Message_find_page in H; repeat case_match; simplify_eq
  | H : Message_search _ _ _ _ = Some _ |- _ =>
      unfold Message_search in H; repeat case_match; simplify_eq
  | H : Message_findByIdAndUpdate _ _ _ = Some _ |- _ =>
      apply Message_findByIdAndUpdate_Some in H as (? & ? & ->)
  | _ => idtac
  end.

(** Names the atomic step that a store call or a local step is. *)
Ltac steps_solver :=
  apply rtc_once;
  first [ eapply step_user_upsert; eassumption
        | eapply step_room_create; eassumption
        | invert_store_op;
          first [ apply step_user_update; intros ?; reflexivity
                | apply step_room_update; intros ?;
                    first [reflexivity | apply roomId_set_member]
                | apply step_room_update_many; intros ?; reflexivity
                | apply step_elsewhere; reflexivity ] ].

Section Unique_indexes.

Context (engine : Engine).

Lemma handler_steps sid now e : respects (rtc atomic_step) (handler engine sid now e).
Proof.
  destruct e; cbn [handler];
    unfold on_user_join, on_send_message, on_create_room, on_join_room,
      on_typing, on_private_message, on_add_reaction, on_message_read,
      on_share_file, on_load_messages, on_search_messages, on_disconnect;
    keeps_with steps_solver.
Qed.

Lemma initializeRooms_steps now : respects (rtc atomic_step) (initializeRooms now).
Proof. unfold initializeRooms. keeps_with steps_solver. Qed.

(** The unique indexes hold step by step.  Every run of a handler and of
    [initializeRooms], whichever store call is rejected, is a sequence of
    atomic steps, and each atomic step, from any state, keeps the
    [socketId]s of the users distinct and the [roomId]s of the rooms
    distinct; the insert of a room whose identifier is taken is refused by
    the store, whatever the handler looked up before.  So the indexes hold
    after any sequence of events, and interleaving the steps of several
    handlers cannot break them. *)
Theorem unique_indexes_kept (now : nat) (p : option nat)
    (trace : list Invocation) (w : World) :
  (∀ w1 w2, atomic_step w1 w2 →
     (unique_socketIds w1 → unique_socketIds w2)
     ∧ (unique_roomIds w1 → unique_roomIds w2))
  ∧ (∀ sid now' e p', rtc atomic_step w (handle engine sid now' e p' w))
  ∧ rtc atomic_step w (initializeRooms now p w).2
  ∧ rtc atomic_step w (run engine trace w)
  ∧ (∀ now' d r, Room_findOne (Room.d_roomId d) w = Some r →
       Room_create now' d w = None)
  ∧ (unique_socketIds w → unique_socketIds (run engine trace w))
  ∧ (unique_roomIds w →
     unique_roomIds (run engine trace w)
     ∧ unique_roomIds (initializeRooms now p w).2).
Proof.
  assert (Hrun : rtc atomic_step w (run engine trace w))
    by apply (run_respects engine (rtc atomic_step) handler_steps trace w).
  split_and!.
  - apply atomic_step_unique.
  - intros sid now' e p'. apply handler_steps.
  - apply initializeRooms_steps.
  - exact Hrun.
  - intros now' d r H. unfold Room_create. rewrite H. by case_bool_decide.
  - by apply steps_unique.
  - intros Hr. split.
    + by apply (steps_unique _ _ Hrun).
    + by apply (steps_unique _ _ (initializeRooms_steps now p w)).
Qed.

End Unique_indexes.

(** ** Who receives what *)

#[export] Instance emits_only_preorder (P : Emit → Prop) : PreOrder (emits_only P).
Proof.
  split.
  - intros w. exists []. by rewrite app_nil_r.
  - intros w1 w2 w3 (e1 & H1 & F1) (e2 & H2 & F2). exists (e1 ++ e2).
    split; [by rewrite H2, H1, app_assoc | by apply Forall_app].
Qed.

Lemma emits_only_emit (P : Emit → Prop) e w :
  P e → emits_only P w (with_outbox (λ o, o ++ [e]) w).
Proof. intros He. exists [e]. split; [by destruct w | by apply Forall_singleton]. Qed.

Lemma emits_only_quiet (P : Emit → Prop) w w' :
  outbox w' = outbox w → emits_only P w w'.
Proof. intros H. exists []. by rewrite app_nil_r. Qed.

(** Opens the store operation named by a hypothesis. *)
Ltac open_store_op :=
  match goal with
  | H : User_upsert _ _ _ _ = Some _ |- _ =>
      unfold User_upsert in H; repeat case_match; simplify_eq
  | H : User_set_offline _ _ _ = Some _ |- _ =>
      unfold User_set_offline in H; simplify_eq
  | H : Message_create _ _ _ = Some _ |- _ =>
      unfold Message_create in H; simplify_eq
  | H : Room_create _ _ _ = Some _ |- _ =>
      apply Room_create_Some in H as (_ & _ & _ & _ & ->)
  | H : Message_findByIdAndUpdate _ _ _ = Some _ |- _ =>
      apply Message_findByIdAndUpdate_Some in H as (? & ? & ->)
  | H : Message_find_page _ _ _ _ _ = Some _ |- _ =>
      unfold Message_find_page in H; repeat case_match; simplify_eq
  | H : Message_search _ _ _ _ = Some _ |- _ =>
      unfold Message_search in H; repeat case_match; simplify_eq
  | _ => idtac
  end.

Ltac same_field :=
  open_store_op;
  match goal with
  | |- _ ?w' = _ ?w => try reflexivity; by destruct w
  end.

Ltac emits_solver tac :=
  first [ apply emits_only_emit; tac
        | apply emits_only_quiet; same_field ].

Section Recipients.

Context (engine : Engine).

Lemma handler_errors_to_self sid now e :
  respects (emits_only (error_to_self sid)) (handler engine sid now e).
Proof.
  destruct e; cbn [handler];
    unfold on_user_join, on_send_message, on_create_room, on_join_room,
      on_typing, on_private_message, on_add_reaction, on_message_read,
      on_share_file, on_load_messages, on_search_messages, on_disconnect;
    keeps_with ltac:(emits_solver ltac:(by unfold error_to_self)).
Qed.

(** A failure is reported to nobody but the connection whose event failed:
    whatever the event and the rejected store call, every [error] event
    the handler emits is a [socket.emit] to the originating connection. *)
Theorem errors_go_to_the_originator (sid : string) (now : nat) (e : Inbound)
    (p : option nat) (w : World) :
  ∃ evs, outbox (handle engine sid now e p w) = outbox w ++ evs
         ∧ ∀ x, x ∈ evs → is_error x = true → target x = SocketEmit sid.
Proof.
  destruct (handler_errors_to_self sid now e p w) as (evs & H & F).
  exists evs. split; [done|]. intros x Hx. by apply (proj1 (Forall_forall _ _) F).
Qed.

#[export] Instance same_subscriptions_preorder : PreOrder same_subscriptions.
Proof.
  split; [by intros w | intros a b c]. unfold same_subscriptions. congruence.
Qed.

#[export] Instance subscription_kept_preorder c label :
  PreOrder (subscription_kept c label).
Proof.
  split; [intros w H; exact H | intros w1 w2 w3; unfold subscription_kept; auto].
Qed.

(** After [join_room label], whatever the label and whether or not a room
    has it, the connection is subscribed to it. *)
Lemma join_room_subscribes c now w label :
  (c, label) ∈ subscriptions (handle engine c now (join_room label) None w).
Proof.
  unfold handle. cbn [handler]. unfold on_join_room, try_catch.
  match goal with
  | |- context [match ?body None w with _ => _ end] =>
      assert (H : ∃ w0 (tail : Handler unit),
                body None w = tail None w0
                ∧ (c, label) ∈ subscriptions w0
                ∧ respects (subscription_kept c label) tail)
  end.
  { eexists _, _. split.
    - erewrite bind_done by (by apply await_no_fault).
      erewrite bind_done by apply leave_loop.
      erewrite bind_done by (by apply await_no_fault).
      erewrite bind_done by reflexivity.
      reflexivity.
    - split.
      + cbn [subscriptions with_subscriptions]. set_solver.
      + keeps_with ltac:(unfold subscription_kept; intros ?; assumption). }
  destruct H as (w0 & tail & -> & Hin & Htail).
  specialize (Htail None w0 Hin).
  destruct (tail None w0) as [[[[]|] p1] w1]; cbn [snd] in *; [done|].
  by destruct w1.
Qed.

(** A private message goes to a label, not to a person.  Whichever store
    call is rejected, every event that [private_message] emits is
    addressed to the label [to] or to the sending connection, and no
    subscription changes: the events are received by the sender, by the
    connection whose id is [to], and by every connection subscribed to the
    label [to], and by nobody else.  And any connection can subscribe to
    any label: after [join_room to] it receives the private messages sent
    to [to]. *)
Theorem private_message_reaches_the_label (sid : string) (now : nat)
    (to message : string) (p : option nat) (w : World) :
  (let w' := handle engine sid now (private_message to message) p w in
   ∃ evs, outbox w' = outbox w ++ evs
          ∧ subscriptions w' = subscriptions w
          ∧ ∀ x, x ∈ evs →
              (target x = IoTo to ∨ target x = SocketEmit sid)
              ∧ ∀ c, receives w' c x →
                  c = sid ∨ c = to ∨ (c, to) ∈ subscriptions w)
  ∧ (∀ c now0,
       let w1 := handle engine c now0 (join_room to) None w in
       let w2 := handle engine sid now (private_message to message) None w1 in
       let note := mkEmit (IoTo to)
                     (private_message_event (private_note sid now w1 to message)) in
       (c, to) ∈ subscriptions w1
       ∧ outbox w2
         = outbox w1
           ++ [note;
               mkEmit (SocketEmit sid)
                 (private_message_event (private_note sid now w1 to message));
               mkEmit (IoTo to)
                 (new_message_notification
                    ("Private message from "
                     +:+ sender_name (User_findOne sid w1) +:+ ": " +:+ message)
                    (sender_name (User_findOne sid w1)) None true false);
               mkEmit (SocketEmit sid)
                 (message_delivered
                    (Message._id (private_note sid now w1 to message)))]
       ∧ Message.message (private_note sid now w1 to message) = message
       ∧ receives w2 c note).
Proof.
  split.
  - cbv zeta.
    assert (H : respects (emits_only (to_pair sid to))
                  (handler engine sid now (private_message to message))).
    { cbn [handler]. unfold on_private_message.
      keeps_with ltac:(emits_solver ltac:(unfold to_pair; simpl; auto)). }
    assert (Hs : respects same_subscriptions
                   (handler engine sid now (private_message to message))).
    { cbn [handler]. unfold on_private_message.
      keeps_with ltac:(unfold same_subscriptions; same_field). }
    destruct (H p w) as (evs & Hout & F). specialize (Hs p w).
    unfold same_subscriptions in Hs. unfold handle.
    exists evs. split_and!; [done..|].
    intros x Hx. pose proof (proj1 (Forall_forall _ _) F x Hx) as Hto.
    split; [exact Hto|]. intros c. unfold receives. rewrite Hs.
    destruct Hto as [-> | ->]; [intros [->|?]; auto | intros ->; auto].
  - intros c now0. cbv zeta.
    pose proof (join_room_subscribes c now0 w to) as Hsub.
    set (w1 := handle engine c now0 (join_room to) None w) in *. clearbody w1.
    unfold handle. rewrite private_message_run. cbn [snd].
    split_and!; [exact Hsub | by destruct w1 | reflexivity |].
    unfold receives. cbn [target]. right. by destruct w1.
Qed.

End Recipients.

(** ** The read paths *)

Section Read_paths.

Context (engine : Engine).

(** [load_messages] and [search_messages] are read-only and answer the
    requester exactly once: whatever the arguments and the rejected store
    call, nothing stored changes, and exactly one event is emitted, to the
    requesting connection: the result, or the [error] event. *)
Theorem read_paths_reply_once (sid : string) (now : nat) (p : option nat)
    (w : World) :
  (∀ offset limit roomId,
     let w' := handle engine sid now (load_messages offset limit roomId) p w in
     store_untouched w w'
     ∧ ∃ pl, outbox w' = outbox w ++ [mkEmit (SocketEmit sid) pl]
             ∧ ((∃ ms more, pl = messages_loaded ms more)
                ∨ pl = error "Failed to load messages"))
  ∧ (∀ q roomId,
       let w' := handle engine sid now (search_messages q roomId) p w in
       store_untouched w w'
       ∧ ∃ pl, outbox w' = outbox w ++ [mkEmit (SocketEmit sid) pl]
               ∧ ((∃ ms, pl = search_results ms q)
                  ∨ pl = error "Failed to search messages")).
Proof.
  split.
  - intros offset limit roomId. cbv zeta. unfold handle. cbn [handler].
    unfold on_load_messages, try_catch. cbv zeta.
    unfold mbind, Handler_bind, bind.
    destruct (await (Message_find_page _ _ _ _) p w) as [[[ms|] p1] w1] eqn:E1;
      apply await_cases in E1 as [[Ht ->]|(a & Ha & Hop)]; try discriminate.
    + unfold Message_find_page in Hop. destruct (page_window _ _ _ _); [|done].
      injection Hop as _ <-.
      destruct (await (query _) p1 w) as [[[n|] p2] w2] eqn:E2;
        apply await_cases in E2 as [[Ht ->]|(b & Hb & Hq)]; try discriminate.
      * unfold query in Hq. injection Hq as _ <-. destruct w; simpl.
        split; [by split_and!|]. eexists. split; [reflexivity|]. left. by eexists _, _.
      * destruct w; simpl.
        split; [by split_and!|]. eexists. split; [reflexivity|]. by right.
    + destruct w; simpl.
      split; [by split_and!|]. eexists. split; [reflexivity|]. by right.
  - intros q roomId. cbv zeta. unfold handle. cbn [handler].
    unfold on_search_messages, try_catch. unfold mbind, Handler_bind, bind.
    destruct (await (Message_search _ _ _) p w) as [[[ms|] p1] w1] eqn:E1;
      apply await_cases in E1 as [[Ht ->]|(a & Ha & Hop)]; try discriminate.
    + unfold Message_search in Hop. destruct (regex_i _ _); [|done].
      injection Hop as _ <-. destruct w; simpl.
      split; [by split_and!|]. eexists. split; [reflexivity|]. left. by eexists.
    + destruct w; simpl.
      split; [by split_and!|]. eexists. split; [reflexivity|]. by right.
Qed.

End Read_paths.

(** ** Joining a room that exists *)

Lemma find_update_first {A} (P : A → bool) (f : A → A) (l : list A) :
  (∀ x, P (f x) = P x) →
  List.find P (update_first P f l) = f <$> List.find P l.
Proof.
  intros Hf. induction l as [|x l IH]; [done|]. simpl.
  destruct (P x) eqn:E; simpl.
  - by rewrite Hf, E.
  - by rewrite E.
Qed.

Section Join_room.

Context (engine : Engine).

Lemma join_room_run sid now w roomId room user :
  unique_roomIds w →
  Room_findOne roomId w = Some room →
  User_findOne sid w = Some user →
  handler engine sid now (join_room roomId) None w
  = (Done tt, None,
     with_stdout (λ l, l ++ [joined_room sid roomId])
       (with_outbox
          (λ o, o ++ [mkEmit (SocketEmit sid) (room_joined roomId (Room.name room));
                      mkEmit (IoTo roomId)
                        (notification "user_joined_room" "User joined the room"
                           (Some roomId))])
          (with_rooms
             (update_first (has_roomId roomId)
                (Room.set_users (<[sid := Some (User.username user)]>)))
             (with_subscriptions (λ s, {[ (sid, roomId) ]} ∪ s)
                (with_users (update_first (has_socketId sid) (set_currentRoom roomId))
                   (with_subscriptions
                      (leave_subscriptions sid
                         (List.filter (has_member sid) (db_rooms w)))
                      (with_rooms (map (Room.set_users (delete sid))) w))))))).
Proof.
  intros Hnd Hroom Huser. cbn [handler]. unfold on_join_room.
  apply try_catch_done.
  erewrite bind_done by (by apply await_no_fault).
  erewrite bind_done by apply leave_loop.
  erewrite bind_done by (by apply await_no_fault).
  erewrite bind_done by reflexivity.
  erewrite bind_done.
  2:{ apply await_no_fault. unfold query, Room_findOne.
      cbn [db_rooms with_users with_subscriptions with_rooms].
      rewrite leave_member_rooms by done.
      rewrite findOne_after_leaving. unfold Room_findOne in Hroom.
      rewrite Hroom. reflexivity. }
  cbn [fmap option_fmap option_map].
  erewrite bind_done.
  2:{ apply await_no_fault. unfold query, User_findOne.
      cbn [db_users with_users with_subscriptions with_rooms].
      rewrite find_update_first by done.
      unfold User_findOne in Huser. rewrite Huser. reflexivity. }
  erewrite bind_done by (by apply await_no_fault).
  erewrite bind_done by reflexivity.
  erewrite bind_done by reflexivity.
  destruct w as [us rs ms n ty so su ob co lg]. unfold unique_roomIds in Hnd.
  simpl in Hnd.
  world_simpl. rewrite leave_member_rooms by done. by rewrite <- app_assoc.
Qed.

(** Joining a room that exists moves the connection there.  With the
    unique index on [roomId], a bound user, and no store call rejected:
    the connection is a member of the target room under its user name and
    of no other room, the other members of every room are as before, the
    user's [currentRoom] is the target, and the handler emits the
    confirmation to the connection and then the notice to the room. *)
Theorem join_room_transfers (sid : string) (now : nat) (w : World)
    (roomId : string) (room : Room.t) (user : User.t) :
  unique_roomIds w →
  Room_findOne roomId w = Some room →
  User_findOne sid w = Some user →
  let w' := handle engine sid now (join_room roomId) None w in
  (∀ r, r ∈ db_rooms w' →
     Room.users r !! sid
     = if bool_decide (Room.roomId r = roomId)
       then Some (Some (User.username user)) else None)
  ∧ (∀ i r, db_rooms w !! i = Some r →
       ∃ r', db_rooms w' !! i = Some r'
             ∧ Room.roomId r' = Room.roomId r
             ∧ ∀ other, other ≠ sid → Room.users r' !! other = Room.users r !! other)
  ∧ db_users w'
    = update_first (has_socketId sid) (set_currentRoom roomId) (db_users w)
  ∧ (User.currentRoom <$> User_findOne sid w') = Some roomId
  ∧ (sid, roomId) ∈ subscriptions w'
  ∧ outbox w'
    = outbox w ++ [mkEmit (SocketEmit sid) (room_joined roomId (Room.name room));
                   mkEmit (IoTo roomId)
                     (notification "user_joined_room" "User joined the room"
                        (Some roomId))].
Proof.
  intros Hnd Hroom Huser. cbv zeta. unfold handle.
  rewrite (join_room_run sid now w roomId room user Hnd Hroom Huser). cbn [snd].
  destruct w as [us rs ms n ty so su ob co lg]. unfold unique_roomIds in Hnd.
  unfold User_findOne in *. simpl in *.
  assert (Hnd' : NoDup (map Room.roomId (map (Room.set_users (delete sid)) rs))).
  { rewrite map_map. exact Hnd. }
  rewrite (update_first_unique _ _ _ Hnd'). unfold update_many. rewrite map_map.
  split_and!.
  - intros r Hr. apply list_elem_of_fmap_1 in Hr as (r0 & -> & Hr0).
    unfold has_roomId. simpl. case_bool_decide as E; simpl.
    + rewrite bool_decide_eq_true_2 by done. apply lookup_insert_eq.
    + rewrite bool_decide_eq_false_2 by done. apply lookup_delete_eq.
  - intros i r Hi. rewrite list_lookup_fmap, Hi. simpl. eexists. split; [done|].
    split.
    + by case_match.
    + intros other Hne. case_match; simpl.
      * rewrite lookup_insert_ne by done. by rewrite lookup_delete_ne.
      * by rewrite lookup_delete_ne.
  - done.
  - rewrite find_update_first by done. by rewrite Huser.
  - set_solver.
  - done.
Qed.

End Join_room.

(** ** Arriving and leaving *)

Lemma find_replace_first {A} (P : A → bool) (y : A) (l : list A) x :
  List.find P l = Some x → P y = true →
  List.find P (update_first P (λ _, y) l) = Some y.
Proof.
  intros Hl Hy. induction l as [|z l IH]; [done|]. simpl in *.
  destruct (P z) eqn:E; simpl.
  - by rewrite Hy.
  - rewrite E. by apply IH.
Qed.


Section Presence.

Context (engine : Engine).

Lemma user_join_run sid now w username :
  let u := bound_user sid username now w in
  let w1 := match User_findOne sid w with
            | Some _ => with_users (update_first (has_socketId sid) (λ _, u)) w
            | None => with_users (λ l, l ++ [u]) w
            end in
  let rooms' := update_first (has_roomId "general")
                  (Room.set_users (<[sid := Some username]>)) (db_rooms w) in
  handler engine sid now (user_join username) None w
  = (Done tt, None,
     with_stdout (λ l, l ++ [joined_the_chat username])
       (with_outbox
          (λ o, o ++ [mkEmit IoEmit (user_list (online w1));
                      mkEmit IoEmit (user_joined username sid);
                      mkEmit (SocketEmit sid) (room_list rooms')])
          (with_rooms (λ _, rooms')
             (with_subscriptions (λ s, {[ (sid, "general") ]} ∪ s) w1)))).
Proof.
  cbv zeta. unfold bound_user. cbn [handler]. unfold on_user_join.
  apply try_catch_done.
  destruct (User_findOne sid w) as [u0|] eqn:E.
  all: erewrite bind_done
         by (apply await_no_fault; unfold User_upsert; rewrite E; reflexivity).
  all: erewrite bind_done by reflexivity.
  all: erewrite bind_done by (by apply await_no_fault).
  all: erewrite bind_done by (by apply await_no_fault).
  all: erewrite bind_done by (by apply await_no_fault).
  all: erewrite bind_done by reflexivity.
  all: erewrite bind_done by reflexivity.
  all: erewrite bind_done by reflexivity.
  all: destruct w as [us rs ms n ty so su ob co lg].
  all: world_simpl.
  all: by rewrite <- !app_assoc.
Qed.

(** [user_join] binds the connection.  With no store call rejected: the
    connection has exactly the record written (the given name, online, in
    "general", seen now), no second record is created for a connection
    that joins again, the record is among the online users that
    [GET /api/users] lists, the connection is a member of "general" when
    that room exists, and the three events are the online users and the
    arrival to everyone, then the rooms to the connection. *)
Theorem user_join_binds (sid : string) (now : nat) (w : World)
    (username : string) :
  let w' := handle engine sid now (user_join username) None w in
  let u := bound_user sid username now w in
  User_findOne sid w' = Some u
  ∧ (User.socketId u = sid ∧ User.username u = username
     ∧ User.isOnline u = true ∧ User.currentRoom u = "general"
     ∧ User.lastSeen u = now)
  ∧ length (db_users w')
    = length (db_users w)
      + match User_findOne sid w with Some _ => 0 | None => 1 end
  ∧ u ∈ online w'
  ∧ api_users None w' = (Done (json_users (online w')), None, w')
  ∧ Room_findOne "general" w'
    = Room.set_users (<[sid := Some username]>) <$> Room_findOne "general" w
  ∧ outbox w'
    = outbox w ++ [mkEmit IoEmit (user_list (online w'));
                   mkEmit IoEmit (user_joined username sid);
                   mkEmit (SocketEmit sid) (room_list (db_rooms w'))].
Proof.
  cbv zeta. unfold handle. rewrite user_join_run. cbn [snd].
  assert (Hu : User.socketId (bound_user sid username now w) = sid
               ∧ User.username (bound_user sid username now w) = username
               ∧ User.isOnline (bound_user sid username now w) = true
               ∧ User.currentRoom (bound_user sid username now w) = "general"
               ∧ User.lastSeen (bound_user sid username now w) = now).
  { unfold bound_user. by destruct (User_findOne sid w). }
  assert (Hp : has_socketId sid (bound_user sid username now w) = true).
  { unfold has_socketId. apply bool_decide_eq_true_2. apply Hu. }
  set (u := bound_user sid username now w) in *.
  destruct w as [us rs ms n ty so su ob co lg].
  unfold User_findOne, Room_findOne, online in *. simpl.
  assert (Hfind : find (has_socketId sid)
            (db_users (match find (has_socketId sid) us with
                       | Some _ => with_users (update_first (has_socketId sid) (λ _, u))
                                     (mkWorld us rs ms n ty so su ob co lg)
                       | None => with_users (λ l, l ++ [u])
                                   (mkWorld us rs ms n ty so su ob co lg)
                       end)) = Some u).
  { destruct (find (has_socketId sid) us) eqn:E; simpl.
    - by eapply find_replace_first.
    - by apply find_app_last. }
  split; [destruct (find (has_socketId sid) us); exact Hfind|].
  split; [exact Hu|].
  split_and!.
  - destruct (find (has_socketId sid) us); simpl.
    + rewrite update_first_length. lia.
    + rewrite length_app. simpl. lia.
  - apply list_elem_of_In, filter_In. split; [|apply Hu].
    apply find_some in Hfind as [Hin _].
    destruct (find (has_socketId sid) us); exact Hin.
  - destruct (find (has_socketId sid) us); reflexivity.
  - destruct (find (has_socketId sid) us); simpl; by apply find_update_first.
  - destruct (find (has_socketId sid) us); reflexivity.
Qed.

End Presence.


Section Leaving.

Context (engine : Engine).



End Leaving.

(** ** The typing set *)

Lemma dict_set_fresh k v (d : Js.Dict) :
  k ∉ map fst d → Js.dict_set k v d = d ++ [(k, v)].
Proof.
  induction d as [|[k' v'] d IH]; intros Hk; [done|]. simpl in *.
  apply not_elem_of_cons in Hk as [Hne Hk].
  destruct (String.eqb k' k) eqn:E.
  - apply String.eqb_eq in E. by subst.
  - by rewrite IH.
Qed.

Lemma dict_set_twice k v v' (d : Js.Dict) :
  Js.dict_set k v' (Js.dict_set k v d) = Js.dict_set k v' d.
Proof.
  induction d as [|[k' x] d IH]; simpl.
  - by rewrite String.eqb_refl.
  - destruct (String.eqb k' k) eqn:E; simpl; rewrite E; [done | by rewrite IH].
Qed.

Lemma dict_delete_fresh k (d : Js.Dict) :
  k ∉ map fst d → Js.dict_delete k d = d.
Proof.
  unfold Js.dict_delete, Js.Dict in *.
  induction d as [|[k' v'] d IH]; intros Hk; [done|].
  simpl in Hk. apply not_elem_of_cons in Hk as [Hne Hk].
  rewrite filter_cons_True.
  - by rewrite IH.
  - simpl. apply negb_prop_intro. intros H. apply Is_true_true in H.
    apply String.eqb_eq in H. by subst.
Qed.

Lemma dict_delete_set_fresh k v (d : Js.Dict) :
  k ∉ map fst d → Js.dict_delete k (Js.dict_set k v d) = d.
Proof.
  intros Hk. rewrite dict_set_fresh by done.
  pose proof (dict_delete_fresh k d Hk) as Hd.
  unfold Js.dict_delete, Js.Dict in *.
  rewrite filter_app, Hd.
  rewrite filter_cons_False, filter_nil; [by rewrite app_nil_r|].
  simpl. rewrite String.eqb_refl. simpl. tauto.
Qed.

Section Typing.

Context (engine : Engine).

Lemma typing_run sid now w isTyping :
  handler engine sid now (typing isTyping) None w
  = (Done tt, None,
     match User_findOne sid w with
     | Some user =>
         let ty := if isTyping
                   then Js.dict_set sid (User.username user) (typingUsers w)
                   else Js.dict_delete sid (typingUsers w) in
         with_outbox
           (λ o, o ++ [mkEmit IoEmit (typing_users (Js.Object_values ty))])
           (with_typing (λ _, ty) w)
     | None => w
     end).
Proof.
  cbn [handler]. unfold on_typing. apply try_catch_done.
  erewrite bind_done by (by apply await_no_fault).
  destruct (User_findOne sid w) as [user|]; [|reflexivity].
  destruct isTyping.
  all: erewrite bind_done by reflexivity.
  all: erewrite bind_done by reflexivity.
  all: by destruct w.
Qed.

(** The typing indicator.  A connection that is bound and not in the
    typing set enters it under its user name when it starts typing and
    leaves it, restoring the set, when it stops; each time the names are
    sent to everyone.  Starting twice is starting once.  For a connection
    without a user record the event changes nothing and emits nothing. *)
Theorem typing_round_trip (sid : string) (now now' : nat) (w : World)
    (user : User.t) :
  User_findOne sid w = Some user →
  sid ∉ map fst (typingUsers w) →
  let w1 := handle engine sid now (typing true) None w in
  let w2 := handle engine sid now' (typing false) None w1 in
  typingUsers w1 = typingUsers w ++ [(sid, User.username user)]
  ∧ typingUsers w2 = typingUsers w
  ∧ outbox w2
    = outbox w
      ++ [mkEmit IoEmit
            (typing_users (Js.Object_values (typingUsers w) ++ [User.username user]));
          mkEmit IoEmit (typing_users (Js.Object_values (typingUsers w)))]
  ∧ typingUsers (handle engine sid now' (typing true) None w1) = typingUsers w1
  ∧ (∀ w0 isTyping, User_findOne sid w0 = None →
       handle engine sid now (typing isTyping) None w0 = w0).
Proof.
  intros Hu Hfresh. cbv zeta.
  split_and!; [..|intros w0 b H0; unfold handle; rewrite typing_run; by rewrite H0].
  all: unfold handle; rewrite !typing_run; cbn [snd].
  all: rewrite Hu; cbv zeta.
  all: assert (Hu1 : ∀ f g,
         User_findOne sid (with_outbox f (with_typing g w)) = Some user)
         by (intros; by destruct w).
  all: rewrite ?Hu1; cbv zeta.
  all: destruct w as [us rs ms n ty so su ob co lg]; simpl in *.
  all: rewrite ?dict_set_twice, ?dict_delete_set_fresh, ?dict_set_fresh by done.
  all: try done.
  unfold Js.Object_values. by rewrite map_app, <- app_assoc.
Qed.

End Typing.

(** ** Reactions and read receipts *)

Lemma update_first_compose {A} (P : A → bool) (f g : A → A) (l : list A) :
  (∀ x, P (f x) = P x) →
  update_first P g (update_first P f l) = update_first P (λ x, g (f x)) l.
Proof.
  intros Hf. induction l as [|x l IH]; [done|]. simpl.
  destruct (P x) eqn:E; simpl.
  - by rewrite Hf, E.
  - by rewrite E, IH.
Qed.

Lemma update_first_ext {A} (P : A → bool) (f g : A → A) (l : list A) :
  (∀ x, f x = g x) → update_first P f l = update_first P g l.
Proof.
  intros H. induction l as [|x l IH]; [done|]. simpl.
  destruct (P x); [by rewrite H | by rewrite IH].
Qed.

Lemma lookup_update_first_other {A} (P : A → bool) (f : A → A) (l : list A) i x :
  l !! i = Some x → P x = false → update_first P f l !! i = Some x.
Proof.
  revert i. induction l as [|y l IH]; intros i Hi Hx; [done|]. simpl.
  destruct i as [|i]; simpl in *.
  - injection Hi as ->. by rewrite Hx.
  - destruct (P y); [done | by apply IH].
Qed.

Section Message_mutations.

Context (engine : Engine).

Lemma add_reaction_run sid now w messageId reaction :
  handler engine sid now (add_reaction (ObjectId messageId) reaction) None w
  = (Done tt, None,
     with_outbox
       (λ o, o ++ [mkEmit IoEmit (reaction_added (ObjectId messageId) reaction sid)])
       (with_messages
          (update_first (has_id messageId) (Message.set_reaction sid reaction)) w)).
Proof. reflexivity. Qed.

Lemma message_read_run sid now w messageId :
  handler engine sid now (message_read (ObjectId messageId)) None w
  = (Done tt, None,
     with_outbox
       (λ o, o ++ [mkEmit (BroadcastEmit sid)
                     (message_read_receipt (ObjectId messageId) sid)])
       (with_messages (update_first (has_id messageId) Message.set_read) w)).
Proof. reflexivity. Qed.

(** An identifier that does not cast is refused by the store before
    anything is written: the handler only logs. *)
Lemma add_reaction_refused sid now w raw reaction p :
  handle engine sid now (add_reaction (not_an_id raw) reaction) p w
  = with_console (λ c, c ++ ["Error adding reaction:"]) w.
Proof. unfold handle. cbn [handler]. by destruct p as [[|k]|]. Qed.

Lemma message_read_refused sid now w raw p :
  handle engine sid now (message_read (not_an_id raw)) p w
  = with_console (λ c, c ++ ["Error marking message as read:"]) w.
Proof. unfold handle. cbn [handler]. by destruct p as [[|k]|]. Qed.

(** A reaction is an upsert keyed by the reacting connection.  With no
    store call rejected: the message that has the id (the first one, as
    [findById] finds it) carries the reaction under the connection's id
    and keeps the reactions of the others; every other message is as it
    was; and of two reactions by one connection to one message the later
    one stands, as if the earlier had never been sent.  With an identifier
    that does not cast to an [ObjectId] nothing is stored and nothing is
    emitted. *)
Theorem add_reaction_upserts (sid : string) (now now' : nat) (w : World)
    (messageId : nat) (reaction reaction' : string) :
  let w1 := handle engine sid now (add_reaction (ObjectId messageId) reaction) None w in
  let w2 :=
    handle engine sid now' (add_reaction (ObjectId messageId) reaction') None w1 in
  List.find (has_id messageId) (db_messages w1)
  = Message.set_reaction sid reaction <$> List.find (has_id messageId) (db_messages w)
  ∧ (∀ m, List.find (has_id messageId) (db_messages w) = Some m →
       ∃ m', List.find (has_id messageId) (db_messages w1) = Some m'
             ∧ Message.reactions m' !! sid = Some reaction
             ∧ ∀ other, other ≠ sid →
                 Message.reactions m' !! other = Message.reactions m !! other)
  ∧ (∀ i m, db_messages w !! i = Some m → Message._id m ≠ messageId →
       db_messages w1 !! i = Some m)
  ∧ db_messages w2
    = db_messages
        (handle engine sid now' (add_reaction (ObjectId messageId) reaction') None w)
  ∧ (∀ raw p,
       db_messages (handle engine sid now (add_reaction (not_an_id raw) reaction) p w)
       = db_messages w
       ∧ outbox (handle engine sid now (add_reaction (not_an_id raw) reaction) p w)
         = outbox w).
Proof.
  cbv zeta. split_and!; [..| intros raw p; by rewrite add_reaction_refused].
  all: unfold handle; rewrite !add_reaction_run; cbn [snd].
  all: destruct w as [us rs ms n ty so su ob co lg]; simpl.
  all: assert (Hfind : find (has_id messageId)
                    (update_first (has_id messageId)
                       (Message.set_reaction sid reaction) ms)
                  = Message.set_reaction sid reaction <$> find (has_id messageId) ms)
    by (by apply find_update_first).
  - done.
  - intros m Hm. rewrite Hfind, Hm. eexists. split; [done|]. simpl. split.
    + apply lookup_insert_eq.
    + intros other Hne. by apply lookup_insert_ne.
  - intros i m Hi Hne. apply lookup_update_first_other; [done|].
    unfold has_id. by apply bool_decide_eq_false_2.
  - rewrite update_first_compose by done. apply update_first_ext.
    intros m. unfold Message.set_reaction. simpl. f_equal. apply insert_insert_eq.
Qed.

(** A read receipt sets the flag and is idempotent.  With no store call
    rejected: the message that has the id is left with [read = true] and is
    otherwise unchanged, every other message is as it was, the receipt
    goes to every connection but the reader, and a second receipt changes
    nothing stored.  With an identifier that does not cast to an
    [ObjectId] nothing is stored and nothing is emitted. *)
Theorem message_read_marks (sid : string) (now now' : nat) (w : World)
    (messageId : nat) :
  let w1 := handle engine sid now (message_read (ObjectId messageId)) None w in
  let w2 := handle engine sid now' (message_read (ObjectId messageId)) None w1 in
  List.find (has_id messageId) (db_messages w1)
  = Message.set_read <$> List.find (has_id messageId) (db_messages w)
  ∧ (∀ m, List.find (has_id messageId) (db_messages w1) = Some m →
       Message.read m = true)
  ∧ (∀ i m, db_messages w !! i = Some m → Message._id m ≠ messageId →
       db_messages w1 !! i = Some m)
  ∧ db_messages w2 = db_messages w1
  ∧ outbox w1
    = outbox w ++ [mkEmit (BroadcastEmit sid)
                     (message_read_receipt (ObjectId messageId) sid)]
  ∧ (∀ raw p,
       db_messages (handle engine sid now (message_read (not_an_id raw)) p w)
       = db_messages w
       ∧ outbox (handle engine sid now (message_read (not_an_id raw)) p w)
         = outbox w).
Proof.
  cbv zeta. split_and!; [..| intros raw p; by rewrite message_read_refused].
  all: unfold handle; rewrite !message_read_run; cbn [snd].
  all: destruct w as [us rs ms n ty so su ob co lg]; simpl.
  all: assert (Hfind : find (has_id messageId)
                    (update_first (has_id messageId) Message.set_read ms)
                  = Message.set_read <$> find (has_id messageId) ms)
    by (by apply find_update_first).
  - done.
  - intros m. rewrite Hfind. destruct (find (has_id messageId) ms); [|done].
    by intros [= <-].
  - intros i m Hi Hne. apply lookup_update_first_other; [done|].
    unfold has_id. by apply bool_decide_eq_false_2.
  - rewrite update_first_compose by done. by apply update_first_ext.
  - done.
Qed.

End Message_mutations.

(** ** Routing of a message *)

Lemma flat_map_singleton {A B} (f : A → B) (l : list A) :
  flat_map (λ x, [f x]) l = map f l.
Proof. induction l as [|x l IH]; [done|]. simpl. by rewrite IH. Qed.

#[export] Instance ids_kept_preorder : PreOrder ids_kept.
Proof. split; [intros w H; exact H | intros a b c; unfold ids_kept; auto]. Qed.

Lemma ids_update_first P f (l : list Message.t) :
  (∀ m, Message._id (f m) = Message._id m) →
  map Message._id (update_first P f l) = map Message._id l.
Proof.
  intros Hf. induction l as [|m l IH]; [done|]. simpl.
  destruct (P m); simpl; [by rewrite Hf | by rewrite IH].
Qed.

Lemma ids_elsewhere w w' :
  db_messages w' = db_messages w → next_id w' = next_id w → ids_kept w w'.
Proof. intros H1 H2. unfold ids_kept, ids_fresh. by rewrite H1, H2. Qed.

Lemma ids_Message_create now d w a w' :
  Message_create now d w = Some (a, w') → ids_kept w w'.
Proof.
  unfold Message_create. intros [= _ <-] [Hnd Hlt].
  unfold ids_fresh. destruct w as [us rs ms n ty so su ob co lg]; simpl in *.
  rewrite map_app. simpl. split.
  - apply NoDup_app. split_and!; [done| |apply NoDup_singleton].
    intros i Hi Hi'. apply list_elem_of_singleton in Hi' as ->.
    pose proof (proj1 (Forall_forall _ _) Hlt _ Hi). simpl in *. lia.
  - apply Forall_app. split.
    + eapply Forall_impl; [exact Hlt|]. simpl. intros i Hi. lia.
    + apply Forall_singleton. lia.
Qed.

Lemma ids_findByIdAndUpdate id f w a w' :
  (∀ m, Message._id (f m) = Message._id m) →
  Message_findByIdAndUpdate id f w = Some (a, w') → ids_kept w w'.
Proof.
  intros Hf (n & _ & ->)%Message_findByIdAndUpdate_Some.
  unfold ids_kept, ids_fresh. destruct w; simpl.
  by rewrite ids_update_first.
Qed.

Ltac ids_solver :=
  first [ eapply ids_Message_create; eassumption
        | eapply ids_findByIdAndUpdate; [|eassumption]; intros ?; reflexivity
        | open_store_op; apply ids_elsewhere; reflexivity ].

Section Routing.

Context (engine : Engine).

Lemma send_message_events sid now w message room :
  let m := sent_message sid now w message room in
  handler engine sid now (send_message message room) None w
  = (Done tt, None,
     with_outbox
       (λ o, o ++ (if Js.truthy room
                   then [mkEmit (IoTo (default "" room)) (receive_message m)]
                        ++ room_notices sid m (default "" room) (db_users w)
                   else [mkEmit IoEmit (receive_message m)])
               ++ [mkEmit (SocketEmit sid) (message_delivered (Message._id m))])
       (with_rooms
          (update_first (has_roomId (Js.or_else room "general"))
             Room.inc_messageCount)
          (with_next_id (S (next_id w))
             (with_messages (λ l, l ++ [m]) w)))).
Proof.
  cbv zeta. cbn [handler]. unfold on_send_message.
  destruct w as [us rs ms n ty so su ob co lg].
  set (m := sent_message sid now (mkWorld us rs ms n ty so su ob co lg) message room).
  apply try_catch_done.
  erewrite bind_done by (by apply await_no_fault).
  erewrite bind_done by (by apply await_no_fault).
  erewrite bind_done by (by apply await_no_fault).
  destruct (Js.truthy room) eqn:Ht.
  - erewrite bind_done.
    2:{ erewrite bind_done by reflexivity.
        erewrite bind_done by (by apply await_no_fault).
        apply (for_each_emits _ _
          (λ user, [mkEmit (IoTo (User.socketId user))
                      (new_message_notification
                         (Message.sender m +:+ ": " +:+ Message.message m)
                         (Message.sender m) (Some (default "" room)) false false)])).
        reflexivity. }
    rewrite flat_map_singleton.
    unfold room_notices. world_simpl. by rewrite <- !app_assoc.
  - erewrite bind_done by reflexivity.
    world_simpl. by rewrite <- !app_assoc.
Qed.

Lemma handler_keeps_ids sid now e : respects ids_kept (handler engine sid now e).
Proof.
  destruct e; cbn [handler];
    unfold on_user_join, on_send_message, on_create_room, on_join_room,
      on_typing, on_private_message, on_add_reaction, on_message_read,
      on_share_file, on_load_messages, on_search_messages, on_disconnect;
    keeps_with ids_solver.
Qed.

(** Where a message goes.  With no store call rejected, [send_message]
    stores one message (room: the given one, or "general") and confirms
    its id to the sender.  The id is the one the store hands out next; in
    a store whose ids are distinct and below the next one, which every
    handler keeps so, it differs from the id of every stored message.
    Given a room, the message is emitted to that room's label only, and a
    notice goes to every user record whose [currentRoom] is that room,
    online or not, except the sender, who is never notified.  Given no
    room, the message is emitted to everyone and no notice is sent. *)
Theorem send_message_routes (sid : string) (now : nat) (w : World)
    (message : string) (room : option string) :
  let w' := handle engine sid now (send_message message room) None w in
  let m := sent_message sid now w message room in
  db_messages w' = db_messages w ++ [m]
  ∧ Message._id m = next_id w
  ∧ Message.message m = message
  ∧ Message.room m = Js.or_else room "general"
  ∧ (Js.truthy room = true →
     outbox w'
     = outbox w ++ [mkEmit (IoTo (default "" room)) (receive_message m)]
       ++ room_notices sid m (default "" room) (db_users w)
       ++ [mkEmit (SocketEmit sid) (message_delivered (Message._id m))])
  ∧ (Js.truthy room = false →
     outbox w'
     = outbox w ++ [mkEmit IoEmit (receive_message m);
                    mkEmit (SocketEmit sid) (message_delivered (Message._id m))])
  ∧ (∀ u, u ∈ db_users w → User.currentRoom u = default "" room →
       User.socketId u ≠ sid →
       ∃ e, e ∈ room_notices sid m (default "" room) (db_users w)
            ∧ target e = IoTo (User.socketId u))
  ∧ (∀ e, e ∈ room_notices sid m (default "" room) (db_users w) →
       target e ≠ IoTo sid ∧ is_notification e = true)
  ∧ (ids_fresh w →
     (∀ m0, m0 ∈ db_messages w → Message._id m0 ≠ Message._id m)
     ∧ NoDup (map Message._id (db_messages w'))
     ∧ ids_fresh w')
  ∧ (∀ trace, ids_fresh w → ids_fresh (run engine trace w)).
Proof.
  cbv zeta.
  assert (Hids : ids_fresh w →
            ids_fresh (handle engine sid now (send_message message room) None w))
    by apply handler_keeps_ids.
  revert Hids. unfold handle. rewrite send_message_events. cbn [snd]. intros Hids.
  split_and!; [by destruct w..| | | | | |].
  - intros Ht. rewrite Ht. by destruct w.
  - intros Ht. rewrite Ht. by destruct w.
  - intros u Hu Hroom Hne. unfold room_notices.
    match goal with
    | |- context [map ?f _] =>
        exists (f u); split; [|reflexivity]; apply (list_elem_of_fmap_2 f _ u)
    end.
    apply list_elem_of_In, filter_In. split; [by apply list_elem_of_In|].
    apply andb_true_intro. split; [by apply bool_decide_eq_true_2|].
    apply negb_true_iff. unfold has_socketId. by apply bool_decide_eq_false_2.
  - intros e He. unfold room_notices in He.
    apply list_elem_of_fmap_1 in He as (u & -> & Hu).
    apply list_elem_of_In, filter_In in Hu as [_ Hu].
    apply andb_prop in Hu as [_ Hu]. apply negb_true_iff in Hu.
    unfold has_socketId in Hu. apply bool_decide_eq_false_1 in Hu.
    split; [|done]. simpl. intros [= H]. by apply Hu.
  - intros Hf. split_and!; [|apply (Hids Hf)|exact (Hids Hf)].
    intros m0 Hm0. destruct Hf as [_ Hlt].
    apply (list_elem_of_fmap_2 Message._id) in Hm0.
    pose proof (proj1 (Forall_forall _ _) Hlt _ Hm0) as H. simpl in H.
    unfold sent_message. simpl. lia.
  - intros trace. apply (run_respects engine ids_kept handler_keeps_ids trace w).
Qed.

End Routing.

(** ** Start-up *)

Lemma find_snoc {A} (P : A → bool) (l : list A) (x : A) :
  List.find P (l ++ [x])
  = match List.find P l with
    | Some y => Some y
    | None => if P x then Some x else None
    end.
Proof.
  induction l as [|y l IH]; simpl; [by destruct (P x)|].
  by destruct (P y).
Qed.

Lemma ensured_found now d w :
  is_Some (Room_findOne (Room.d_roomId d) (ensured now d w)).
Proof.
  unfold ensured. destruct (Room_findOne (Room.d_roomId d) w) eqn:E; [by rewrite E|].
  unfold Room_findOne in *. destruct w; simpl in *.
  rewrite find_snoc, E. unfold has_roomId. simpl.
  by rewrite bool_decide_eq_true_2.
Qed.

Lemma ensured_again now now' d w :
  ensured now' d (ensured now d w) = ensured now d w.
Proof.
  unfold ensured at 1. by destruct (ensured_found now d w) as [r ->].
Qed.

Lemma ensured_other now d id w :
  Room.d_roomId d ≠ id →
  Room_findOne id (ensured now d w) = Room_findOne id w.
Proof.
  intros Hne. unfold ensured.
  destruct (Room_findOne (Room.d_roomId d) w); [done|].
  unfold Room_findOne. destruct w; simpl.
  rewrite find_snoc. destruct (find (has_roomId id) _); [done|].
  unfold has_roomId. simpl. by rewrite bool_decide_eq_false_2.
Qed.

Lemma ensured_grows now d w :
  ∃ extra,
    db_rooms (ensured now d w) = db_rooms w ++ extra
    ∧ stdout (ensured now d w)
      = stdout w ++ map (λ r, default_room_created (Room.name r)) extra
    ∧ (extra = [] ∨ extra = [Room.of_draft now d])
    ∧ outbox (ensured now d w) = outbox w
    ∧ console (ensured now d w) = console w.
Proof.
  unfold ensured. destruct (Room_findOne _ w).
  - exists []. rewrite !app_nil_r. split_and!; auto.
  - eexists. destruct w; simpl. split_and!; [done|done|by right|done|done].
Qed.

Lemma for_each_cons_done {A} (f : A → Handler unit) x l p w p' w' :
  f x p w = (Done tt, p', w') → for_each (x :: l) f p w = for_each l f p' w'.
Proof. intros H. cbn [for_each]. unfold bind. by rewrite H. Qed.

(** One turn of the loop of [initializeRooms], no store call rejected. *)
Lemma ensure_step now d w :
  Room.d_roomId d ≠ "" → Room.d_name d ≠ "" →
  (existingRoom ← await (query (Room_findOne (Room.d_roomId d)));
   match existingRoom with
   | None =>
       await (Room_create now d);;
       console_log (default_room_created (Room.d_name d))
   | Some _ => mret tt
   end) None w
  = (Done tt, None, ensured now d w).
Proof.
  intros Hid Hname.
  erewrite bind_done by (by apply await_no_fault).
  unfold ensured. destruct (Room_findOne (Room.d_roomId d) w) eqn:E; [reflexivity|].
  erewrite bind_done by (by apply await_no_fault, Room_create_accepts).
  reflexivity.
Qed.

Lemma initializeRooms_run now w :
  initializeRooms now None w
  = (Done tt, None,
     ensured now (Room.mkDraft "random" "Random" None)
       (ensured now (Room.mkDraft "general" "General" None) w)).
Proof.
  unfold initializeRooms. apply try_catch_done.
  erewrite for_each_cons_done by (by apply ensure_step).
  erewrite for_each_cons_done by (by apply ensure_step).
  reflexivity.
Qed.

(** Start-up makes sure of the two default rooms and is idempotent.  With
    no store call rejected: afterwards "general" and "random" both exist;
    the rooms there were are untouched and at most two rooms are added,
    each empty, with a counter of zero and created by "system"; each room
    added is logged with [console.log], by its name; nothing is emitted
    and nothing is written with [console.error]; running it again changes
    nothing, and logs nothing; and [GET /api/rooms] lists the rooms as
    they now are. *)
Theorem initializeRooms_ensures_defaults (now now' : nat) (w : World) :
  let w' := (initializeRooms now None w).2 in
  is_Some (Room_findOne "general" w')
  ∧ is_Some (Room_findOne "random" w')
  ∧ (∃ extra, db_rooms w' = db_rooms w ++ extra
              ∧ length extra ≤ 2 ∧ Forall is_default_room extra
              ∧ stdout w'
                = stdout w ++ map (λ r, default_room_created (Room.name r)) extra)
  ∧ outbox w' = outbox w
  ∧ console w' = console w
  ∧ (initializeRooms now' None w').2 = w'
  ∧ api_rooms None w' = (Done (json_rooms (db_rooms w')), None, w').
Proof.
  cbv zeta. rewrite !initializeRooms_run. cbn [snd].
  set (general := Room.mkDraft "general" "General" None).
  set (random := Room.mkDraft "random" "Random" None).
  destruct (ensured_grows now general w) as (e1 & Hr1 & Hl1 & H1 & Ho1 & Hc1).
  destruct (ensured_grows now random (ensured now general w))
    as (e2 & Hr2 & Hl2 & H2 & Ho2 & Hc2).
  assert (Hg : is_Some (Room_findOne "general"
                          (ensured now random (ensured now general w)))).
  { rewrite (ensured_other now random "general") by done.
    apply (ensured_found now general w). }
  split_and!.
  - exact Hg.
  - apply (ensured_found now random).
  - exists (e1 ++ e2). rewrite Hr2, Hr1, Hl2, Hl1, map_app, !app_assoc.
    split_and!; [done| |  |done].
    + destruct H1 as [-> | ->], H2 as [-> | ->]; simpl; lia.
    + destruct H1 as [-> | ->], H2 as [-> | ->]; simpl;
        repeat first [apply List.Forall_cons | apply List.Forall_nil];
        unfold is_default_room; simpl; split_and!; auto.
  - by rewrite Ho2, Ho1.
  - by rewrite Hc2, Hc1.
  - assert (Hsame : ensured now' general
                      (ensured now random (ensured now general w))
                    = ensured now random (ensured now general w)).
    { unfold ensured at 1. change (Room.d_roomId general) with "general".
      by destruct Hg as [g ->]. }
    rewrite Hsame. apply ensured_again.
  - reflexivity.
Qed.

(** ** Consecutive pages *)

Section Consecutive_pages.

Context (engine : Engine).

(** Pages fit together.  For a room identifier that is not empty and
    limits of at least one, [load_messages] answers each request with the
    page of the specification, and the pages compose: the page that starts
    where another one ends, put in front of it, is the one page of both
    limits; a page is full when more messages follow and holds all that
    remain when none do, and then the next page is empty. *)
Theorem pages_compose (sid : string) (now : nat) (w : World) (roomId : string)
    (offset limit limit' : nat) :
  roomId ≠ "" →
  1 ≤ limit →
  1 ≤ limit' →
  let request o l :=
    handler engine sid now
      (load_messages (Some (Js.of_nat o)) (Some (Js.of_nat l)) (Some roomId))
      None w in
  let reply o l :=
    (Done tt, None,
     with_outbox
       (λ out, out ++ [mkEmit (SocketEmit sid)
                         (messages_loaded (page roomId o l w)
                            (hasMore roomId o l w))])
       w) in
  request offset limit = reply offset limit
  ∧ request (offset + limit) limit' = reply (offset + limit) limit'
  ∧ request offset (limit + limit') = reply offset (limit + limit')
  ∧ page roomId (offset + limit) limit' w ++ page roomId offset limit w
    = page roomId offset (limit + limit') w
  ∧ (hasMore roomId offset limit w = true →
     length (page roomId offset limit w) = limit)
  ∧ (hasMore roomId offset limit w = false →
     length (page roomId offset limit w)
     = length (room_messages roomId w) - offset
     ∧ page roomId (offset + limit) limit' w = []).
Proof.
  intros Hroom Hlimit Hlimit'. cbv zeta. split_and!.
  - by apply load_messages_run.
  - by apply load_messages_run.
  - apply load_messages_run; [done|lia].
  - unfold page. rewrite <- reverse_app, <- (drop_drop _ limit offset).
    by rewrite take_take_drop.
  - unfold hasMore. intros H%bool_decide_eq_true. rewrite page_length. lia.
  - unfold hasMore. intros H%bool_decide_eq_false. split.
    + rewrite page_length. lia.
    + apply length_zero_iff_nil. rewrite page_length. lia.
Qed.

End Consecutive_pages.

(** ** Canonical room identifiers *)

Lemma lower_char_not_upper c : Js.is_upper (Js.lower_char c) = false.
Proof. by destruct c as [[] [] [] [] [] [] [] []]. Qed.

Lemma replace_runs_is_slug b s :
  is_slug (Js.replace_runs b (Js.toLowerCase s)) = true.
Proof.
  revert b. induction s as [|c r IH]; intros b; [done|]. simpl.
  rewrite lower_char_space. destruct (Js.is_space c) eqn:E.
  - destruct b; [apply IH|]. simpl. by rewrite IH.
  - simpl. by rewrite lower_char_space, E, lower_char_not_upper, IH.
Qed.

Lemma is_slug_fixed s : is_slug s = true → roomIdOf s = s.
Proof.
  unfold roomIdOf, Js.replace_whitespace.
  induction s as [|c r IH]; [done|]. simpl.
  intros [[Hs Hu]%andb_prop Hr]%andb_prop.
  apply negb_true_iff in Hs, Hu.
  unfold Js.lower_char. rewrite Hu, Hs. f_equal.
  specialize (IH Hr). unfold Js.lower_char in IH. exact IH.
Qed.

Section Canonical_ids.

Context (engine : Engine).

Lemma create_room_then_exists sid now w roomName :
  roomName ≠ "" →
  is_Some (Room_findOne (roomIdOf roomName)
             (handle engine sid now (create_room roomName) None w)).
Proof.
  intros Hname. unfold handle.
  destruct (Room_findOne (roomIdOf roomName) w) as [r|] eqn:E.
  - rewrite (create_room_existing _ _ _ _ _ _ E). cbn [snd]. by rewrite E.
  - rewrite (create_room_new _ _ _ _ _ Hname E). cbn [snd].
    unfold Room_findOne in *.
    destruct w; cbn [db_rooms with_outbox with_rooms with_stdout] in *.
    rewrite find_snoc, E. unfold has_roomId. simpl.
    by rewrite bool_decide_eq_true_2.
Qed.

(** Room identifiers are canonical.  A derived identifier has no white
    space and no upper-case letter, and deriving again from it gives it
    back; it is empty only for the empty name.  So two names that are not
    empty and differ only in letter case or in the length of their runs of
    white space name one room: once a room was created under one of them,
    [create_room] with the other changes nothing. *)
Theorem roomIdOf_is_canonical (sid sid' : string) (now now' : nat) (w : World)
    (roomName roomName' : string) :
  is_slug (roomIdOf roomName) = true
  ∧ roomIdOf (roomIdOf roomName) = roomIdOf roomName
  ∧ (roomIdOf roomName = "" ↔ roomName = "")
  ∧ (roomName ≠ "" →
     roomIdOf roomName' = roomIdOf roomName →
     handle engine sid' now' (create_room roomName') None
       (handle engine sid now (create_room roomName) None w)
     = handle engine sid now (create_room roomName) None w).
Proof.
  assert (Hslug : is_slug (roomIdOf roomName) = true)
    by apply replace_runs_is_slug.
  split_and!; [done | by apply is_slug_fixed | apply roomIdOf_empty |].
  intros Hname Heq.
  destruct (create_room_then_exists sid now w roomName Hname) as [r Hr].
  rewrite <- Heq in Hr. unfold handle at 1.
  by rewrite (create_room_existing _ _ _ _ _ _ Hr).
Qed.

(** [GET /api/search] validates its query.  Without a query text (absent
    or empty) the answer is the 400 body and the store is not called at
    all; with one, the answer is the search result or the 500 body, and
    nothing stored changes. *)
Theorem api_search_requires_query (q room : option string) (p : option nat)
    (w : World) :
  (Js.truthy q = false → api_search engine q room p w = (Done query_required, p, w))
  ∧ (Js.truthy q = true →
     ∃ r p' w', api_search engine q room p w = (Done r, p', w')
                ∧ r ≠ query_required
                ∧ ((∃ ms, r = json_search ms (default "" q))
                   ∨ r = json_error 500 "Failed to search messages")
                ∧ same_db w w').
Proof.
  unfold api_search, try_catch. split; intros Ht; rewrite Ht; [reflexivity|].
  cbn [negb]. unfold mbind, Handler_bind, bind.
  destruct (await (Message_search _ _ _) p w) as [[[ms|] p1] w1] eqn:E1;
    apply await_cases in E1 as [[Hthrown ->]|(a & Ha & Hop)]; try discriminate.
  - unfold Message_search in Hop. destruct (regex_i _ _); [|done].
    injection Hop as _ <-. eexists _, _, _. split; [reflexivity|].
    split_and!; [discriminate | left; by eexists | done].
  - eexists _, _, _. split; [reflexivity|].
    split_and!; [discriminate | by right | by destruct w].
Qed.

End Canonical_ids.

(** ** A store failure in the middle of [join_room] *)

Lemma await_later {A} (op : World → option (A * World)) k w a w' :
  op w = Some (a, w') → await op (Some (S k)) w = (Done a, Some k, w').
Proof. intros H. unfold await. by rewrite H. Qed.

Lemma leave_loop_counting sid (left : list Room.t) (k : nat) (w : World) :
  for_each left
    (λ room,
       socket_leave sid (Room.roomId room);;
       await (update (with_rooms
         (update_first (has_roomId (Room.roomId room))
            (Room.set_users (delete sid)))))) (Some (length left + k)) w
  = (Done tt, Some k,
     with_subscriptions (leave_subscriptions sid left)
       (with_rooms (leave_rooms sid left) w)).
Proof.
  revert w. induction left as [|room left IH]; intros w.
  - by destruct w.
  - cbn [for_each length Nat.add]. unfold bind at 1.
    unfold mbind, Handler_bind, bind, socket_leave, local.
    erewrite await_later by reflexivity. rewrite IH. by destruct w.
Qed.

Section Join_room_failure.

Context (engine : Engine).

(** [join_room] is not undone when it fails half-way.  When the store
    rejects the update of the user's [currentRoom] (the call after the
    look-up of the rooms of the connection and one update per such room),
    the connection has already been taken out of every room and stays out:
    it is a member of no room, the user document still names the old
    room, and the connection gets the failure event. *)
Theorem join_room_is_not_rolled_back (sid : string) (now : nat) (w : World)
    (roomId : string) :
  unique_roomIds w →
  let n := length (List.filter (has_member sid) (db_rooms w)) in
  let w' := handle engine sid now (join_room roomId) (Some (S n)) w in
  db_rooms w' = map (Room.set_users (delete sid)) (db_rooms w)
  ∧ (∀ r, r ∈ db_rooms w' → Room.users r !! sid = None)
  ∧ db_users w' = db_users w
  ∧ subscriptions w'
    = leave_subscriptions sid (List.filter (has_member sid) (db_rooms w))
        (subscriptions w)
  ∧ outbox w' = outbox w ++ [mkEmit (SocketEmit sid) (error "Failed to join room")]
  ∧ console w' = console w ++ ["Error joining room:"].
Proof.
  intros Hnd. cbv zeta. unfold handle. cbn [handler]. unfold on_join_room.
  erewrite try_catch_thrown.
  2:{ erewrite bind_done by (by apply await_later).
      erewrite bind_done.
      2:{ rewrite <- (Nat.add_0_r (length _)). apply leave_loop_counting. }
      apply bind_thrown. apply await_first_fault. }
  destruct w as [us rs ms n ty so su ob co lg]. unfold unique_roomIds in Hnd.
  simpl in Hnd. world_simpl. rewrite leave_member_rooms by done.
  split_and!; try reflexivity.
  intros r (r0 & -> & _)%list_elem_of_fmap_1. simpl. apply lookup_delete_eq.
Qed.

End Join_room_failure.

(** ** Evaluations of the further properties *)

Lemma messages_are_append_only_witness :
  ∃ m, db_messages Sample.chatty !! 0 = Some m
       ∧ ∃ m', db_messages (run Sample.engine Scenario.session Sample.chatty) !! 0
               = Some m'
               ∧ same_core m m'.
Proof.
  destruct (db_messages Sample.chatty !! 0) as [m|] eqn:E;
    [|vm_compute in E; discriminate E].
  exists m. split; [reflexivity|].
  exact (messages_are_append_only Sample.engine Scenario.session Sample.chatty
           0 m E).
Defined.

Lemma rooms_are_kept_witness :
  ∃ r, db_rooms Sample.chatty !! 0 = Some r
       ∧ ∃ r', db_rooms (run Sample.engine Scenario.session Sample.chatty) !! 0
               = Some r'
               ∧ Room.roomId r' = Room.roomId r
               ∧ Room.name r' = Room.name r
               ∧ Room.messageCount r ≤ Room.messageCount r'
               ∧ room_evolves r r'.
Proof.
  destruct (db_rooms Sample.chatty !! 0) as [r|] eqn:E;
    [|vm_compute in E; discriminate E].
  exists r. split; [reflexivity|].
  exact (rooms_are_kept Sample.engine Scenario.session Sample.chatty 0 r E).
Defined.

Lemma users_are_kept_witness :
  ∃ u, db_users Sample.chatty !! 0 = Some u
       ∧ ∃ u', db_users (run Sample.engine Scenario.session Sample.chatty) !! 0
               = Some u'
               ∧ User.socketId u' = User.socketId u.
Proof.
  destruct (db_users Sample.chatty !! 0) as [u|] eqn:E;
    [|vm_compute in E; discriminate E].
  exists u. split; [reflexivity|].
  exact (users_are_kept Sample.engine Scenario.session Sample.chatty 0 u E).
Defined.

Lemma unique_indexes_kept_witness :
  unique_socketIds (run Sample.engine Scenario.session Sample.chatty)
  ∧ unique_roomIds (run Sample.engine Scenario.session Sample.chatty)
  ∧ unique_roomIds (initializeRooms 11 None Sample.chatty).2.
Proof.
  pose proof (unique_indexes_kept Sample.engine 11 None Scenario.session
                Sample.chatty) as (_ & _ & _ & _ & _ & Hu & Hr).
  assert (H1 : unique_socketIds Sample.chatty)
    by (apply (bool_decide_unpack _); by vm_compute).
  assert (H2 : unique_roomIds Sample.chatty)
    by (apply (bool_decide_unpack _); by vm_compute).
  split; [exact (Hu H1) | exact (Hr H2)].
Defined.

Lemma join_room_transfers_witness :
  let w' := handle Sample.engine "s1" 3 (join_room "random") None Sample.joined in
  (User.currentRoom <$> User_findOne "s1" w') = Some "random"
  ∧ ("s1", "random") ∈ subscriptions w'.
Proof.
  cbv zeta.
  destruct (Room_findOne "random" Sample.joined) as [room|] eqn:Er;
    [|vm_compute in Er; discriminate Er].
  destruct (User_findOne "s1" Sample.joined) as [user|] eqn:Eu;
    [|vm_compute in Eu; discriminate Eu].
  assert (Hnd : unique_roomIds Sample.joined)
    by (apply (bool_decide_unpack _); by vm_compute).
  pose proof (join_room_transfers Sample.engine "s1" 3 Sample.joined "random"
                room user Hnd Er Eu) as H.
  cbv zeta in H. destruct H as (_ & _ & _ & H4 & H5 & _). split; assumption.
Defined.

Lemma typing_round_trip_witness :
  typingUsers
    (handle Sample.engine "s1" 4 (typing false) None
       (handle Sample.engine "s1" 3 (typing true) None Sample.joined))
  = typingUsers Sample.joined.
Proof.
  destruct (User_findOne "s1" Sample.joined) as [user|] eqn:Eu;
    [|vm_compute in Eu; discriminate Eu].
  assert (Hfresh : "s1" ∉ map fst (typingUsers Sample.joined))
    by (apply (bool_decide_unpack _); by vm_compute).
  pose proof (typing_round_trip Sample.engine "s1" 3 4 Sample.joined user
                Eu Hfresh) as H.
  cbv zeta in H. destruct H as (_ & H & _). exact H.
Defined.

Lemma pages_compose_witness :
  page "general" 50 50 Sample.busy ++ page "general" 0 50 Sample.busy
  = page "general" 0 100 Sample.busy.
Proof.
  assert (Hroom : "general" ≠ "") by discriminate.
  assert (Hlimit : 1 ≤ 50) by lia.
  pose proof (pages_compose Sample.engine "s1" 3 Sample.busy "general" 0 50 50
                Hroom Hlimit Hlimit) as H.
  cbv zeta in H. destruct H as (_ & _ & _ & H & _). exact H.
Defined.

Lemma join_room_is_not_rolled_back_witness :
  let w' := handle Sample.engine "s1" 3 (join_room "random") (Some 2)
              Sample.joined in
  db_rooms w' = map (Room.set_users (delete "s1")) (db_rooms Sample.joined)
  ∧ db_users w' = db_users Sample.joined
  ∧ outbox w'
    = outbox Sample.joined
      ++ [mkEmit (SocketEmit "s1") (error "Failed to join room")].
Proof.
  cbv zeta.
  assert (Hnd : unique_roomIds Sample.joined)
    by (apply (bool_decide_unpack _); by vm_compute).
  assert (Hn : length (List.filter (has_member "s1") (db_rooms Sample.joined)) = 1)
    by (by vm_compute).
  pose proof (join_room_is_not_rolled_back Sample.engine "s1" 3 Sample.joined
                "random" Hnd) as H.
  cbv zeta in H. rewrite Hn in H.
  destruct H as (H1 & _ & H3 & _ & H5 & _). split_and!; assumption.
Defined.

Lemma roomIdOf_is_canonical_witness :
  handle Sample.engine "s2" 4 (create_room "study group") None
    (handle Sample.engine "s1" 3 (create_room "Study  Group") None Sample.joined)
  = handle Sample.engine "s1" 3 (create_room "Study  Group") None Sample.joined.
Proof.
  pose proof (roomIdOf_is_canonical Sample.engine "s1" "s2" 3 4 Sample.joined
                "Study  Group" "study group") as (_ & _ & _ & H).
  apply H; [discriminate | by vm_compute].
Defined.

(** [s2] subscribes to the label that is the id of [s1] and receives what
    [s3] sends to [s1] in private. *)
Lemma private_message_reaches_the_label_witness :
  let w1 := handle Sample.engine "s2" 3 (join_room "s1") None Sample.joined in
  let w2 := handle Sample.engine "s3" 4 (private_message "s1" "psst") None w1 in
  receives w2 "s2"
    (mkEmit (IoTo "s1")
       (private_message_event (private_note "s3" 4 w1 "s1" "psst"))).
Proof.
  pose proof (private_message_reaches_the_label Sample.engine "s3" 4 "s1" "psst"
                None Sample.joined) as (_ & H).
  specialize (H "s2" 3). cbv zeta in H. destruct H as (_ & _ & _ & H). exact H.
Defined.

Lemma send_message_routes_witness :
  NoDup (map Message._id
           (db_messages (handle Sample.engine "s1" 4 (send_message "hi" None) None
                           Sample.chatty))).
Proof.
  pose proof (send_message_routes Sample.engine "s1" 4 Sample.chatty "hi" None) as H.
  cbv zeta in H. destruct H as (_ & _ & _ & _ & _ & _ & _ & _ & H & _).
  assert (Hfresh : ids_fresh Sample.chatty)
    by (apply (bool_decide_unpack _); by vm_compute).
  destruct (H Hfresh) as (_ & Hnd & _). exact Hnd.
Defined.

Lemma api_search_requires_query_witness :
  api_search Sample.engine (Some "") None (Some 0) Sample.chatty
  = (Done query_required, Some 0, Sample.chatty).
Proof.
  apply (api_search_requires_query Sample.engine (Some "") None (Some 0)
           Sample.chatty).
  reflexivity.
Defined.

